(** * Content detection and fetch strategy of the crawler

    A shallow embedding of the content-region pipeline of
    [src/Crawler/smart-crawler-coordinator.js] (class
    [SmartCrawlerCoordinator]) and of the retrying fetch of the
    non-browser crawler ([NonBrowserCrawler], required by the coordinator as
    [./non-browser-crawler]), with the properties the specification
    states about them.

    Conventions.
    - A JavaScript string is the list of its UTF-16 code units; error
      messages, header values and URLs of the fetch layer are Stdlib
      strings over ASCII.
    - Array indices and counters are JavaScript numbers holding integers;
      they are modelled in [Z], so that [blocks.length - 1] on an empty
      array and [i - 14] below zero keep their JavaScript values.
    - A property that can be absent is an [option]; a function that can
      raise returns an [option] or a sum, with the error on the left.
    - Loops are folds over their index range or recursions on the number of
      iterations left; the loop variables are a record.
    - Awaited calls (the HTTP request, the timer, the two crawlers) are the
      nodes of a computation tree that is run against an environment.
    - [console.log] calls and the wall-clock field [processingTime] are not
      modelled.

    The definitions come first: strings, blocks, the Content Region
    Detector, the Link-Pattern Pruner, the Block Filter, the two crawlers,
    sample inputs and the predicates of the statements.  The properties
    follow in the same order. *)

From Stdlib Require Import ZArith NArith QArith List Bool Lia String Ascii.
From Stdlib Require Import PrimFloat Sorted.
From Stdlib Require Uint63.
Import ListNotations.
Local Open Scope Z_scope.

(** ** JavaScript strings *)

Module Js.

Definition jsstring := list N.

(** The code units that [String.prototype.trim] strips and that the
    regular-expression class [\s] matches: ECMAScript WhiteSpace and
    LineTerminator. *)
Definition isWhiteSpace (c : N) : bool :=
  ((c =? 9) || (c =? 10) || (c =? 11) || (c =? 12) || (c =? 13) ||
   (c =? 32) || (c =? 160) || (c =? 5760) ||
   ((8192 <=? c) && (c <=? 8202)) ||
   (c =? 8232) || (c =? 8233) || (c =? 8239) || (c =? 8287) ||
   (c =? 12288) || (c =? 65279))%N.

Definition isEmpty (s : jsstring) : bool :=
  match s with [] => true | _ :: _ => false end.

Fixpoint trimStart (s : jsstring) : jsstring :=
  match s with
  | [] => []
  | c :: s' => if isWhiteSpace c then trimStart s' else s
  end.

Fixpoint trimEnd (s : jsstring) : jsstring :=
  match s with
  | [] => []
  | c :: s' =>
      match trimEnd s' with
      | [] => if isWhiteSpace c then [] else [c]
      | t => c :: t
      end
  end.

(** [s.trim()] *)
Definition trim (s : jsstring) : jsstring := trimEnd (trimStart s).

(** [s.split(/\s+/)]: the pieces between the maximal runs of white space.
    [cur] holds, reversed, the piece being read; [inGap] tells that the
    previous code unit was white space.  A string that starts or ends with
    white space yields an empty first or last piece, as in JavaScript. *)
Fixpoint splitWs (cur : jsstring) (inGap : bool) (s : jsstring)
  : list jsstring :=
  match s with
  | [] => [rev cur]
  | c :: s' =>
      if isWhiteSpace c
      then if inGap then splitWs [] true s'
           else rev cur :: splitWs [] true s'
      else splitWs (c :: cur) false s'
  end.

Definition split (s : jsstring) : list jsstring := splitWs [] false s.

(** A string literal of the source, as code units. *)
Fixpoint lit (s : string) : jsstring :=
  match s with
  | EmptyString => []
  | String a s' => N_of_ascii a :: lit s'
  end.

(** [n] words [w] joined by single spaces. *)
Fixpoint nWords (n : nat) : jsstring :=
  match n with
  | O => []
  | S O => lit "w"
  | S n' => lit "w " ++ nWords n'
  end.

End Js.
Import Js.

(** ** Blocks *)

Record Block := mkBlock {
  title : option jsstring;
  content : option jsstring;
  image : option jsstring;
  alt : option jsstring;
  link : option jsstring
}.

Definition emptyBlock : Block := mkBlock None None None None None.

(** [!!(x)] for a property [x] that is [undefined] or a string. *)
Definition truthy (x : option jsstring) : bool :=
  match x with
  | None => false
  | Some s => negb (isEmpty s)
  end.

(** [!!(x && x.trim())] *)
Definition truthyTrim (x : option jsstring) : bool :=
  match x with
  | None => false
  | Some s => negb (isEmpty s) && negb (isEmpty (trim s))
  end.

(** [countWords(text)] *)
Definition countWords (text : option jsstring) : Z :=
  match text with
  | None => 0
  | Some t =>
      if isEmpty t then 0
      else
        let trimmed := trim t in
        if isEmpty trimmed then 0
        else
          let words := filter (fun word => 0 <? Z.of_nat (List.length word))
                              (split trimmed) in
          Z.of_nat (List.length words)
  end.

(** The test of [.filter(word => word.length > 0)]. *)
Definition nonEmptyPiece (word : jsstring) : bool :=
  0 <? Z.of_nat (List.length word).

(** The spec's measure: the number of white-space separated words of a
    string, counted as the positions where a word starts. *)
Fixpoint wordStarts (afterWs : bool) (s : jsstring) : nat :=
  match s with
  | [] => O
  | c :: s' =>
      if isWhiteSpace c then wordStarts true s'
      else ((if afterWs then 1 else 0) + wordStarts false s')%nat
  end.

Definition spec_wordCount (s : jsstring) : Z := Z.of_nat (wordStarts true s).

(** The content-bearing test of [detectContentRegions]; the source writes
    it out three times with the same text: in the scan of the first ten
    blocks, as [isValidContentStart] in the main loop, and in the look-ahead. *)
Definition isValidContentStart (block : Block) : bool :=
  let hasTitle := truthyTrim (title block) in
  let hasContent := truthyTrim (content block) in
  let contentWordCount := if hasContent then countWords (content block) else 0 in
  hasTitle || (hasContent && (15 <=? contentWordCount)).

(** [shouldIncludeBlock(block)] *)
Definition shouldIncludeBlock (block : Block) : bool :=
  if truthyTrim (title block) then true
  else if truthyTrim (image block) then true
  else if truthyTrim (content block) then
    let wordCount := countWords (content block) in
    if 20 <=? wordCount then true else false
  else if truthyTrim (link block) && negb (truthy (content block))
          && negb (truthy (title block)) && negb (truthy (image block))
  then false
  else false.


(** ** Arrays and counted loops *)

Definition len (blocks : list Block) : Z := Z.of_nat (List.length blocks).

(** The indices of [for (let j = lo; j <= hi; j++)], in order. *)
Definition zrange (lo hi : Z) : list Z :=
  map (fun k => lo + Z.of_nat k) (seq 0 (Z.to_nat (hi - lo + 1))).

(** [blocks[j]], where [undefined] stands for an index outside the array. *)
Definition blockGet (blocks : list Block) (j : Z) : option Block :=
  if j <? 0 then None else nth_error blocks (Z.to_nat j).

(** [blocks[j]] at the places where the loop bounds of the source keep [j]
    inside the array ([0 <= j <= blocks.length - 1]). *)
Definition blockAt (blocks : list Block) (j : Z) : Block :=
  match blockGet blocks j with
  | Some block => block
  | None => emptyBlock
  end.

(** Block [j] is content-bearing. *)
Definition validAt (blocks : list Block) (j : Z) : bool :=
  isValidContentStart (blockAt blocks j).

(** ** Content Region Detector: [detectContentRegions] *)

Inductive Reason := title_start | content_start.

Record Region := mkRegion {
  start : Z;
  end_ : Z;
  reason : Reason;
  isFirstRegion : bool;
  extendRange : Z;
  lastValidContentIndex : Z
}.

Definition setEnd (r : Region) (newEnd lastValid : Z) : Region :=
  mkRegion (start r) newEnd (reason r) (isFirstRegion r) (extendRange r) lastValid.

(** The variables of the main loop. *)
Record DetectState := mkDetect {
  regions : list Region;
  currentRegion : option Region;
  isFirstContentRegion : bool
}.

(** First pass: is one of the first ten blocks content-bearing? *)
Definition hasFoundValidContentInFirst10Blocks (blocks : list Block) : bool :=
  existsb (fun i => isValidContentStart (blockAt blocks i))
          (zrange 0 (Z.min 10 (len blocks) - 1)).

(** First half of the loop body at index [i]: a content-bearing block opens
    a region or extends the open one. *)
Definition openOrExtend (blocks : list Block) (hasFound : bool) (i : Z)
  (st : DetectState) : DetectState :=
  let block := blockAt blocks i in
  let hasTitle := truthyTrim (title block) in
  if isValidContentStart block then
    match currentRegion st with
    | None =>
        let extendRange :=
          if isFirstContentRegion st && negb hasFound then 20 else 10 in
        mkDetect (regions st)
          (Some (mkRegion i (Z.min (i + extendRange - 1) (len blocks - 1))
                   (if hasTitle then title_start else content_start)
                   (isFirstContentRegion st) extendRange i))
          false
    | Some r =>
        let newEnd := Z.min (i + extendRange r - 1) (len blocks - 1) in
        if end_ r <? newEnd
        then mkDetect (regions st) (Some (setEnd r newEnd i))
               (isFirstContentRegion st)
        else mkDetect (regions st) (Some (setEnd r (end_ r) i))
               (isFirstContentRegion st)
    end
  else st.

(** The look-ahead loop: the first content-bearing index in
    [base + 1 .. lookAheadEnd], if there is one ([hasMoreValidContent] and
    [nextValidContentIndex] of the source). *)
Definition lookAhead (blocks : list Block) (base : Z) : option Z :=
  let lookAheadEnd := Z.min (base + 10) (len blocks - 1) in
  find (fun j => isValidContentStart (blockAt blocks j))
       (zrange (base + 1) lookAheadEnd).

(** Second half of the loop body: at the end of the open region, extend
    it to the next content-bearing block or close it. *)
Definition checkEnd (blocks : list Block) (i : Z) (st : DetectState)
  : DetectState :=
  match currentRegion st with
  | Some r =>
      if end_ r <=? i then
        match lookAhead blocks (lastValidContentIndex r) with
        | Some nextValidContentIndex =>
            let newEnd :=
              Z.min (nextValidContentIndex + extendRange r - 1)
                    (len blocks - 1) in
            mkDetect (regions st)
              (Some (setEnd r newEnd nextValidContentIndex))
              (isFirstContentRegion st)
        | None =>
            mkDetect (regions st ++ [r]) None (isFirstContentRegion st)
        end
      else st
  | None => st
  end.

Definition detectStep (blocks : list Block) (hasFound : bool)
  (st : DetectState) (i : Z) : DetectState :=
  checkEnd blocks i (openOrExtend blocks hasFound i st).

Definition detectInit : DetectState := mkDetect [] None true.

(** The loop state after the iterations [0 .. n - 1]. *)
Definition stateAt (blocks : list Block) (n : Z) : DetectState :=
  fold_left (detectStep blocks (hasFoundValidContentInFirst10Blocks blocks))
            (zrange 0 (n - 1)) detectInit.

Definition detectContentRegions (blocks : list Block) : list Region :=
  let st := stateAt blocks (len blocks) in
  match currentRegion st with
  | Some r => regions st ++ [r]
  | None => regions st
  end.

(** ** Link-Pattern Pruner: [checkLinkPatterns] *)

Definition requiredConsecutive : Z := 15.

Record FinalRegion := mkFinal {
  fstart : Z;
  fend : Z;
  freason : Reason;
  fisFirstRegion : bool;
  linkPatternDetected : bool;
  fcontentLinkPairs : Z
}.

(** The counters of the scan of one region; [broke] records that the loop
    was left by [break]. *)
Record ScanState := mkScan {
  adjustedEnd : Z;
  contentLinkPairs : Z;
  consecutivePairs : Z;
  broke : bool
}.

Definition isValidContentForPattern (block : Block) : bool :=
  let hasValidContent := truthyTrim (content block) in
  let hasValidTitle := truthyTrim (title block) in
  let contentWordCount := if hasValidContent then countWords (content block) else 0 in
  let titleWordCount := if hasValidTitle then countWords (title block) else 0 in
  (hasValidContent && (5 <=? contentWordCount)) ||
  (hasValidTitle && (5 <=? titleWordCount)).

(** [foundAssociatedLink] for the block at index [i]. *)
Definition foundAssociatedLink (blocks : list Block) (i : Z) (block : Block)
  : bool :=
  let hasLink := truthyTrim (link block) in
  if hasLink then true
  else existsb (fun j => truthyTrim (link (blockAt blocks j)))
               (zrange (i + 1) (Z.min (i + 3) (len blocks - 1))).

(** One iteration of the scan, on the block read at index [i]. *)
Definition scanBlock (blocks : list Block) (i : Z) (block : Block)
  (st : ScanState) : ScanState :=
  if isValidContentForPattern block then
    let st1 :=
      if foundAssociatedLink blocks i block
      then mkScan (adjustedEnd st) (contentLinkPairs st + 1)
                  (consecutivePairs st + 1) false
      else mkScan (adjustedEnd st) (contentLinkPairs st) 0 false in
    if requiredConsecutive <=? consecutivePairs st1
    then mkScan (i - (requiredConsecutive - 1)) (contentLinkPairs st1)
                (consecutivePairs st1) true
    else st1
  else
    if 0 <? consecutivePairs st
    then mkScan (adjustedEnd st) (contentLinkPairs st) 0 false
    else st.

(** [for (let i = region.start; i <= region.end; i++)], with [fuel]
    iterations left.  [None] is the [TypeError] raised when [blocks[i]] is
    [undefined] and its property [content] is read. *)
Fixpoint scanRegion (blocks : list Block) (fuel : nat) (i : Z)
  (st : ScanState) : option ScanState :=
  match fuel with
  | O => Some st
  | S fuel' =>
      match blockGet blocks i with
      | None => None
      | Some block =>
          let st' := scanBlock blocks i block st in
          if broke st' then Some st'
          else scanRegion blocks fuel' (i + 1) st'
      end
  end.

Definition scanOf (blocks : list Block) (region : Region) : option ScanState :=
  scanRegion blocks (Z.to_nat (end_ region - start region + 1))
             (start region) (mkScan (end_ region) 0 0 false).

(** The body of [for (const region of contentRegions)]: the region to push
    onto [finalRegions], if any. *)
Definition pruneRegion (blocks : list Block) (region : Region)
  : option (option FinalRegion) :=
  match scanOf blocks region with
  | None => None
  | Some st =>
      if start region <=? adjustedEnd st
      then Some (Some (mkFinal (start region) (adjustedEnd st) (reason region)
                         (isFirstRegion region)
                         (requiredConsecutive <=? consecutivePairs st)
                         (contentLinkPairs st)))
      else Some None
  end.

Fixpoint pruneAll (blocks : list Block) (contentRegions : list Region)
  (finalRegions : list FinalRegion) : option (list FinalRegion) :=
  match contentRegions with
  | [] => Some finalRegions
  | region :: rest =>
      match pruneRegion blocks region with
      | None => None
      | Some (Some f) => pruneAll blocks rest (finalRegions ++ [f])
      | Some None => pruneAll blocks rest finalRegions
      end
  end.

Definition checkLinkPatterns (blocks : list Block)
  (contentRegions : list Region) : option (list FinalRegion) :=
  match contentRegions with
  | [] => Some []
  | _ :: _ => pruneAll blocks contentRegions []
  end.

(** ** Block Filter: [checkOnlyLinkPatterns] and [extractMainContentBlocks] *)

(** [linkPatternCount / contentBlockCount > 0.7].  Both counts are array
    lengths at most, the quotient is the correctly rounded binary64
    quotient and [0.7] the binary64 number nearest to 7/10; for counts below
    2^50 the comparison of the two doubles is the comparison of the exact
    fractions, which is what is computed here.  [ratioExceedsBinary64] is the
    same test on binary64 numbers. *)
Definition ratioExceeds (linkPatternCount contentBlockCount : Z) : bool :=
  7 * contentBlockCount <? 10 * linkPatternCount.

(** The test as JavaScript evaluates it, on binary64 numbers; the literal is
    the double nearest to 7/10. *)
Definition ratioExceedsBinary64 (linkPatternCount contentBlockCount : Z) : bool :=
  PrimFloat.ltb 0x1.6666666666666p-1%float
    (PrimFloat.div (PrimFloat.of_uint63 (Uint63.of_Z linkPatternCount))
                   (PrimFloat.of_uint63 (Uint63.of_Z contentBlockCount))).

(** One iteration of the counting loop; the pair is
    [(linkPatternCount, contentBlockCount)]. *)
Definition countLinkPattern (blocks : list Block) (acc : Z * Z) (i : Z)
  : Z * Z :=
  let '(linkPatternCount, contentBlockCount) := acc in
  let block := blockAt blocks i in
  let hasValidContent := truthyTrim (content block) in
  let hasValidTitle := truthyTrim (title block) in
  let hasContent := hasValidContent || hasValidTitle in
  let hasLink := truthy (link block) in
  if hasContent then
    if hasLink then (linkPatternCount + 1, contentBlockCount + 1)
    else if existsb (fun j => truthy (link (blockAt blocks j)))
                    (zrange (i + 1) (Z.min (i + 3) (len blocks - 1)))
         then (linkPatternCount + 1, contentBlockCount + 1)
         else (linkPatternCount, contentBlockCount + 1)
  else acc.

Definition linkPatternCounts (blocks : list Block) : Z * Z :=
  fold_left (countLinkPattern blocks) (zrange 0 (len blocks - 1)) (0, 0).

Definition checkOnlyLinkPatterns (blocks : list Block) : bool :=
  let '(linkPatternCount, contentBlockCount) := linkPatternCounts blocks in
  (0 <? contentBlockCount) && ratioExceeds linkPatternCount contentBlockCount.

Inductive RegionReason :=
| of_region (r : Reason)
| no_region_filter.

(** A kept block with the [_meta] object attached to it. *)
Record FilteredBlock := mkFiltered {
  block_of : Block;
  regionReason : RegionReason;
  blockIndex : Z;
  isMainContent : bool;
  metaIsFirstRegion : option bool;
  contentWordCount : Z
}.

Definition metaWordCount (block : Block) : Z :=
  if truthy (content block) then countWords (content block) else 0.

(** [.map((block, index) => ...)] of the branch without regions. *)
Fixpoint annotateFrom (index : Z) (kept : list Block) : list FilteredBlock :=
  match kept with
  | [] => []
  | block :: rest =>
      mkFiltered block no_region_filter index true None (metaWordCount block)
      :: annotateFrom (index + 1) rest
  end.

Definition filterWholeSequence (blocks : list Block) : list FilteredBlock :=
  annotateFrom 0 (filter shouldIncludeBlock blocks).

(** The inner loop over one region; [None] is the [TypeError] of
    [shouldIncludeBlock(undefined)], reached at a negative index. *)
Fixpoint extractRegion (blocks : list Block) (region : FinalRegion)
  (indices : list Z) (out : list FilteredBlock) : option (list FilteredBlock) :=
  match indices with
  | [] => Some out
  | i :: rest =>
      if i <? len blocks then
        match blockGet blocks i with
        | None => None
        | Some block =>
            if shouldIncludeBlock block
            then extractRegion blocks region rest
                   (out ++ [mkFiltered block (of_region (freason region)) i true
                              (Some (fisFirstRegion region))
                              (metaWordCount block)])
            else extractRegion blocks region rest out
        end
      else extractRegion blocks region rest out
  end.

Fixpoint extractRegions (blocks : list Block) (regions : list FinalRegion)
  (out : list FilteredBlock) : option (list FilteredBlock) :=
  match regions with
  | [] => Some out
  | region :: rest =>
      match extractRegion blocks region (zrange (fstart region) (fend region)) out with
      | None => None
      | Some out' => extractRegions blocks rest out'
      end
  end.

Definition extractMainContentBlocks (blocks : list Block)
  (regions : list FinalRegion) : option (list FilteredBlock) :=
  match regions with
  | [] =>
      let hasOnlyLinkPatterns := checkOnlyLinkPatterns blocks in
      if hasOnlyLinkPatterns then Some []
      else Some (filterWholeSequence blocks)
  | _ :: _ => extractRegions blocks regions []
  end.

(** [detectAndFilterMainContent(blocks)] *)
Definition detectAndFilterMainContent (blocks : list Block)
  : option (list FilteredBlock) :=
  match blocks with
  | [] => Some []
  | _ :: _ =>
      let contentRegions := detectContentRegions blocks in
      match checkLinkPatterns blocks contentRegions with
      | None => None
      | Some finalRegions => extractMainContentBlocks blocks finalRegions
      end
  end.

(** *** The fraction of the spec *)

(** Blocks "with a non-empty title or non-empty content", by index. *)
Definition spec_hasTitleOrContent (blocks : list Block) (i : Z) : bool :=
  truthyTrim (title (blockAt blocks i)) || truthyTrim (content (blockAt blocks i)).

Definition spec_contentIndices (blocks : list Block) : list Z :=
  filter (spec_hasTitleOrContent blocks) (zrange 0 (len blocks - 1)).

(** "a link in the same block or within the next 3 blocks" *)
Definition spec_linkNearby (blocks : list Block) (i : Z) : bool :=
  existsb (fun j => (j <? len blocks) && truthy (link (blockAt blocks j)))
          [i; i + 1; i + 2; i + 3].

Definition spec_linkedFraction (blocks : list Block) : Q :=
  let n := List.length (spec_contentIndices blocks) in
  let k := List.length (filter (spec_linkNearby blocks) (spec_contentIndices blocks)) in
  Qmake (Z.of_nat k) (Pos.of_nat n).

Definition spec_suppressed (blocks : list Block) : Prop :=
  (0 < List.length (spec_contentIndices blocks))%nat /\
  Qlt (7 # 10) (spec_linkedFraction blocks).

(** ** Fetch results shared by the two crawlers *)

(** An entry of [data.allItemsInOrder]. *)
Record Item := mkItem {
  itemTitle : option jsstring;
  itemContent : option jsstring;
  itemImg : option jsstring;
  itemImage : option jsstring;
  itemAlt : option jsstring;
  itemLink : option jsstring
}.

(** The fields of [extractedData] that the coordinator reads; [pageData] is
    the property [data] and [allItemsInOrder] its array, either of which can
    be missing. *)
Record ExtractedData := mkExtracted {
  pageTitle : jsstring;
  totalItems : Z;
  totalWords : Z;
  pageData : option (option (list Item))
}.

(** The object a crawler returns; absent properties are [None].  The
    wall-clock field [processingTime] is left out. *)
Record CrawlResult := mkCrawlResult {
  success : bool;
  method : option string;
  statusCode : option Z;
  contentLength : option Z;
  extractedData : option ExtractedData;
  error : option string;
  shouldFallbackToBrowserHint : option bool
}.

(** ** Lightweight fetch: [NonBrowserCrawler] *)

Module NonBrowserCrawler.

Local Open Scope string_scope.

(** Error messages, header values and URLs are taken over the ASCII
    alphabet, as Stdlib strings. *)

(** [hay.includes(needle)] *)
Fixpoint includes (needle hay : string) : bool :=
  if String.prefix needle hay then true
  else match hay with
       | EmptyString => false
       | String _ hay' => includes needle hay'
       end.

Definition lowerAscii (a : ascii) : ascii :=
  let n := nat_of_ascii a in
  if (65 <=? n)%nat && (n <=? 90)%nat then ascii_of_nat (n + 32) else a.

(** [s.toLowerCase()] *)
Fixpoint toLowerCase (s : string) : string :=
  match s with
  | EmptyString => EmptyString
  | String a s' => String (lowerAscii a) (toLowerCase s')
  end.

(** The fields set by the constructor. *)
Definition timeout : Z := 30000.
Definition maxRetries : Z := 2.
Definition retryDelay : Z := 1000.

(** The request configuration passed to [axios.get] (headers left out). *)
Record AxiosConfig := mkConfig {
  cfgTimeout : Z;
  cfgMaxRedirects : Z;
  cfgValidateStatus : Z -> bool
}.

Definition validateStatus (status : Z) : bool :=
  (200 <=? status)%Z && (status <? 400)%Z.

Definition requestConfig : AxiosConfig := mkConfig timeout 5 validateStatus.

Record Response := mkResponse {
  status : Z;
  contentTypeHeader : option string;
  data : string
}.

(** How the promise of [axios.get] settles. *)
Inductive AxiosOutcome :=
| Resolved (response : Response)
| Rejected (message : string).

(** An asynchronous computation: it returns, or awaits [axios.get], or
    awaits a timer of [ms] milliseconds. *)
Inductive Prog (A : Type) : Type :=
| Ret (a : A)
| Get (url : string) (config : AxiosConfig) (k : AxiosOutcome -> Prog A)
| Sleep (ms : Z) (k : Prog A).
Arguments Ret {A} a.
Arguments Get {A} url config k.
Arguments Sleep {A} ms k.

Inductive Effect :=
| DidGet (url : string) (config : AxiosConfig)
| DidSleep (ms : Z).

(** Running a computation against a network that settles the [n]-th request
    (counted from 0) as [net n]: the value returned and the effects
    performed, in order. *)
Fixpoint run {A} (net : nat -> AxiosOutcome) (n : nat) (p : Prog A)
  : A * list Effect :=
  match p with
  | Ret a => (a, [])
  | Get url config k =>
      let '(a, t) := run net (S n) (k (net n)) in (a, DidGet url config :: t)
  | Sleep ms k =>
      let '(a, t) := run net n k in (a, DidSleep ms :: t)
  end.

(** [shouldFallbackToBrowser(error)], on [error.message]. *)
Definition shouldFallbackToBrowser (message : string) : bool :=
  let errorMessage := toLowerCase message in
  if includes "timeout" errorMessage || includes "empty" errorMessage ||
     includes "no content" errorMessage || includes "javascript" errorMessage
  then true
  else if includes "enotfound" errorMessage ||
          includes "econnrefused" errorMessage ||
          includes "certificate" errorMessage
  then false
  else if includes "403" errorMessage || includes "503" errorMessage ||
          includes "cloudflare" errorMessage
  then true
  else true.

Record Options := mkOptions { optMaxRetries : option Z }.

(** [options.maxRetries || this.maxRetries], for an integer option. *)
Definition chosenMaxRetries (options : Options) : Z :=
  match optMaxRetries options with
  | Some n => if (n =? 0)%Z then maxRetries else n
  | None => maxRetries
  end.

Section Crawl.

(** [extractStructuredContent(html, url)]: the markup-to-fragment
    extraction, which returns the extracted data or throws. *)
Variable extractStructuredContent : string -> string -> string + ExtractedData.

(** The [try] block of one attempt, once [axios.get] has settled: the result
    returned, or the message of the error thrown to [catch]. *)
Definition tryBlock (url : string) (outcome : AxiosOutcome)
  : string + CrawlResult :=
  match outcome with
  | Rejected message => inl message
  | Resolved response =>
      let contentType :=
        match contentTypeHeader response with
        | Some header => header
        | None => ""
        end in
      if negb (includes "text/html" contentType)
      then inl ("Non-HTML content type: " ++ contentType)
      else
        match extractStructuredContent (data response) url with
        | inl message => inl message
        | inr extracted =>
            inr (mkCrawlResult true (Some "non_browser")
                   (Some (status response))
                   (Some (Z.of_nat (String.length (data response))))
                   (Some extracted) None None)
        end
  end.

Definition failure (message : string) : CrawlResult :=
  mkCrawlResult false (Some "non_browser") None None None (Some message)
                (Some (shouldFallbackToBrowser message)).

(** [for (let attempt = ...; attempt <= maxRetries + 1; attempt++)] with
    [fuel] iterations left; falling out of the loop returns [undefined]. *)
Fixpoint attempts (url : string) (maxRetries : Z) (fuel : nat) (attempt : Z)
  : Prog (option CrawlResult) :=
  match fuel with
  | O => Ret None
  | S fuel' =>
      Get url requestConfig (fun outcome =>
        match tryBlock url outcome with
        | inr result => Ret (Some result)
        | inl message =>
            if (maxRetries <? attempt)%Z
            then Ret (Some (failure message))
            else if (attempt <=? maxRetries)%Z
                 then Sleep (retryDelay * attempt)
                        (attempts url maxRetries fuel' (attempt + 1))
                 else attempts url maxRetries fuel' (attempt + 1)
        end)
  end.

(** [crawlUrl(url, options = {})] *)
Definition crawlUrl (url : string) (options : Options)
  : Prog (option CrawlResult) :=
  let maxRetries := chosenMaxRetries options in
  attempts url maxRetries (Z.to_nat (maxRetries + 1)) 1.

End Crawl.

(** The effects of [n] attempts that are all made: a request each, and
    between two requests a timer of [retryDelay * attempt]. *)
Fixpoint spec_schedule (url : string) (n : nat) (attempt : Z) : list Effect :=
  match n with
  | O => []
  | S O => [DidGet url requestConfig]
  | S n' => DidGet url requestConfig :: DidSleep (retryDelay * attempt)
            :: spec_schedule url n' (attempt + 1)
  end.

(** The error classes of the spec, by the signatures looked for in the
    lower-cased message. *)
Definition mentionsAny (signatures : list string) (message : string) : bool :=
  existsb (fun signature => includes signature (toLowerCase message)) signatures.

Definition spec_escalating : list string :=
  ["timeout"; "empty"; "no content"; "javascript"].
Definition spec_networkLayer : list string :=
  ["enotfound"; "econnrefused"; "certificate"].
Definition spec_blocked : list string := ["403"; "503"; "cloudflare"].

Definition countGets (t : list Effect) : nat :=
  List.length (filter (fun e => match e with DidGet _ _ => true | _ => false end) t).

(** A JSON response and an HTML response. *)
Definition jsonResponse : Response :=
  mkResponse 200 (Some "application/json") "{}".
Definition htmlResponse : Response :=
  mkResponse 200 (Some "text/html; charset=utf-8") "<html></html>".

Definition noItems : ExtractedData := mkExtracted [] 0 0 (Some (Some [])).

(** An extraction that succeeds on every page, and the network on which
    every request is answered by the JSON response. *)
Definition extractNothing (html url : string) : string + ExtractedData :=
  inr noItems.
Definition alwaysJson (n : nat) : AxiosOutcome := Resolved jsonResponse.
Definition alwaysTimeout (n : nat) : AxiosOutcome :=
  Rejected "timeout of 30000ms exceeded".
Definition alwaysEnotfound (n : nat) : AxiosOutcome :=
  Rejected "getaddrinfo ENOTFOUND javascript.info".
Definition htmlOnThird (n : nat) : AxiosOutcome :=
  match n with
  | 2%nat => Resolved htmlResponse
  | _ => Rejected "socket hang up"
  end.

End NonBrowserCrawler.

(** ** Fetch Strategy Selector: [SmartCrawlerCoordinator] *)

Module Coordinator.

Local Open Scope string_scope.

(** [item.x || item.y] *)
Definition orElse (x y : option jsstring) : option jsstring :=
  if truthy x then x else y.

Definition keepTruthy (x : option jsstring) : option jsstring :=
  if truthy x then x else None.

(** The block built from one item, or [None] when the block has no key. *)
Definition simpleBlock (item : Item) : option Block :=
  let hasImage := truthy (itemImg item) || truthy (itemImage item) in
  let block :=
    mkBlock (keepTruthy (itemTitle item))
            (keepTruthy (itemContent item))
            (if hasImage then orElse (itemImg item) (itemImage item) else None)
            (if hasImage then keepTruthy (itemAlt item) else None)
            (keepTruthy (itemLink item)) in
  match title block, content block, image block, alt block, link block with
  | None, None, None, None, None => None
  | _, _, _, _, _ => Some block
  end.

Fixpoint simpleBlocks (items : list Item) : list Block :=
  match items with
  | [] => []
  | item :: rest =>
      match simpleBlock item with
      | Some block => block :: simpleBlocks rest
      | None => simpleBlocks rest
      end
  end.

(** [convertToSimpleBlocks(data)]; [None] is an exception raised by the
    content detection. *)
Definition convertToSimpleBlocks (data : option (option (list Item)))
  : option (list FilteredBlock) :=
  match data with
  | Some (Some allItemsInOrder) =>
      detectAndFilterMainContent (simpleBlocks allItemsInOrder)
  | _ => Some []
  end.

(** How the promise of a crawler's [crawlUrl] settles. *)
Inductive CallOutcome :=
| Returned (result : CrawlResult)
| Threw (message : string).

(** What the browser crawler resolves with: [title], [content],
    [wordCount] (each possibly missing), or a rejection. *)
Record BrowserPage := mkPage {
  browserTitle : option jsstring;
  browserContent : option jsstring;
  browserWordCount : option Z
}.

Inductive BrowserOutcome :=
| BrowserReturned (page : option BrowserPage)
| BrowserThrew (message : string).

(** An asynchronous computation of the coordinator: it returns, or awaits
    [nonBrowserCrawler.crawlUrl(url)], or awaits
    [browserCrawler.crawlUrl(url)]. *)
Inductive Call (A : Type) : Type :=
| Done (a : A)
| CallNonBrowser (url : string) (k : CallOutcome -> Call A)
| CallBrowser (url : string) (k : BrowserOutcome -> Call A).
Arguments Done {A} a.
Arguments CallNonBrowser {A} url k.
Arguments CallBrowser {A} url k.

Inductive Fetch :=
| NonBrowserFetch (url : string)
| BrowserFetch (url : string).

(** Running a computation against the two crawlers: the value returned and
    the fetches performed, in order. *)
Fixpoint runCall {A} (nonBrowser : string -> CallOutcome)
  (browser : string -> BrowserOutcome) (p : Call A) : A * list Fetch :=
  match p with
  | Done a => (a, [])
  | CallNonBrowser url k =>
      let '(a, t) := runCall nonBrowser browser (k (nonBrowser url)) in
      (a, NonBrowserFetch url :: t)
  | CallBrowser url k =>
      let '(a, t) := runCall nonBrowser browser (k (browser url)) in
      (a, BrowserFetch url :: t)
  end.

(** [await p] followed by [k]. *)
Fixpoint andThen {A B} (p : Call A) (k : A -> Call B) : Call B :=
  match p with
  | Done a => k a
  | CallNonBrowser url k' => CallNonBrowser url (fun o => andThen (k' o) k)
  | CallBrowser url k' => CallBrowser url (fun o => andThen (k' o) k)
  end.

(** The computation never awaits the browser crawler, however the
    non-browser crawler answers. *)
Inductive NoBrowserCall {A} : Call A -> Prop :=
| NoBrowser_Done a : NoBrowserCall (Done a)
| NoBrowser_NonBrowser url k :
    (forall outcome, NoBrowserCall (k outcome)) ->
    NoBrowserCall (CallNonBrowser url k).

(** The [extractedData] of a successful result of the coordinator (the
    [summary] text is left out). *)
Record Extraction := mkExtraction {
  exTitle : jsstring;
  exTotalItems : Z;
  exTotalWords : Z;
  exMainContentBlocks : Z;
  exMainContentWords : Z;
  contentDetectionApplied : bool;
  extractionMethod : option string;
  exBlocks : list Block
}.

(** The object [crawlUrl] of the coordinator returns ([processingTime] is
    left out). *)
Record Outcome := mkOutcome {
  outSuccess : bool;
  outUrl : string;
  outDomain : string;
  outMethod : option string;
  outData : option Extraction;
  outError : option string
}.

(** The message of the [TypeError] of reading [property] on [undefined]. *)
Definition typeErrorMessage (property : string) : string :=
  "Cannot read properties of undefined (reading '" ++ property ++ "')".

(** [executeNonBrowserCrawl(url)] *)
Definition executeNonBrowserCrawl (url : string) : Call CrawlResult :=
  CallNonBrowser url (fun outcome =>
    match outcome with
    | Returned result => Done result
    | Threw message =>
        Done (mkCrawlResult false (Some "non_browser") None None None
                (Some message) None)
    end).

(** [executeBrowserCrawl(url)] *)
Definition executeBrowserCrawl (url : string) : Call CrawlResult :=
  CallBrowser url (fun outcome =>
    let failed message :=
      mkCrawlResult false (Some "browser") None None None (Some message) None in
    match outcome with
    | BrowserThrew message => Done (failed message)
    | BrowserReturned None =>
        Done (failed "No data extracted from browser crawler")
    | BrowserReturned (Some page) =>
        if truthy (browserTitle page) then
          let wordCount :=
            match browserWordCount page with
            | Some n => n
            | None => 0%Z
            end in
          let title := match browserTitle page with Some t => t | None => [] end in
          Done (mkCrawlResult true (Some "browser") None None
                  (Some (mkExtracted title 1 wordCount
                           (Some (Some [mkItem (browserTitle page)
                                          (Some (match browserContent page with
                                                 | Some c => c
                                                 | None => []
                                                 end))
                                          None None None None]))))
                  None None)
        else Done (failed "No data extracted from browser crawler")
    end).

Definition wordsOfKept (kept : FilteredBlock) : Z :=
  let block := block_of kept in
  let text :=
    if truthy (content block) then content block
    else if truthy (title block) then title block
    else Some [] in
  countWords text.

Section CrawlUrl.

(** [new URL(url).hostname.toLowerCase()], or [None] when [new URL] throws. *)
Variable hostnameOf : string -> option string.

(** [extractDomainName(url)]: the domain, or the error thrown. *)
Definition extractDomainName (url : string) : string + string :=
  match hostnameOf url with
  | Some hostname => inr hostname
  | None => inl ("Invalid URL: " ++ url)
  end.

(** The part of [crawlUrl] after [executeNonBrowserCrawl] has settled.  A
    successful result without [extractedData] makes the read of its [data]
    throw; an exception out of the content detection would come from the
    pruner's read of [block.content]. *)
Definition finish (url domain : string) (crawlResult : CrawlResult) : Outcome :=
  let finalMethod := Some "non_browser" in
  let internalError message :=
    mkOutcome false url domain None None (Some message) in
  if success crawlResult then
    match extractedData crawlResult with
    | None => internalError (typeErrorMessage "data")
    | Some extracted =>
        match convertToSimpleBlocks (pageData extracted) with
        | None => internalError (typeErrorMessage "content")
        | Some processedBlocks =>
            let mainContentBlocks := filter isMainContent processedBlocks in
            let mainContentWords :=
              fold_left (fun sum kept => (sum + wordsOfKept kept)%Z)
                        mainContentBlocks 0%Z in
            let cleanBlocks := map block_of processedBlocks in
            mkOutcome true url domain finalMethod
              (Some (mkExtraction (pageTitle extracted)
                       (totalItems extracted)
                       (totalWords extracted)
                       (Z.of_nat (List.length mainContentBlocks))
                       mainContentWords true finalMethod cleanBlocks))
              None
        end
    end
  else mkOutcome false url domain finalMethod None (error crawlResult).

(** [crawlUrl(url, options = {})]: the error thrown by [extractDomainName]
    before the [try] block, or the object returned. *)
Definition crawlUrl (url : string) : Call (string + Outcome) :=
  match extractDomainName url with
  | inl message => Done (inl message)
  | inr domain =>
      andThen (executeNonBrowserCrawl url) (fun crawlResult =>
        Done (inr (finish url domain crawlResult)))
  end.

End CrawlUrl.

(** A failed result of the non-browser crawler with the given hint. *)
Definition failedWithHint (hint : option bool) : CrawlResult :=
  mkCrawlResult false (Some "non_browser") None None None
    (Some "timeout of 30000ms exceeded") hint.

Definition setHint (result : CrawlResult) (hint : option bool) : CrawlResult :=
  mkCrawlResult (success result) (method result) (statusCode result)
    (contentLength result) (extractedData result) (error result) hint.

(** The answer of the non-browser crawler with its hint replaced. *)
Definition withHint (hint : option bool) (outcome : CallOutcome) : CallOutcome :=
  match outcome with
  | Returned result => Returned (setHint result hint)
  | Threw message => Threw message
  end.

(** Sample crawlers: a URL parser that accepts everything, a non-browser
    crawler that fails with the hint set, and a browser crawler. *)
Definition anyHost (url : string) : option string := Some "example.com".
Definition failingNonBrowser (url : string) : CallOutcome :=
  Returned (failedWithHint (Some true)).
Definition sampleItems : list Item :=
  [mkItem (Some (lit "Intro")) None None None None None;
   mkItem None (Some (nWords 20)) None None None None;
   mkItem None (Some (lit "short")) None None None (Some (lit "/x"))].
Definition succeedingNonBrowser (url : string) : CallOutcome :=
  Returned (mkCrawlResult true (Some "non_browser") (Some 200%Z) (Some 13%Z)
              (Some (mkExtracted (lit "Page") 3 22 (Some (Some sampleItems))))
              None None).
Definition someBrowser (url : string) : BrowserOutcome :=
  BrowserReturned (Some (mkPage (Some (lit "Page")) None None)).

End Coordinator.

(** ** Sample blocks and sequences *)

Definition titleBlock : Block :=
  mkBlock (Some (lit "Intro")) None None None None.

Definition shortLinkBlock : Block :=
  mkBlock None (Some (lit "short")) None None (Some (lit "/x")).

Definition shortBlock : Block :=
  mkBlock None (Some (lit "short")) None None None.

(** A block whose only payload is a content of [n] words. *)
Definition contentBlock (n : nat) : Block :=
  mkBlock None (Some (nWords n)) None None None.

(** A content of [n] words that carries a link. *)
Definition linkedContentBlock (n : nat) : Block :=
  mkBlock None (Some (nWords n)) None None (Some (lit "/x")).

(** Twelve short blocks, a title at index 12, thirty short blocks. *)
Definition titleAt12 : list Block :=
  repeat shortBlock 12 ++ [titleBlock] ++ repeat shortBlock 30.

(** Content-bearing blocks exactly at the indices 5 and 14. *)
Definition validAt5And14 : list Block :=
  repeat shortBlock 5 ++ [titleBlock] ++ repeat shortBlock 8 ++
  [contentBlock 15] ++ repeat shortBlock 20.

(** ** Predicates used in the statements *)

(** A region lies inside the block array and is not empty. *)
Definition regionInBounds (blocks : list Block) (r : Region) : Prop :=
  0 <= start r /\ start r <= end_ r /\ end_ r <= len blocks - 1.

(** Each region starts after all the regions listed before it have ended. *)
Definition regionsOrdered (rs : list Region) : Prop :=
  ForallOrdPairs (fun r1 r2 => end_ r1 < start r2) rs.

(** What holds of the loop variables of [detectContentRegions] before the
    iteration at index [i]. *)
Definition detectInv (blocks : list Block) (i : Z) (st : DetectState) : Prop :=
  Forall (fun r => regionInBounds blocks r /\ end_ r < i) (regions st) /\
  regionsOrdered (regions st) /\
  match currentRegion st with
  | None => True
  | Some r =>
      Forall (fun r' => end_ r' < start r) (regions st) /\
      0 <= start r /\ start r < i /\ i <= end_ r /\ end_ r <= len blocks - 1 /\
      1 <= extendRange r /\
      start r <= lastValidContentIndex r <= end_ r /\
      (forall k, lastValidContentIndex r < k < i -> validAt blocks k = false)
  end.

(** The block at index [i] is a link pair: it passes the five-word test and
    has a link of its own or in one of the next three blocks. *)
Definition isPairAt (blocks : list Block) (i : Z) : bool :=
  match blockGet blocks i with
  | Some block => isValidContentForPattern block && foundAssociatedLink blocks i block
  | None => false
  end.

(** A run of [requiredConsecutive] link pairs, all at or after [from], ends
    at index [i]: there the counter of consecutive pairs reaches 15. *)
Definition denseRunAt (blocks : list Block) (from i : Z) : bool :=
  (from <=? i - 14) && forallb (isPairAt blocks) (zrange (i - 14) i).

(** The first index of the region at which the counter reaches 15. *)
Definition firstDenseRun (blocks : list Block) (region : Region) : option Z :=
  find (denseRunAt blocks (start region)) (zrange (start region) (end_ region)).

(** The number of link pairs among the blocks at indices [lo] to [hi]. *)
Definition pairsIn (blocks : list Block) (lo hi : Z) : Z :=
  Z.of_nat (List.length (filter (isPairAt blocks) (zrange lo hi))).

(** The scan of the region reads no index outside the block array. *)
Definition insideArray (blocks : list Block) (region : Region) : Prop :=
  0 <= start region /\ end_ region <= len blocks - 1.

(** What the pruner pushes for one region: the region cut before the first
    run of 15 link pairs, the region as it is when there is no such run, and
    nothing for a region whose end is below its start. *)
Definition spec_pruned (blocks : list Block) (region : Region)
  : list FinalRegion :=
  match firstDenseRun blocks region with
  | Some i =>
      [mkFinal (start region) (i - 14) (reason region) (isFirstRegion region)
               true (pairsIn blocks (start region) i)]
  | None =>
      if start region <=? end_ region
      then [mkFinal (start region) (end_ region) (reason region)
                    (isFirstRegion region) false
                    (pairsIn blocks (start region) (end_ region))]
      else []
  end.

(** Fifteen content-bearing blocks that each carry a link, and fourteen. *)
Definition fifteenPairs : list Block := repeat (linkedContentBlock 15) 15.
Definition fourteenPairs : list Block := repeat (linkedContentBlock 15) 14.

(** Ten short contents of which the first seven carry a link: a linked
    fraction of exactly 7/10; and eight of eleven. *)
Definition sevenOfTen : list Block :=
  repeat shortLinkBlock 7 ++ repeat shortBlock 3.
Definition eightOfEleven : list Block :=
  repeat shortLinkBlock 8 ++ repeat shortBlock 3.

(** The first region that was opened, pushed already or still open, starts
    at [i] and has window [w]. *)
Definition firstOpened (i w : Z) (st : DetectState) : Prop :=
  match regions st with
  | r :: _ => start r = i /\ extendRange r = w
  | [] =>
      match currentRegion st with
      | Some r => start r = i /\ extendRange r = w
      | None => False
      end
  end.

(** Every region, pushed or open, has window [w]. *)
Definition allWindows (w : Z) (st : DetectState) : Prop :=
  Forall (fun r => extendRange r = w) (regions st) /\
  (forall r, currentRegion st = Some r -> extendRange r = w).

(** A pruned region lies inside the block array. *)
Definition finalInBounds (blocks : list Block) (f : FinalRegion) : Prop :=
  0 <= fstart f /\ fstart f <= fend f /\ fend f <= len blocks - 1.

(** ** Predicates on the detector's regions *)

(** The regions seen so far by the main loop, in the order they were
    opened: the pushed ones, then the open one. *)
Definition allRegions (st : DetectState) : list Region :=
  regions st ++ match currentRegion st with Some r => [r] | None => [] end.

(** What is fixed when a region opens: its start, its first-region flag,
    its window and its reason. *)
Definition opening (r : Region) : Z * bool * Z * Reason :=
  (start r, isFirstRegion r, extendRange r, reason r).

(** The reason recorded for a region that opens at index [i]. *)
Definition reasonAt (blocks : list Block) (i : Z) : Reason :=
  if truthyTrim (title (blockAt blocks i)) then title_start else content_start.

(** The index [k] lies in one of the regions. *)
Definition covered (rs : list Region) (k : Z) : Prop :=
  exists r, In r rs /\ start r <= k <= end_ r.

(** A finished region: it starts at a content-bearing block, its
    [lastValidContentIndex] is its last content-bearing block, it ends
    [extendRange - 1] blocks after that one, or at the end of the array, and
    none of the ten blocks after that one is content-bearing. *)
Definition closedShape (blocks : list Block) (r : Region) : Prop :=
  validAt blocks (start r) = true /\
  validAt blocks (lastValidContentIndex r) = true /\
  start r <= lastValidContentIndex r <= end_ r /\
  end_ r = Z.min (lastValidContentIndex r + extendRange r - 1) (len blocks - 1) /\
  (forall k, lastValidContentIndex r < k <= end_ r -> validAt blocks k = false) /\
  (forall k, lastValidContentIndex r < k <= lastValidContentIndex r + 10 ->
             validAt blocks k = false).

(** The open region before the iteration at index [i]. *)
Definition openShape (blocks : list Block) (i : Z) (r : Region) : Prop :=
  validAt blocks (start r) = true /\
  validAt blocks (lastValidContentIndex r) = true /\
  start r <= lastValidContentIndex r /\
  end_ r = Z.min (lastValidContentIndex r + extendRange r - 1) (len blocks - 1) /\
  (forall k, lastValidContentIndex r < k < i -> validAt blocks k = false) /\
  (forall k, i <= k < lastValidContentIndex r -> validAt blocks k = false).

Definition detectGeom (blocks : list Block) (i : Z) (st : DetectState) : Prop :=
  Forall (closedShape blocks) (regions st) /\
  (forall r, currentRegion st = Some r -> openShape blocks i r) /\
  (forall k, 0 <= k < i -> validAt blocks k = true -> covered (allRegions st) k).

(** The openings of a run: the first region has the first-region flag, the
    later ones have not and have window 10; window 20 needs a first region
    and no content-bearing block among the first ten; every region starts
    at a content-bearing block, with the reason of that block. *)
Definition openingsOk (blocks : list Block) (hf : bool)
  (l : list (Z * bool * Z * Reason)) : Prop :=
  Forall (fun o => let '(s, first, w, why) := o in
                   validAt blocks s = true /\ why = reasonAt blocks s /\
                   w = (if first && negb hf then 20 else 10)) l /\
  match l with
  | [] => True
  | (_, first, _, _) :: rest =>
      first = true /\
      Forall (fun o => let '(_, first', _, _) := o in first' = false) rest
  end.

(** ** The pruned regions and the kept blocks, in closed form *)

(** What the pruner may do to a region: keep its start, reason and flag,
    and move its end back; the flag [linkPatternDetected] tells that it did. *)
Definition prunedFrom (r : Region) (f : FinalRegion) : Prop :=
  fstart f = start r /\ start r <= fend f <= end_ r /\
  freason f = reason r /\ fisFirstRegion f = isFirstRegion r /\
  (linkPatternDetected f = true <-> fend f < end_ r).

(** The block at index [i] passes the Block Filter. *)
Definition passes (blocks : list Block) (i : Z) : bool :=
  shouldIncludeBlock (blockAt blocks i).

(** The entry pushed for the block at index [i] of the region [f]. *)
Definition keptAt (blocks : list Block) (f : FinalRegion) (i : Z)
  : FilteredBlock :=
  mkFiltered (blockAt blocks i) (of_region (freason f)) i true
             (Some (fisFirstRegion f)) (metaWordCount (blockAt blocks i)).

(** The blocks of the regions that pass the Block Filter, region by region
    and in index order. *)
Definition spec_keptInRegions (blocks : list Block) (fs : list FinalRegion)
  : list FilteredBlock :=
  flat_map (fun f => map (keptAt blocks f)
                         (filter (passes blocks) (zrange (fstart f) (fend f))))
           fs.

Definition finalsOrdered (fs : list FinalRegion) : Prop :=
  ForallOrdPairs (fun f1 f2 => fend f1 < fstart f2) fs.

(** ** Text helpers of the crawler and of its caller *)

(** [s.replace(/\s+/g, ' ')]: every maximal run of white space becomes one
    space (code unit 32); [inGap] tells that the previous code unit was white
    space. *)
Fixpoint collapseWs (inGap : bool) (s : jsstring) : jsstring :=
  match s with
  | [] => []
  | c :: s' =>
      if isWhiteSpace c
      then if inGap then collapseWs true s' else 32%N :: collapseWs true s'
      else c :: collapseWs false s'
  end.

(** [cleanText(text)] of the non-browser crawler. *)
Definition cleanText (text : option jsstring) : jsstring :=
  match text with
  | None => []
  | Some t => if isEmpty t then [] else collapseWs false (trim t)
  end.

(** White space occurs only as single spaces (code unit 32). *)
Fixpoint singleSpaced (afterWs : bool) (s : jsstring) : bool :=
  match s with
  | [] => true
  | c :: s' =>
      if isWhiteSpace c
      then (c =? 32)%N && negb afterWs && singleSpaced true s'
      else singleSpaced false s'
  end.

(** The class [[A-Za-z0-9_-]] of [sanitizeRequestId]. *)
Definition isSafeIdChar (c : N) : bool :=
  (((65 <=? c) && (c <=? 90)) || ((97 <=? c) && (c <=? 122)) ||
   ((48 <=? c) && (c <=? 57)) || (c =? 95) || (c =? 45))%N.

(** [sanitizeRequestId(requestId)] of the API server, for a [requestId] that
    is absent or a string: the sanitized id, or the message of the error
    thrown. *)
Definition sanitizeRequestId (requestId : option jsstring) : string + jsstring :=
  match requestId with
  | None => inl "Invalid requestId: must be a non-empty string"%string
  | Some s =>
      if isEmpty s
      then inl "Invalid requestId: must be a non-empty string"%string
      else
        let sanitized :=
          map (fun c => if isSafeIdChar c then c else 95%N) (trim s) in
        if (Z.of_nat (List.length sanitized) =? 0)
        then inl "Invalid requestId: results in empty string after sanitization"%string
        else inr sanitized
  end.

(** A property of a block is absent or a non-empty string. *)
Definition absentOrNonEmpty (x : option jsstring) : Prop :=
  x = None \/ truthy x = true.

(** A block as [convertToSimpleBlocks] builds it: at least one property,
    no empty string, and [alt] only beside an image. *)
Definition wellFormedBlock (b : Block) : Prop :=
  (title b <> None \/ content b <> None \/ image b <> None \/ link b <> None) /\
  absentOrNonEmpty (title b) /\ absentOrNonEmpty (content b) /\
  absentOrNonEmpty (image b) /\ absentOrNonEmpty (alt b) /\
  absentOrNonEmpty (link b) /\
  (alt b <> None -> image b <> None).

(** Three short contents without any link, and an image between two short
    contents. *)
Definition noLinks : list Block := repeat shortBlock 3.
Definition imageBlock : Block :=
  mkBlock None None (Some (lit "/a.png")) (Some (lit "a")) None.
Definition imageAmongShort : list Block := [shortBlock; imageBlock; shortBlock].

(** Two copies of an image among short contents, and what the pipeline
    keeps of them: the images at positions 1 and 3, ranked 0 and 1. *)
Definition imagesAmongShort : list Block :=
  [shortBlock; imageBlock; shortBlock; imageBlock].
Definition twoImagesKept : list FilteredBlock :=
  [mkFiltered imageBlock no_region_filter 0 true None 0;
   mkFiltered imageBlock no_region_filter 1 true None 0].

(** ** Batches *)

Module NonBrowserBatch.
Import NonBrowserCrawler.

(** [await p] followed by [k]. *)
Fixpoint bind {A B} (p : Prog A) (k : A -> Prog B) : Prog B :=
  match p with
  | Ret a => k a
  | Get url config k' => Get url config (fun outcome => bind (k' outcome) k)
  | Sleep ms k' => Sleep ms (bind k' k)
  end.

(** The [options] of [crawlUrls]: the same object is read for [delay] and
    handed on to [crawlUrl], which reads [maxRetries]. *)
Record BatchOptions := mkBatchOptions {
  optDelay : option Z;
  batchMaxRetries : option Z
}.

(** [options.delay || 1000] *)
Definition chosenDelay (options : BatchOptions) : Z :=
  match optDelay options with
  | Some d => if d =? 0 then 1000 else d
  | None => 1000
  end.

(** The milliseconds waited, all timers together. *)
Definition totalSleep (t : list Effect) : Z :=
  fold_right (fun e acc => match e with DidSleep ms => ms + acc | _ => acc end) 0 t.

Section Batch.

Variable extractStructuredContent : string -> string -> string + ExtractedData.

(** The loop of [crawlUrls] on the URLs that are left; an entry is
    [{ url, ...result }], where [result] may be [undefined]. *)
Fixpoint crawlUrlsLoop (options : BatchOptions) (urls : list string)
  (results : list (string * option CrawlResult))
  : Prog (list (string * option CrawlResult)) :=
  match urls with
  | [] => Ret results
  | url :: rest =>
      bind (crawlUrl extractStructuredContent url
              (mkOptions (batchMaxRetries options)))
           (fun result =>
              let results' := results ++ [(url, result)] in
              match rest with
              | [] => crawlUrlsLoop options rest results'
              | _ :: _ =>
                  Sleep (chosenDelay options)
                        (crawlUrlsLoop options rest results')
              end)
  end.

(** [crawlUrls(urls, options = {})] of the non-browser crawler. *)
Definition crawlUrls (urls : list string) (options : BatchOptions)
  : Prog (list (string * option CrawlResult)) :=
  crawlUrlsLoop options urls [].

End Batch.

(** The effects of a batch in which the crawl of each URL made the given
    number of attempts: the retry schedule of each URL, and a timer of
    [delay] between two URLs. *)
Fixpoint spec_batchTrace (delay : Z) (crawls : list (string * nat))
  : list Effect :=
  match crawls with
  | [] => []
  | (url, n) :: rest =>
      spec_schedule url n 1 ++
      match rest with
      | [] => []
      | _ :: _ => DidSleep delay :: spec_batchTrace delay rest
      end
  end.

(** Three URLs. *)
Definition threeUrls : list string :=
  ["http://a.example/"; "http://b.example/"; "http://c.example/"]%string.

End NonBrowserBatch.

Module CoordinatorBatch.
Import Coordinator.

(** An entry of [results]: the object returned by [crawlUrl], or the object
    pushed by the [catch] block, [{ success: false, url, error }]. *)
Inductive Entry :=
| Crawled (out : Outcome)
| Caught (url message : string).

Definition entrySuccess (e : Entry) : bool :=
  match e with Crawled out => outSuccess out | Caught _ _ => false end.

Definition entryUrl (e : Entry) : string :=
  match e with Crawled out => outUrl out | Caught url _ => url end.

Definition entryMethod (e : Entry) : option string :=
  match e with Crawled out => outMethod out | Caught _ _ => None end.

Record BatchResult := mkBatchResult {
  batchSuccess : bool;
  totalUrls : Z;
  successfulUrls : Z;
  failedUrls : Z;
  batchResults : list Entry
}.

(** An asynchronous computation of the batch: it returns, or awaits
    [this.crawlUrl(url, options)], which settles with the error thrown or
    the object returned, or awaits a timer. *)
Inductive Batch (A : Type) : Type :=
| BDone (a : A)
| BCrawl (url : string) (k : string + Outcome -> Batch A)
| BWait (ms : Z) (k : Batch A).
Arguments BDone {A} a.
Arguments BCrawl {A} url k.
Arguments BWait {A} ms k.

Inductive BatchEffect :=
| DidCrawl (url : string)
| DidWait (ms : Z).

Fixpoint runBatch {A} (crawl : string -> string + Outcome) (p : Batch A)
  : A * list BatchEffect :=
  match p with
  | BDone a => (a, [])
  | BCrawl url k =>
      let '(a, t) := runBatch crawl (k (crawl url)) in (a, DidCrawl url :: t)
  | BWait ms k =>
      let '(a, t) := runBatch crawl k in (a, DidWait ms :: t)
  end.

(** [options.delay || 2000] *)
Definition chosenDelay (optDelay : option Z) : Z :=
  match optDelay with
  | Some d => if d =? 0 then 2000 else d
  | None => 2000
  end.

Definition summarize (urls : list string) (results : list Entry) : BatchResult :=
  let successCount := Z.of_nat (List.length (filter entrySuccess results)) in
  mkBatchResult true (Z.of_nat (List.length urls)) successCount
    (Z.of_nat (List.length urls) - successCount) results.

(** The loop of [crawlUrls] on the URLs that are left. *)
Fixpoint crawlUrlsLoop (delay : Z) (all urls : list string)
  (results : list Entry) : Batch BatchResult :=
  match urls with
  | [] => BDone (summarize all results)
  | url :: rest =>
      BCrawl url (fun settled =>
        let results' :=
          results ++ [match settled with
                      | inr out => Crawled out
                      | inl message => Caught url message
                      end] in
        match rest with
        | _ :: _ =>
            if 0 <? delay
            then BWait delay (crawlUrlsLoop delay all rest results')
            else crawlUrlsLoop delay all rest results'
        | [] => crawlUrlsLoop delay all rest results'
        end)
  end.

(** [crawlUrls(urls, options = {})] of the coordinator. *)
Definition crawlUrls (urls : list string) (optDelay : option Z)
  : Batch BatchResult :=
  crawlUrlsLoop (chosenDelay optDelay) urls urls [].

(** [this.crawlUrl] run against the two crawlers. *)
Definition crawlWith (hostnameOf : string -> option string)
  (nonBrowser : string -> CallOutcome) (browser : string -> BrowserOutcome)
  (url : string) : string + Outcome :=
  fst (runCall nonBrowser browser (crawlUrl hostnameOf url)).

(** The effects of a batch over [urls] with a positive [delay]: a crawl per
    URL, and a wait between two crawls. *)
Fixpoint spec_batchEffects (delay : Z) (urls : list string) : list BatchEffect :=
  match urls with
  | [] => []
  | [url] => [DidCrawl url]
  | url :: rest => DidCrawl url :: DidWait delay :: spec_batchEffects delay rest
  end.

(** The [summary] object that the route [/api/smart-crawl] computes from
    the results of [crawlUrls]. *)
Record Summary := mkSummary {
  total : Z;
  successful : Z;
  failed : Z;
  nonBrowserSuccesses : Z;
  browserSuccesses : Z
}.

Definition countZ (p : Entry -> bool) (l : list Entry) : Z :=
  Z.of_nat (List.length (filter p l)).

Definition smartCrawlSummary (crawlResults : list Entry) : Summary :=
  let successCount := countZ entrySuccess crawlResults in
  mkSummary (Z.of_nat (List.length crawlResults)) successCount
    (Z.of_nat (List.length crawlResults) - successCount)
    (countZ (fun r => entrySuccess r &&
                      match entryMethod r with
                      | Some m => String.eqb m "non_browser"
                      | None => false
                      end) crawlResults)
    (countZ (fun r => entrySuccess r &&
                      match entryMethod r with
                      | Some m => negb (String.eqb m "") &&
                                  NonBrowserCrawler.includes "browser" m
                      | None => false
                      end) crawlResults).

Definition entryOf (crawl : string -> string + Outcome) (url : string) : Entry :=
  match crawl url with
  | inr out => Crawled out
  | inl message => Caught url message
  end.

(** A URL parser that rejects the URLs without a colon. *)
Definition colonHost (url : string) : option string :=
  if NonBrowserCrawler.includes ":" url then Some "example.com"%string else None.

End CoordinatorBatch.
(** * Properties *)

(** ** Words and trimming *)

Lemma trimStart_blank s :
  trimStart s = [] <-> forallb isWhiteSpace s = true.
Proof.
  induction s as [|c s IH]; simpl; [tauto|].
  destruct (isWhiteSpace c); simpl; [exact IH|].
  split; discriminate.
Qed.

Lemma trimEnd_blank s :
  trimEnd s = [] <-> forallb isWhiteSpace s = true.
Proof.
  induction s as [|c s IH]; simpl; [tauto|].
  destruct (trimEnd s) eqn:E.
  - destruct (isWhiteSpace c); simpl.
    + split; [intros _; apply IH; reflexivity | reflexivity].
    + split; discriminate.
  - split; [discriminate|].
    rewrite andb_true_iff. intros [_ H]. apply IH in H. discriminate.
Qed.

Lemma trimStart_suffix s : exists p, s = p ++ trimStart s /\ forallb isWhiteSpace p = true.
Proof.
  induction s as [|c s [p [E B]]]; simpl.
  - exists []. auto.
  - destruct (isWhiteSpace c) eqn:W.
    + exists (c :: p). simpl. rewrite W, B. split; [f_equal; exact E | reflexivity].
    + exists []. auto.
Qed.

Lemma trim_blank s : trim s = [] <-> forallb isWhiteSpace s = true.
Proof.
  unfold trim. rewrite trimEnd_blank.
  destruct (trimStart_suffix s) as [p [E B]].
  split; intros H.
  - rewrite E, forallb_app, B, H. reflexivity.
  - rewrite E, forallb_app in H. apply andb_true_iff in H. tauto.
Qed.

(** A string is non-empty after trimming exactly when it holds a code unit
    that is not white space. *)
Lemma trim_nonempty_iff s :
  trim s <> [] <-> Exists (fun c => isWhiteSpace c = false) s.
Proof.
  rewrite trim_blank. rewrite Exists_exists. split.
  - intros H. induction s as [|c s IH]; simpl in H; [congruence|].
    destruct (isWhiteSpace c) eqn:W.
    + destruct IH as [x [I Hx]]; [exact H|]. exists x. simpl. auto.
    + exists c. simpl. auto.
  - intros [x [I Hx]] H. rewrite forallb_forall in H. rewrite (H x I) in Hx.
    discriminate.
Qed.

Lemma wordStarts_trimStart s : wordStarts true (trimStart s) = wordStarts true s.
Proof.
  induction s as [|c s IH]; simpl; [reflexivity|].
  destruct (isWhiteSpace c) eqn:W; simpl; [exact IH | rewrite W; reflexivity].
Qed.

Lemma wordStarts_blank b s :
  forallb isWhiteSpace s = true -> wordStarts b s = O.
Proof.
  revert b. induction s as [|c s IH]; simpl; intros b H; [reflexivity|].
  apply andb_true_iff in H. destruct H as [W H]. rewrite W. auto.
Qed.

Lemma wordStarts_trimEnd b s : wordStarts b (trimEnd s) = wordStarts b s.
Proof.
  revert b. induction s as [|c s IH]; intros b; simpl; [reflexivity|].
  destruct (trimEnd s) as [|d t] eqn:E.
  - apply trimEnd_blank in E.
    destruct (isWhiteSpace c) eqn:W; simpl; rewrite ?W.
    + symmetry. apply wordStarts_blank. exact E.
    + rewrite (wordStarts_blank _ _ E). reflexivity.
  - change (wordStarts b (c :: d :: t)) with
      (if isWhiteSpace c then wordStarts true (d :: t)
       else ((if b then 1 else 0) + wordStarts false (d :: t))%nat).
    rewrite <- !IH. reflexivity.
Qed.

Lemma wordStarts_trim s : wordStarts true (trim s) = wordStarts true s.
Proof. unfold trim. rewrite wordStarts_trimEnd. apply wordStarts_trimStart. Qed.

Lemma nonEmptyPiece_rev x cur : nonEmptyPiece (rev (x :: cur)) = true.
Proof.
  unfold nonEmptyPiece. rewrite length_rev. reflexivity.
Qed.

Lemma splitWs_count s :
  (forall g, List.length (filter nonEmptyPiece (splitWs [] g s)) = wordStarts true s) /\
  (forall x cur, List.length (filter nonEmptyPiece (splitWs (x :: cur) false s))
                 = S (wordStarts false s)).
Proof.
  induction s as [|c s [IH1 IH2]]; cbn [splitWs wordStarts].
  - split; [reflexivity|]. intros x cur. cbn [filter].
    rewrite nonEmptyPiece_rev. reflexivity.
  - destruct (isWhiteSpace c) eqn:W; split.
    + intros [|]; cbn [filter rev nonEmptyPiece]; apply IH1.
    + intros x cur. cbn [filter]. rewrite nonEmptyPiece_rev.
      cbn [List.length]. rewrite IH1. reflexivity.
    + intros g. apply IH2.
    + intros x cur. apply IH2.
Qed.

(** [countWords] computes the number of white-space separated words. *)
Lemma countWords_spec s : countWords (Some s) = spec_wordCount s.
Proof.
  unfold countWords, spec_wordCount.
  destruct s as [|c s]; [reflexivity|].
  cbn [isEmpty]. cbv zeta.
  rewrite <- (wordStarts_trim (c :: s)).
  destruct (trim (c :: s)) as [|d t] eqn:E; [reflexivity|].
  cbn [isEmpty]. unfold split.
  pose proof (proj1 (splitWs_count (d :: t)) false) as H.
  f_equal. exact H.
Qed.

(** ** The content-bearing test and the Block Filter *)

Lemma truthyTrim_iff x :
  truthyTrim x = true <-> exists s, x = Some s /\ trim s <> [].
Proof.
  destruct x as [s|]; simpl.
  - split.
    + intros H. exists s. split; [reflexivity|].
      apply andb_true_iff in H. destruct H as [_ H].
      destruct (trim s); [discriminate | congruence].
    + intros [s' [E H]]. injection E as <-.
      destruct s as [|c s]; [elim H; reflexivity|].
      destruct (trim (c :: s)); [congruence | reflexivity].
  - split; [discriminate | intros [s [E _]]; discriminate].
Qed.

Lemma truthyTrim_false_iff x :
  truthyTrim x = false <-> forall s, x = Some s -> trim s = [].
Proof.
  split.
  - intros H s E. destruct (trim s) eqn:T; [reflexivity|].
    assert (truthyTrim x = true) by (apply truthyTrim_iff; exists s; split; congruence).
    congruence.
  - intros H. destruct (truthyTrim x) eqn:T; [|reflexivity].
    apply truthyTrim_iff in T. destruct T as [s [E N]]. elim N. auto.
Qed.

Lemma words_nonblank s : 0 < spec_wordCount s -> trim s <> [].
Proof.
  unfold spec_wordCount. intros H E. apply trim_blank in E.
  rewrite (wordStarts_blank _ _ E) in H. simpl in H. lia.
Qed.

(** The word test on a content property: [hasContent && countWords >= n]. *)
Lemma content_words_iff x n :
  0 < n ->
  (truthyTrim x && (n <=? (if truthyTrim x then countWords x else 0)) = true
   <-> exists c, x = Some c /\ trim c <> [] /\ n <= spec_wordCount c).
Proof.
  intros Hn. split.
  - intros H. apply andb_true_iff in H. destruct H as [T H].
    rewrite T in H. apply truthyTrim_iff in T. destruct T as [c [E N]].
    subst x. rewrite countWords_spec in H. exists c.
    repeat split; [exact N | lia].
  - intros [c [E [N W]]]. subst x.
    assert (T : truthyTrim (Some c) = true)
      by (apply truthyTrim_iff; exists c; auto).
    rewrite T, countWords_spec. simpl. lia.
Qed.

(** C1. A block passes the content-bearing test of the Content Region
    Detector exactly when it has a title that is non-empty after trimming,
    or a content that is non-empty after trimming and has at least 15
    white-space separated words; so a block without such a title whose
    content has 5 to 14 words is not content-bearing. *)
Theorem content_bearing_iff (block : Block) :
  (isValidContentStart block = true <->
     (exists t, title block = Some t /\ trim t <> []) \/
     (exists c, content block = Some c /\ trim c <> [] /\
                15 <= spec_wordCount c)) /\
  (forall c, title block = None -> content block = Some c ->
             5 <= spec_wordCount c <= 14 ->
             isValidContentStart block = false).
Proof.
  assert (M : isValidContentStart block = true <->
     (exists t, title block = Some t /\ trim t <> []) \/
     (exists c, content block = Some c /\ trim c <> [] /\
                15 <= spec_wordCount c)).
  { unfold isValidContentStart. cbv zeta. rewrite orb_true_iff.
    rewrite truthyTrim_iff. rewrite content_words_iff by lia. reflexivity. }
  split; [exact M|].
  intros c Ht Hc Hw.
  apply not_true_is_false. intros V.
  apply (proj1 M) in V. destruct V as [[t [E _]] | [c' [E [_ W]]]].
  - congruence.
  - assert (c' = c) by congruence. subst c'. lia.
Qed.

Lemma content_bearing_iff_witness :
  isValidContentStart (mkBlock None (Some (nWords 14)) None None None) = false.
Proof.
  apply (proj2 (content_bearing_iff
                  (mkBlock None (Some (nWords 14)) None None None))
               (nWords 14)).
  - reflexivity.
  - reflexivity.
  - vm_compute. split; discriminate.
Defined.

(** C5. The Block Filter keeps a block exactly when it has a non-empty
    title, or a non-empty image, or a content of at least 20 words
    (non-empty meaning non-empty after trimming).  A block with only a
    content of exactly 20 words is kept, with 19 words it is dropped, and a
    block that carries only a link is dropped. *)
Theorem shouldIncludeBlock_iff (block : Block) :
  (shouldIncludeBlock block = true <->
     (exists t, title block = Some t /\ trim t <> []) \/
     (exists m, image block = Some m /\ trim m <> []) \/
     (exists c, content block = Some c /\ 20 <= spec_wordCount c)) /\
  (forall c, content block = Some c -> spec_wordCount c = 20 ->
             shouldIncludeBlock block = true) /\
  (forall c, title block = None -> image block = None ->
             content block = Some c -> spec_wordCount c = 19 ->
             shouldIncludeBlock block = false) /\
  (title block = None -> content block = None -> image block = None ->
   shouldIncludeBlock block = false).
Proof.
  assert (M : shouldIncludeBlock block = true <->
     (exists t, title block = Some t /\ trim t <> []) \/
     (exists m, image block = Some m /\ trim m <> []) \/
     (exists c, content block = Some c /\ 20 <= spec_wordCount c)).
  { unfold shouldIncludeBlock. rewrite <- !truthyTrim_iff.
    destruct (truthyTrim (title block)) eqn:T; [tauto|].
    destruct (truthyTrim (image block)) eqn:I; [tauto|].
    destruct (truthyTrim (content block)) eqn:C.
    - apply truthyTrim_iff in C. destruct C as [c [E N]].
      rewrite E, countWords_spec. cbv zeta.
      destruct (20 <=? spec_wordCount c) eqn:W.
      + split; [intros _|reflexivity]. right; right. exists c. split; [reflexivity|lia].
      + split; [discriminate|]. intros [H|[H|[c' [E' W']]]]; try discriminate.
        injection E' as <-. lia.
    - assert (R : (if truthyTrim (link block) && negb (truthy (content block))
                      && negb (truthy (title block)) && negb (truthy (image block))
                   then false else false) = false) by (destruct (_ && _); reflexivity).
      rewrite R. split; [discriminate|].
      intros [H|[H|[c [E W]]]]; try discriminate.
      pose proof (proj1 (truthyTrim_false_iff _) C c E) as B.
      assert (trim c <> []) by (apply words_nonblank; lia). congruence. }
  split; [exact M|]. split; [|split].
  - intros c E W. apply M. right; right. exists c. split; [exact E|lia].
  - intros c Ht Hi Hc W.
    apply not_true_is_false. intros S.
    apply (proj1 M) in S. destruct S as [[t [E _]]|[[m [E _]]|[c' [E W']]]];
      try congruence.
    assert (c' = c) by congruence. subst. lia.
  - intros Ht Hc Hi.
    apply not_true_is_false. intros S.
    apply (proj1 M) in S. destruct S as [[t [E _]]|[[m [E _]]|[c' [E W']]]];
      congruence.
Qed.

Lemma shouldIncludeBlock_iff_witness :
  shouldIncludeBlock (mkBlock None (Some (nWords 20)) None None None) = true /\
  shouldIncludeBlock (mkBlock None (Some (nWords 19)) None None None) = false /\
  shouldIncludeBlock (mkBlock None None None None (Some (lit "/x"))) = false.
Proof.
  split; [|split].
  - apply (proj1 (proj2 (shouldIncludeBlock_iff
             (mkBlock None (Some (nWords 20)) None None None))) (nWords 20));
      reflexivity.
  - apply (proj1 (proj2 (proj2 (shouldIncludeBlock_iff
             (mkBlock None (Some (nWords 19)) None None None)))) (nWords 19));
      reflexivity.
  - apply (proj2 (proj2 (proj2 (shouldIncludeBlock_iff
             (mkBlock None None None None (Some (lit "/x")))))));
      reflexivity.
Defined.

(** ** Counted loops *)

Lemma zrange_empty lo hi : hi < lo -> zrange lo hi = [].
Proof.
  intros H. unfold zrange. replace (Z.to_nat (hi - lo + 1)) with O by lia.
  reflexivity.
Qed.

Lemma zrange_cons lo hi : lo <= hi -> zrange lo hi = lo :: zrange (lo + 1) hi.
Proof.
  intros H. unfold zrange.
  replace (Z.to_nat (hi - lo + 1)) with (S (Z.to_nat (hi - (lo + 1) + 1))) by lia.
  cbn [seq map]. f_equal; [lia|].
  rewrite <- seq_shift, map_map. apply map_ext. intros k. lia.
Qed.

Lemma zrange_snoc lo hi : lo <= hi -> zrange lo hi = zrange lo (hi - 1) ++ [hi].
Proof.
  intros H. unfold zrange.
  replace (Z.to_nat (hi - lo + 1)) with (S (Z.to_nat (hi - 1 - lo + 1))) by lia.
  rewrite seq_S, map_app. cbn [map]. do 2 f_equal. lia.
Qed.

Lemma zrange_In lo hi j : In j (zrange lo hi) <-> lo <= j <= hi.
Proof.
  unfold zrange. rewrite in_map_iff. split.
  - intros [k [E I]]. apply in_seq in I. lia.
  - intros H. exists (Z.to_nat (j - lo)). split; [lia|]. apply in_seq. lia.
Qed.

Lemma zrange_app lo mid hi :
  lo <= mid -> mid <= hi + 1 -> zrange lo hi = zrange lo (mid - 1) ++ zrange mid hi.
Proof.
  intros H1 H2.
  remember (Z.to_nat (hi + 1 - mid)) as n eqn:En.
  revert hi H2 En. induction n as [|n IH]; intros hi H2 En.
  - assert (hi = mid - 1) by lia. subst hi.
    rewrite (zrange_empty mid) by lia. rewrite app_nil_r. reflexivity.
  - rewrite (zrange_snoc lo hi) by lia. rewrite (zrange_snoc mid hi) by lia.
    rewrite (IH (hi - 1)) by lia. rewrite app_assoc. reflexivity.
Qed.

Lemma zrange_length lo hi : List.length (zrange lo hi) = Z.to_nat (hi - lo + 1).
Proof. unfold zrange. rewrite length_map, length_seq. reflexivity. Qed.

Lemma find_zrange_Some (p : Z -> bool) lo hi j :
  find p (zrange lo hi) = Some j ->
  lo <= j <= hi /\ p j = true /\ forall k, lo <= k < j -> p k = false.
Proof.
  remember (Z.to_nat (hi - lo + 1)) as n eqn:En.
  revert lo En. induction n as [|n IH]; intros lo En H.
  - rewrite zrange_empty in H by lia. discriminate.
  - rewrite zrange_cons in H by lia. cbn [find] in H.
    destruct (p lo) eqn:P.
    + injection H as <-. split; [lia|]. split; [exact P|]. intros; lia.
    + apply IH in H; [|lia]. destruct H as [R [Pj N]].
      split; [lia|]. split; [exact Pj|].
      intros k Hk. destruct (Z.eq_dec k lo) as [->|]; [exact P|]. apply N. lia.
Qed.

Lemma find_zrange_None (p : Z -> bool) lo hi :
  find p (zrange lo hi) = None <-> forall k, lo <= k <= hi -> p k = false.
Proof.
  split.
  - intros H k Hk. apply (find_none _ _ H). apply zrange_In. exact Hk.
  - intros H. destruct (find p (zrange lo hi)) as [j|] eqn:F; [|reflexivity].
    apply find_zrange_Some in F. destruct F as [R [P _]].
    rewrite H in P by lia. discriminate.
Qed.

Lemma existsb_zrange (p : Z -> bool) lo hi :
  existsb p (zrange lo hi) = true <-> exists k, lo <= k <= hi /\ p k = true.
Proof.
  rewrite existsb_exists. split; intros [k [A B]]; exists k; split;
    try exact B; apply zrange_In; exact A.
Qed.

(** ** Content Region Detector *)

Lemma hasFound_iff blocks :
  hasFoundValidContentInFirst10Blocks blocks = true <->
  exists k, 0 <= k < Z.min 10 (len blocks) /\ validAt blocks k = true.
Proof.
  unfold hasFoundValidContentInFirst10Blocks.
  rewrite existsb_zrange. split; intros [k [A B]]; exists k; split;
    try exact B; lia.
Qed.

Lemma stateAt_succ blocks n :
  0 <= n ->
  stateAt blocks (n + 1) =
  detectStep blocks (hasFoundValidContentInFirst10Blocks blocks)
             (stateAt blocks n) n.
Proof.
  intros H. unfold stateAt.
  replace (n + 1 - 1) with n by lia.
  rewrite (zrange_snoc 0 n) by lia. rewrite fold_left_app. reflexivity.
Qed.

Lemma stateAt_0 blocks : stateAt blocks 0 = detectInit.
Proof. unfold stateAt. rewrite zrange_empty by lia. reflexivity. Qed.

Lemma stateAt_split blocks m n :
  0 <= m <= n ->
  stateAt blocks n =
  fold_left (detectStep blocks (hasFoundValidContentInFirst10Blocks blocks))
            (zrange m (n - 1)) (stateAt blocks m).
Proof.
  intros H. unfold stateAt.
  rewrite (zrange_app 0 m (n - 1)) by lia. apply fold_left_app.
Qed.

Lemma lookAhead_Some blocks base j :
  lookAhead blocks base = Some j ->
  base < j <= len blocks - 1 /\ j <= base + 10 /\ validAt blocks j = true /\
  forall k, base < k < j -> validAt blocks k = false.
Proof.
  unfold lookAhead. intros H. apply find_zrange_Some in H.
  destruct H as [R [P N]]. split; [lia|]. split; [lia|]. split; [exact P|].
  intros k Hk. apply N. lia.
Qed.

Lemma lookAhead_None blocks base :
  lookAhead blocks base = None <->
  forall k, base < k <= Z.min (base + 10) (len blocks - 1) ->
            validAt blocks k = false.
Proof.
  unfold lookAhead. rewrite find_zrange_None. split; intros H k Hk; apply H; lia.
Qed.

(** A step on a block that is not content-bearing, with no region open or
    the open region ending later, changes nothing. *)
Lemma detectStep_skip blocks hf st i :
  validAt blocks i = false ->
  (forall r, currentRegion st = Some r -> i < end_ r) ->
  detectStep blocks hf st i = st.
Proof.
  intros V H. unfold detectStep, openOrExtend. fold (validAt blocks i).
  rewrite V. unfold checkEnd. destruct (currentRegion st) as [r|] eqn:C; [|reflexivity].
  specialize (H r eq_refl). destruct (end_ r <=? i) eqn:E; [lia|reflexivity].
Qed.

Lemma detect_run_skip blocks hf st lo hi :
  (forall k, lo <= k <= hi -> validAt blocks k = false) ->
  (forall r, currentRegion st = Some r -> hi < end_ r) ->
  fold_left (detectStep blocks hf) (zrange lo hi) st = st.
Proof.
  intros V H.
  remember (Z.to_nat (hi - lo + 1)) as n eqn:En.
  revert lo En V. induction n as [|n IH]; intros lo En V.
  - rewrite zrange_empty by lia. reflexivity.
  - rewrite zrange_cons by lia. cbn [fold_left].
    rewrite detectStep_skip.
    + apply IH; [lia|]. intros k Hk. apply V. lia.
    + apply V. lia.
    + intros r C. specialize (H r C). lia.
Qed.

Lemma regionsOrdered_snoc rs r :
  regionsOrdered rs -> Forall (fun r' => end_ r' < start r) rs ->
  regionsOrdered (rs ++ [r]).
Proof.
  unfold regionsOrdered. induction 1 as [|a l Ha Hl IH]; intros F; simpl.
  - constructor; constructor.
  - inversion F; subst. constructor.
    + apply Forall_app. split; [exact Ha|]. constructor; [assumption|constructor].
    + apply IH. assumption.
Qed.

Lemma detectInv_init blocks : detectInv blocks 0 detectInit.
Proof.
  unfold detectInv, detectInit, regionsOrdered; simpl.
  split; [constructor|]. split; [constructor|exact I].
Qed.

Lemma Forall_end_lt blocks i rs :
  Forall (fun r => regionInBounds blocks r /\ end_ r < i) rs ->
  Forall (fun r => regionInBounds blocks r /\ end_ r < i + 1) rs.
Proof.
  apply Forall_impl. intros r [B E]. split; [exact B|lia].
Qed.

(** The second half of the loop body keeps the invariant: it is given the
    facts that hold after the first half. *)
Lemma checkEnd_inv blocks i rs r fl :
  0 <= i < len blocks ->
  Forall (fun r => regionInBounds blocks r /\ end_ r < i) rs ->
  regionsOrdered rs ->
  Forall (fun r' => end_ r' < start r) rs ->
  0 <= start r -> start r <= i -> i <= end_ r -> end_ r <= len blocks - 1 ->
  1 <= extendRange r ->
  start r <= lastValidContentIndex r <= end_ r ->
  (forall k, lastValidContentIndex r < k <= i -> validAt blocks k = false) ->
  detectInv blocks (i + 1) (checkEnd blocks i (mkDetect rs (Some r) fl)).
Proof.
  intros Hi F O Fr S0 Si Ie El W L N.
  unfold checkEnd. cbn [currentRegion regions isFirstContentRegion].
  destruct (end_ r <=? i) eqn:E.
  - assert (end_ r = i) by lia.
    destruct (lookAhead blocks (lastValidContentIndex r)) as [j|] eqn:LA.
    + apply lookAhead_Some in LA. destruct LA as [R [R10 [Vj Nj]]].
      assert (i < j).
      { destruct (Z_lt_le_dec i j) as [|Hle]; [assumption|].
        rewrite N in Vj by lia. discriminate. }
      unfold detectInv. cbn [currentRegion regions setEnd start end_
        extendRange lastValidContentIndex].
      split; [apply Forall_end_lt; exact F|]. split; [exact O|].
      split; [exact Fr|]. repeat split; try lia.
    + unfold detectInv. cbn [currentRegion regions].
      split; [|split; [|exact I]].
      * apply Forall_app. split; [apply Forall_end_lt; exact F|].
        constructor; [|constructor]. unfold regionInBounds. lia.
      * apply regionsOrdered_snoc; assumption.
  - unfold detectInv. cbn [currentRegion regions].
    split; [apply Forall_end_lt; exact F|]. split; [exact O|].
    split; [exact Fr|]. repeat split; try lia; intros k Hk; apply N; lia.
Qed.

Lemma detectStep_inv blocks hf i st :
  0 <= i < len blocks ->
  detectInv blocks i st ->
  detectInv blocks (i + 1) (detectStep blocks hf st i).
Proof.
  intros Hi [F [O C]]. unfold detectStep, openOrExtend.
  fold (validAt blocks i). cbv zeta.
  destruct st as [rs cur fl]. cbn [currentRegion regions isFirstContentRegion] in *.
  destruct (validAt blocks i) eqn:V.
  - destruct cur as [r|].
    + destruct C as [Fr [S0 [Si [Ie [El [W [L N]]]]]]].
      destruct (end_ r <? Z.min (i + extendRange r - 1) (len blocks - 1)) eqn:E;
        apply checkEnd_inv; cbn [setEnd start end_ extendRange lastValidContentIndex];
        try assumption; try lia; intros k Hk; lia.
    + set (w := if fl && negb hf then 20 else 10).
      assert (10 <= w) by (subst w; destruct (fl && negb hf); lia).
      apply checkEnd_inv; cbn [start end_ extendRange lastValidContentIndex];
        try assumption; try lia.
      revert F. apply Forall_impl. intros r [_ E]. exact E.
  - destruct cur as [r|].
    + destruct C as [Fr [S0 [Si [Ie [El [W [L N]]]]]]].
      destruct r as [s e rs' fr w lv].
      cbn [start end_ extendRange lastValidContentIndex] in *.
      apply checkEnd_inv; cbn [start end_ extendRange lastValidContentIndex];
        try assumption; try lia.
      intros k Hk. destruct (Z.eq_dec k i) as [->|]; [exact V|]. apply N. lia.
    + unfold checkEnd. cbn [currentRegion]. unfold detectInv.
      cbn [currentRegion regions]. split; [apply Forall_end_lt; exact F|].
      split; [exact O|exact I].
Qed.

Lemma stateAt_inv blocks n :
  0 <= n <= len blocks -> detectInv blocks n (stateAt blocks n).
Proof.
  intros H. rewrite <- (Z2Nat.id n) by lia.
  assert (B : (Z.to_nat n <= List.length blocks)%nat) by (unfold len in H; lia).
  induction (Z.to_nat n) as [|m IH].
  - rewrite stateAt_0. apply detectInv_init.
  - rewrite Nat2Z.inj_succ, <- Z.add_1_r. rewrite stateAt_succ by lia.
    apply detectStep_inv; [unfold len; lia|]. apply IH. lia.
Qed.

(** No region is left open when the loop ends: the last push of the source
    never runs. *)
Lemma detect_closed blocks :
  currentRegion (stateAt blocks (len blocks)) = None.
Proof.
  assert (H : 0 <= len blocks <= len blocks) by (unfold len; lia).
  destruct (stateAt_inv blocks (len blocks) H) as [_ [_ C]].
  destruct (currentRegion (stateAt blocks (len blocks))) as [r|]; [|reflexivity].
  lia.
Qed.

Lemma detectContentRegions_regions blocks :
  detectContentRegions blocks = regions (stateAt blocks (len blocks)).
Proof.
  unfold detectContentRegions. cbv zeta. rewrite detect_closed. reflexivity.
Qed.

Lemma detectContentRegions_in_bounds blocks :
  Forall (regionInBounds blocks) (detectContentRegions blocks).
Proof.
  rewrite detectContentRegions_regions.
  assert (H : 0 <= len blocks <= len blocks) by (unfold len; lia).
  destruct (stateAt_inv blocks (len blocks) H) as [F _].
  revert F. apply Forall_impl. intros r [B _]. exact B.
Qed.

(** C9. Every region returned by [detectContentRegions] lies inside the
    block array with [start <= end <= len - 1], and the regions are
    ordered and disjoint: each one starts after every earlier one has
    ended. *)
Theorem detectContentRegions_bounds_ordered (blocks : list Block) :
  Forall (regionInBounds blocks) (detectContentRegions blocks) /\
  regionsOrdered (detectContentRegions blocks).
Proof.
  split; [apply detectContentRegions_in_bounds|].
  rewrite detectContentRegions_regions.
  assert (H : 0 <= len blocks <= len blocks) by (unfold len; lia).
  destruct (stateAt_inv blocks (len blocks) H) as [_ [O _]]. exact O.
Qed.

(** The look-ahead reads inside the array: the index it starts from is an
    index of the array, so [blockAt] is never asked for a missing block. *)
Lemma lastValidContentIndex_in_range blocks n r :
  0 <= n <= len blocks ->
  currentRegion (stateAt blocks n) = Some r ->
  0 <= lastValidContentIndex r <= len blocks - 1.
Proof.
  intros H C. destruct (stateAt_inv blocks n H) as [_ [_ I]].
  rewrite C in I. lia.
Qed.

(** Two regions: a title, twenty short blocks, a title. *)
Example detect_two_regions :
  detectContentRegions (titleBlock :: repeat shortBlock 20 ++ [titleBlock]) =
  [mkRegion 0 9 title_start true 10 0; mkRegion 21 21 title_start false 10 21].
Proof. reflexivity. Qed.

Lemma stateAt_before_first blocks i :
  0 <= i ->
  (forall k, 0 <= k < i -> validAt blocks k = false) ->
  stateAt blocks i = detectInit.
Proof.
  intros Hi N. unfold stateAt. apply detect_run_skip.
  - intros k Hk. apply N. lia.
  - intros r C. discriminate.
Qed.

Lemma hasFound_false blocks :
  (forall k, 0 <= k < Z.min 10 (len blocks) -> validAt blocks k = false) ->
  hasFoundValidContentInFirst10Blocks blocks = false.
Proof.
  intros N. apply not_true_is_false. intros H. apply hasFound_iff in H.
  destruct H as [k [R V]]. rewrite N in V by exact R. discriminate.
Qed.

Lemma openOrExtend_shape blocks hf i st :
  let st' := openOrExtend blocks hf i st in
  regions st' = regions st /\
  match currentRegion st with
  | Some r => exists e lv, currentRegion st' = Some (setEnd r e lv)
  | None =>
      currentRegion st' = None \/
      exists r, currentRegion st' = Some r /\ start r = i /\
                extendRange r = (if isFirstContentRegion st && negb hf
                                 then 20 else 10)
  end.
Proof.
  unfold openOrExtend. cbv zeta.
  destruct st as [rs cur fl]. cbn [regions currentRegion isFirstContentRegion].
  destruct (isValidContentStart (blockAt blocks i)).
  - destruct cur as [r|].
    + destruct (end_ r <? _); cbn [regions currentRegion];
        (split; [reflexivity|]); eexists; eexists; reflexivity.
    + cbn [regions currentRegion]. split; [reflexivity|]. right.
      eexists. split; [reflexivity|]. cbn [start extendRange]. auto.
  - cbn [regions currentRegion]. split; [reflexivity|].
    destruct cur as [r|]; [|left; reflexivity].
    exists (end_ r), (lastValidContentIndex r). destruct r; reflexivity.
Qed.

Lemma checkEnd_shape blocks i st :
  let st' := checkEnd blocks i st in
  match currentRegion st with
  | Some r =>
      (regions st' = regions st /\
       exists e lv, currentRegion st' = Some (setEnd r e lv)) \/
      (regions st' = regions st ++ [r] /\ currentRegion st' = None)
  | None => st' = st
  end.
Proof.
  unfold checkEnd. cbv zeta.
  destruct st as [rs cur fl]. cbn [regions currentRegion isFirstContentRegion].
  destruct cur as [r|]; [|reflexivity].
  destruct (end_ r <=? i).
  - destruct (lookAhead blocks (lastValidContentIndex r)) as [j|];
      cbn [regions currentRegion].
    + left. split; [reflexivity|]. eexists; eexists; reflexivity.
    + right. split; reflexivity.
  - cbn [regions currentRegion]. left. split; [reflexivity|].
    exists (end_ r), (lastValidContentIndex r). destruct r; reflexivity.
Qed.

(** What a step does to the list of regions and to the open region: the
    open region keeps its start and window, a pushed region is the open
    one, a new region starts at [i]. *)
Lemma detectStep_shape blocks hf st i :
  let st' := detectStep blocks hf st i in
  exists pushed,
    regions st' = regions st ++ pushed /\
    (forall r, In r pushed ->
       exists r0, start r = start r0 /\ extendRange r = extendRange r0 /\
         (currentRegion st = Some r0 \/
          (currentRegion st = None /\ start r0 = i /\
           extendRange r0 = (if isFirstContentRegion st && negb hf
                             then 20 else 10)))) /\
    (forall r, currentRegion st' = Some r ->
       exists r0, start r = start r0 /\ extendRange r = extendRange r0 /\
         (currentRegion st = Some r0 \/
          (currentRegion st = None /\ start r0 = i /\
           extendRange r0 = (if isFirstContentRegion st && negb hf
                             then 20 else 10)))).
Proof.
  cbv zeta. unfold detectStep.
  pose proof (openOrExtend_shape blocks hf i st) as A. cbv zeta in A.
  pose proof (checkEnd_shape blocks i (openOrExtend blocks hf i st)) as B.
  cbv zeta in B.
  set (st1 := openOrExtend blocks hf i st) in *.
  set (st2 := checkEnd blocks i st1) in *.
  destruct A as [R1 C1].
  assert (M : forall r1, currentRegion st1 = Some r1 ->
     exists r0, start r1 = start r0 /\ extendRange r1 = extendRange r0 /\
       (currentRegion st = Some r0 \/
        (currentRegion st = None /\ start r0 = i /\
         extendRange r0 = (if isFirstContentRegion st && negb hf
                           then 20 else 10)))).
  { intros r1 E1. destruct (currentRegion st) as [r0|].
    - destruct C1 as [e [lv C1]]. rewrite C1 in E1. injection E1 as <-.
      exists r0. cbn [setEnd start extendRange].
      split; [reflexivity|]. split; [reflexivity|]. left. reflexivity.
    - destruct C1 as [C1|[r [C1 [S W]]]]; [congruence|].
      rewrite C1 in E1. injection E1 as <-. exists r.
      split; [reflexivity|]. split; [reflexivity|]. right. auto. }
  destruct (currentRegion st1) as [r1|] eqn:E1.
  - destruct (M r1 eq_refl) as [r0 [S0 [W0 D0]]].
    destruct B as [[R2 [e [lv C2]]]|[R2 C2]].
    + exists []. rewrite app_nil_r. split; [congruence|].
      split; [intros r []|].
      intros r E. rewrite C2 in E. injection E as <-.
      exists r0. cbn [setEnd start extendRange]. auto.
    + exists [r1]. split; [congruence|]. split.
      * intros r [<-|[]]. exists r0. auto.
      * intros r E. congruence.
  - exists []. rewrite app_nil_r. rewrite B. split; [exact R1|].
    split; [intros r []|]. intros r E. congruence.
Qed.

Lemma detectStep_firstOpened blocks hf i0 w st i :
  firstOpened i0 w st -> firstOpened i0 w (detectStep blocks hf st i).
Proof.
  intros H. destruct (detectStep_shape blocks hf st i) as [pushed [R [P C]]].
  unfold firstOpened in *. rewrite R.
  destruct (regions st) as [|r0 rs]; [|exact H].
  destruct (currentRegion st) as [r|] eqn:E; [|contradiction].
  cbn [app]. destruct pushed as [|p ps].
  - destruct (currentRegion (detectStep blocks hf st i)) as [r'|] eqn:E'.
    + destruct (C r' eq_refl) as [r0 [S [W [D|[D _]]]]]; [|discriminate].
      injection D as <-. destruct H. split; congruence.
    + exfalso. clear P C.
      unfold detectStep in E', R.
      pose proof (openOrExtend_shape blocks hf i st) as A. cbv zeta in A.
      rewrite E in A. destruct A as [R1 [e [lv C1]]].
      pose proof (checkEnd_shape blocks i (openOrExtend blocks hf i st)) as B.
      cbv zeta in B. rewrite C1 in B.
      destruct B as [[_ [e' [lv' B]]]|[B _]]; [congruence|].
      rewrite R, R1 in B. destruct (regions st); discriminate.
  - destruct (P p (or_introl eq_refl)) as [r0 [S [W [D|[D _]]]]]; [|discriminate].
    injection D as <-. destruct H. split; congruence.
Qed.

Lemma detect_run_firstOpened blocks hf i0 w l st :
  firstOpened i0 w st ->
  firstOpened i0 w (fold_left (detectStep blocks hf) l st).
Proof.
  revert st. induction l as [|i l IH]; intros st H; cbn [fold_left]; [exact H|].
  apply IH. apply detectStep_firstOpened. exact H.
Qed.

Lemma detectStep_allWindows blocks i st :
  allWindows 10 st -> allWindows 10 (detectStep blocks true st i).
Proof.
  intros [F C]. destruct (detectStep_shape blocks true st i) as [pushed [R [P N]]].
  rewrite andb_false_r in P, N.
  assert (W : forall r r0, extendRange r = extendRange r0 ->
     currentRegion st = Some r0 \/
     currentRegion st = None /\ start r0 = i /\ extendRange r0 = 10 ->
     extendRange r = 10).
  { intros r r0 E [D|[_ [_ D]]]; [rewrite E; apply C; exact D|congruence]. }
  split.
  - rewrite R. apply Forall_app. split; [exact F|].
    apply Forall_forall. intros r I.
    destruct (P r I) as [r0 [_ [E D]]]. apply (W r r0 E D).
  - intros r E. destruct (N r E) as [r0 [_ [E0 D]]]. apply (W r r0 E0 D).
Qed.

Lemma stateAt_allWindows blocks n :
  hasFoundValidContentInFirst10Blocks blocks = true ->
  allWindows 10 (stateAt blocks n).
Proof.
  intros HF. unfold stateAt. rewrite HF.
  assert (G : forall l st, allWindows 10 st ->
                allWindows 10 (fold_left (detectStep blocks true) l st)).
  { induction l as [|i l IH]; intros st H; cbn [fold_left]; [exact H|].
    apply IH. apply detectStep_allWindows. exact H. }
  apply G. split; [constructor|]. intros r E. discriminate.
Qed.


(** C2. When none of the first [min(10, len)] blocks is content-bearing,
    the first region to open (at the first content-bearing index [i]) is
    opened with window 20 and spans [[i, min(i + 19, len - 1)]], and it is
    the first region of the output; with blocks 0 to 11 not content-bearing
    and a title at index 12 this is [[12, min(31, len - 1)]].  When one of
    the first ten blocks is content-bearing, every region that opens, at
    whatever index [i], is opened with window 10 and spans
    [[i, min(i + 9, len - 1)]], and every region of the output has
    window 10. *)
Theorem region_opening_window (blocks : list Block) :
  (forall i,
     0 <= i < len blocks ->
     (forall k, 0 <= k < Z.min 10 (len blocks) -> validAt blocks k = false) ->
     (forall k, 0 <= k < i -> validAt blocks k = false) ->
     validAt blocks i = true ->
     stateAt blocks i = detectInit /\
     (exists why,
        currentRegion (openOrExtend blocks
                         (hasFoundValidContentInFirst10Blocks blocks) i
                         (stateAt blocks i))
        = Some (mkRegion i (Z.min (i + 19) (len blocks - 1)) why true 20 i)) /\
     (exists r rest,
        detectContentRegions blocks = r :: rest /\
        start r = i /\ extendRange r = 20)) /\
  (12 < len blocks ->
   (forall k, 0 <= k < 12 -> validAt blocks k = false) ->
   truthyTrim (title (blockAt blocks 12)) = true ->
   currentRegion (openOrExtend blocks
                    (hasFoundValidContentInFirst10Blocks blocks) 12
                    (stateAt blocks 12))
   = Some (mkRegion 12 (Z.min 31 (len blocks - 1)) title_start true 20 12)) /\
  (forall i,
     0 <= i < len blocks ->
     (exists k, 0 <= k < Z.min 10 (len blocks) /\ validAt blocks k = true) ->
     currentRegion (stateAt blocks i) = None ->
     validAt blocks i = true ->
     exists why first,
       currentRegion (openOrExtend blocks
                        (hasFoundValidContentInFirst10Blocks blocks) i
                        (stateAt blocks i))
       = Some (mkRegion i (Z.min (i + 9) (len blocks - 1)) why first 10 i)) /\
  ((exists k, 0 <= k < Z.min 10 (len blocks) /\ validAt blocks k = true) ->
   Forall (fun r => extendRange r = 10) (detectContentRegions blocks)).
Proof.
  split; [|split; [|split]].
  - intros i Hi N10 Ni V.
    pose proof (stateAt_before_first blocks i ltac:(lia) Ni) as S0.
    split; [exact S0|].
    assert (O : exists why,
        currentRegion (openOrExtend blocks
                         (hasFoundValidContentInFirst10Blocks blocks) i
                         (stateAt blocks i))
        = Some (mkRegion i (Z.min (i + 19) (len blocks - 1)) why true 20 i)).
    { rewrite S0, (hasFound_false blocks N10).
      unfold openOrExtend. fold (validAt blocks i). rewrite V. cbn.
      replace (i + 20 - 1) with (i + 19) by lia.
      eexists. reflexivity. }
    split; [exact O|].
    assert (P : firstOpened i 20 (stateAt blocks (len blocks))).
    { rewrite (stateAt_split blocks (i + 1) (len blocks)) by lia.
      apply detect_run_firstOpened.
      rewrite stateAt_succ by lia. unfold detectStep.
      destruct O as [why O].
      set (st := openOrExtend _ _ _ _) in *.
      assert (R : regions st = []).
      { subst st. rewrite S0. unfold openOrExtend.
        destruct (isValidContentStart _); reflexivity. }
      unfold firstOpened, checkEnd. rewrite O.
      destruct (_ <=? i); [destruct (lookAhead _ _)|];
        cbn [regions currentRegion]; rewrite ?R, ?O;
        cbn [app setEnd start extendRange]; auto. }
    unfold firstOpened in P. rewrite detectContentRegions_regions.
    rewrite detect_closed in P.
    destruct (regions (stateAt blocks (len blocks))) as [|r rest];
      [contradiction|].
    exists r, rest. split; [reflexivity|exact P].
  - intros L N T.
    rewrite (stateAt_before_first blocks 12) by (try apply N; lia).
    rewrite hasFound_false by (intros k Hk; apply N; lia).
    unfold openOrExtend.
    assert (V : isValidContentStart (blockAt blocks 12) = true)
      by (unfold isValidContentStart; rewrite T; reflexivity).
    rewrite V, T. cbn. reflexivity.
  - intros i Hi F C V.
    apply hasFound_iff in F. rewrite F.
    unfold openOrExtend. fold (validAt blocks i). rewrite V, C.
    rewrite andb_false_r. cbv zeta.
    replace (i + 10 - 1) with (i + 9) by lia.
    eexists. eexists. reflexivity.
  - intros F. apply hasFound_iff in F.
    rewrite detectContentRegions_regions.
    apply (stateAt_allWindows blocks (len blocks) F).
Qed.

Lemma forallb_zrange (p : Z -> bool) lo hi :
  forallb p (zrange lo hi) = true -> forall k, lo <= k <= hi -> p k = true.
Proof.
  intros H k Hk. rewrite forallb_forall in H. apply H. apply zrange_In. exact Hk.
Qed.

Lemma invalid_range blocks lo hi :
  forallb (fun k => negb (validAt blocks k)) (zrange lo hi) = true ->
  forall k, lo <= k <= hi -> validAt blocks k = false.
Proof.
  intros H k Hk. apply negb_true_iff.
  apply (forallb_zrange _ lo hi H k Hk).
Qed.

Lemma region_opening_window_witness :
  currentRegion (openOrExtend titleAt12
                   (hasFoundValidContentInFirst10Blocks titleAt12) 12
                   (stateAt titleAt12 12))
  = Some (mkRegion 12 31 title_start true 20 12) /\
  (exists why first,
     currentRegion (openOrExtend validAt5And14
                      (hasFoundValidContentInFirst10Blocks validAt5And14) 5
                      (stateAt validAt5And14 5))
     = Some (mkRegion 5 14 why first 10 5)) /\
  stateAt titleAt12 12 = detectInit /\
  Forall (fun r => extendRange r = 10) (detectContentRegions validAt5And14).
Proof.
  destruct (region_opening_window titleAt12) as [A [B _]].
  destruct (region_opening_window validAt5And14) as [_ [_ [C D]]].
  split; [|split; [|split]].
  - apply B.
    + reflexivity.
    + intros k Hk. apply (invalid_range titleAt12 0 11); [reflexivity|lia].
    + reflexivity.
  - apply (C 5).
    + split; [discriminate|reflexivity].
    + exists 5. split; [split; [discriminate|reflexivity]|reflexivity].
    + reflexivity.
    + reflexivity.
  - refine (proj1 (A 12 _ _ _ _)).
    + split; [discriminate|reflexivity].
    + intros k Hk. apply (invalid_range titleAt12 0 11); [reflexivity|].
      change (Z.min 10 (len titleAt12)) with 10 in Hk. lia.
    + intros k Hk. apply (invalid_range titleAt12 0 11); [reflexivity|lia].
    + reflexivity.
  - apply D. exists 5. split; [split; [discriminate|reflexivity]|reflexivity].
Defined.

(** The iteration at the end of the open region when the look-ahead finds
    nothing: the region is pushed. *)
Lemma detectStep_close blocks hf rs r fl i :
  validAt blocks i = false ->
  end_ r <= i ->
  (forall k, lastValidContentIndex r < k <=
             Z.min (lastValidContentIndex r + 10) (len blocks - 1) ->
             validAt blocks k = false) ->
  detectStep blocks hf (mkDetect rs (Some r) fl) i = mkDetect (rs ++ [r]) None fl.
Proof.
  intros V E N. unfold detectStep, openOrExtend. fold (validAt blocks i).
  rewrite V. unfold checkEnd. cbn [currentRegion regions isFirstContentRegion].
  replace (end_ r <=? i) with true by lia.
  rewrite (proj2 (lookAhead_None blocks _) N). reflexivity.
Qed.

(** C3. When the content-bearing blocks are exactly those at the indices 5
    and 14, [detectContentRegions] returns a single region; it starts at 5,
    was opened with window 10 and ends at [min(23, len - 1)], so it holds
    both indices: the block at 14 extended the open region. *)
Theorem merged_region_5_14 (blocks : list Block) :
  14 < len blocks ->
  (forall k, 0 <= k < len blocks ->
             (validAt blocks k = true <-> k = 5 \/ k = 14)) ->
  exists r,
    detectContentRegions blocks = [r] /\
    start r = 5 /\ end_ r = Z.min 23 (len blocks - 1) /\ extendRange r = 10 /\
    start r <= 5 <= end_ r /\ start r <= 14 <= end_ r.
Proof.
  intros L H.
  assert (V5 : validAt blocks 5 = true) by (apply H; lia).
  assert (V14 : validAt blocks 14 = true) by (apply H; lia).
  assert (N : forall k, 0 <= k < len blocks -> k <> 5 -> k <> 14 ->
                        validAt blocks k = false).
  { intros k Hk N5 N14. apply not_true_is_false. intros T.
    apply H in T; [lia|exact Hk]. }
  assert (HF : hasFoundValidContentInFirst10Blocks blocks = true).
  { apply hasFound_iff. exists 5. split; [lia|exact V5]. }
  set (why := if truthyTrim (title (blockAt blocks 5))
              then title_start else content_start).
  (* iterations 0 .. 4: nothing happens *)
  assert (S5 : stateAt blocks 5 = detectInit).
  { apply stateAt_before_first; [lia|]. intros k Hk. apply N; lia. }
  (* iteration 5 opens [5, 14] *)
  assert (S6 : stateAt blocks 6 =
               mkDetect [] (Some (mkRegion 5 14 why true 10 5)) false).
  { change 6 with (5 + 1). rewrite stateAt_succ by lia. rewrite S5, HF.
    unfold detectStep, openOrExtend. fold (validAt blocks 5). rewrite V5.
    cbn [currentRegion detectInit regions isFirstContentRegion andb negb].
    replace (Z.min (5 + 10 - 1) (len blocks - 1)) with 14 by lia.
    unfold checkEnd. cbn [currentRegion end_]. reflexivity. }
  (* iterations 6 .. 13 *)
  assert (S14 : stateAt blocks 14 =
                mkDetect [] (Some (mkRegion 5 14 why true 10 5)) false).
  { rewrite (stateAt_split blocks 6 14) by lia. rewrite S6.
    apply detect_run_skip.
    - intros k Hk. apply N; lia.
    - intros r C. injection C as <-. cbn. lia. }
  set (e := Z.min 23 (len blocks - 1)).
  set (final := mkRegion 5 e why true 10 14).
  assert (NA : forall k, 14 < k <= Z.min (14 + 10) (len blocks - 1) ->
                         validAt blocks k = false)
    by (intros k Hk; apply N; lia).
  (* iteration 14 extends the region; iteration [e] closes it *)
  assert (SE : stateAt blocks (e + 1) = mkDetect [final] None false).
  { destruct (Z.eq_dec (len blocks) 15) as [L15|L16].
    - assert (e = 14) by (subst e; lia).
      replace (e + 1) with (14 + 1) by lia.
      rewrite stateAt_succ by lia. rewrite S14, HF.
      unfold detectStep, openOrExtend. fold (validAt blocks 14). rewrite V14.
      cbn [currentRegion regions isFirstContentRegion extendRange end_].
      replace (14 <? Z.min (14 + 10 - 1) (len blocks - 1)) with false by lia.
      unfold checkEnd.
      cbn [currentRegion regions isFirstContentRegion setEnd start end_
           reason isFirstRegion extendRange lastValidContentIndex].
      replace (14 <=? 14) with true by lia.
      rewrite (proj2 (lookAhead_None blocks 14) NA).
      subst final. replace e with 14 by lia. reflexivity.
    - assert (14 < e) by (subst e; lia).
      assert (S15 : stateAt blocks 15 = mkDetect [] (Some final) false).
      { change 15 with (14 + 1). rewrite stateAt_succ by lia. rewrite S14, HF.
        unfold detectStep, openOrExtend. fold (validAt blocks 14). rewrite V14.
        cbn [currentRegion regions isFirstContentRegion extendRange end_].
        replace (Z.min (14 + 10 - 1) (len blocks - 1)) with e by (subst e; lia).
        replace (14 <? e) with true by lia.
        unfold checkEnd.
        cbn [currentRegion regions isFirstContentRegion setEnd start end_
             reason isFirstRegion extendRange lastValidContentIndex].
        replace (e <=? 14) with false by lia. reflexivity. }
      assert (Se : stateAt blocks e = mkDetect [] (Some final) false).
      { rewrite (stateAt_split blocks 15 e) by lia. rewrite S15.
        apply detect_run_skip.
        - intros k Hk. apply N; subst e; lia.
        - intros r C. injection C as <-. cbn. lia. }
      rewrite stateAt_succ by lia. rewrite Se.
      apply detectStep_close.
      + apply N; subst e; lia.
      + cbn. lia.
      + exact NA. }
  (* the remaining iterations *)
  assert (SL : stateAt blocks (len blocks) = mkDetect [final] None false).
  { rewrite (stateAt_split blocks (e + 1) (len blocks)) by (subst e; lia).
    rewrite SE. apply detect_run_skip.
    - intros k Hk. apply N; subst e; lia.
    - intros r C. discriminate. }
  exists final. rewrite detectContentRegions_regions, SL.
  cbn [regions final start end_ extendRange]. subst e.
  repeat split; lia.
Qed.

Lemma merged_region_5_14_witness :
  exists r,
    detectContentRegions validAt5And14 = [r] /\
    start r = 5 /\ end_ r = Z.min 23 (len validAt5And14 - 1) /\
    extendRange r = 10 /\
    start r <= 5 <= end_ r /\ start r <= 14 <= end_ r.
Proof.
  apply merged_region_5_14.
  - reflexivity.
  - intros k Hk. split.
    + intros V.
      destruct (Z.eq_dec k 5) as [|N5]; [left; assumption|].
      destruct (Z.eq_dec k 14) as [|N14]; [right; assumption|].
      exfalso.
      assert (F : validAt validAt5And14 k = false).
      { assert (R : 0 <= k <= 4 \/ 6 <= k <= 13 \/ 15 <= k <= 34)
          by (change (len validAt5And14) with 35 in Hk; lia).
        destruct R as [R|[R|R]].
        - apply (invalid_range validAt5And14 0 4); [reflexivity|exact R].
        - apply (invalid_range validAt5And14 6 13); [reflexivity|exact R].
        - apply (invalid_range validAt5And14 15 34); [reflexivity|exact R]. }
      rewrite F in V. discriminate.
    + intros [->| ->]; reflexivity.
Defined.

(** ** Link-Pattern Pruner *)

Lemma forallb_zrange_intro (p : Z -> bool) lo hi :
  (forall k, lo <= k <= hi -> p k = true) -> forallb p (zrange lo hi) = true.
Proof.
  intros H. apply forallb_forall. intros k Hk. apply H. apply zrange_In. exact Hk.
Qed.

Lemma blockGet_in_range blocks i :
  0 <= i <= len blocks - 1 -> exists block, blockGet blocks i = Some block.
Proof.
  intros H. unfold blockGet. replace (i <? 0) with false by lia.
  destruct (nth_error blocks (Z.to_nat i)) as [b|] eqn:E; [exists b; reflexivity|].
  apply nth_error_None in E. unfold len in H. lia.
Qed.

(** One iteration on a link pair: both counters go up, and the loop is left
    when the run reaches 15. *)
Lemma scanBlock_pair blocks i block adj p c :
  blockGet blocks i = Some block -> isPairAt blocks i = true ->
  scanBlock blocks i block (mkScan adj p c false) =
  if 15 <=? c + 1 then mkScan (i - 14) (p + 1) (c + 1) true
  else mkScan adj (p + 1) (c + 1) false.
Proof.
  intros G P. unfold isPairAt in P. rewrite G in P.
  apply andb_true_iff in P. destruct P as [V F].
  unfold scanBlock. rewrite V, F.
  cbn [adjustedEnd contentLinkPairs consecutivePairs]. reflexivity.
Qed.

(** One iteration on a block that is not a link pair resets the run. *)
Lemma scanBlock_reset blocks i block adj p c :
  blockGet blocks i = Some block -> isPairAt blocks i = false -> 0 <= c ->
  scanBlock blocks i block (mkScan adj p c false) = mkScan adj p 0 false.
Proof.
  intros G P C. unfold isPairAt in P. rewrite G in P.
  unfold scanBlock.
  destruct (isValidContentForPattern block) eqn:V.
  - simpl in P. rewrite P. reflexivity.
  - cbn [adjustedEnd contentLinkPairs consecutivePairs].
    destruct (0 <? c) eqn:E; [reflexivity|].
    assert (c = 0) by lia. subst c. reflexivity.
Qed.

(** The scan of a region from index [a] on, with a run of [c] pairs just
    before [a]: it stops at the first index where a run of 15 ends. *)
Lemma scanRegion_spec blocks s e :
  0 <= s -> e <= len blocks - 1 ->
  forall n a c p,
    n = Z.to_nat (e - a + 1) -> s <= a -> a <= e + 1 ->
    0 <= c < 15 -> c <= a - s ->
    (forall j, a - c <= j < a -> isPairAt blocks j = true) ->
    (c = a - s \/ isPairAt blocks (a - c - 1) = false) ->
    exists st,
      scanRegion blocks n a (mkScan e p c false) = Some st /\
      match find (denseRunAt blocks s) (zrange a e) with
      | Some i => adjustedEnd st = i - 14 /\ consecutivePairs st = 15 /\
                  broke st = true
      | None => adjustedEnd st = e /\ 0 <= consecutivePairs st < 15 /\
                broke st = false
      end.
Proof.
  intros Hs He. induction n as [|n IH]; intros a c p En Ha Hae Hc Hcs Run Max.
  - rewrite zrange_empty by lia. cbn [find scanRegion].
    eexists. split; [reflexivity|]. cbn. lia.
  - assert (A : a <= e) by lia.
    destruct (blockGet_in_range blocks a) as [block G]; [lia|].
    rewrite zrange_cons by lia. cbn [find scanRegion]. rewrite G. cbv zeta.
    destruct (isPairAt blocks a) eqn:P.
    + rewrite (scanBlock_pair blocks a block e p c G P).
      destruct (denseRunAt blocks s a) eqn:D.
      * (* the run of 15 ends here *)
        unfold denseRunAt in D. apply andb_true_iff in D. destruct D as [D1 D2].
        assert (c = 14).
        { destruct Max as [M|M]; [lia|].
          destruct (Z_lt_le_dec c 14) as [Lt|]; [|lia].
          rewrite (forallb_zrange _ _ _ D2) in M by lia. discriminate. }
        subst c. replace (15 <=? 14 + 1) with true by lia.
        cbn [broke]. eexists. split; [reflexivity|]. cbn. lia.
      * assert (c + 1 < 15).
        { destruct (Z_lt_le_dec (c + 1) 15) as [|Ge]; [assumption|exfalso].
          assert (c = 14) by lia. subst c.
          assert (T : denseRunAt blocks s a = true).
          { unfold denseRunAt. apply andb_true_iff. split; [lia|].
            apply forallb_zrange_intro. intros k Hk.
            destruct (Z.eq_dec k a) as [->|]; [exact P|]. apply Run. lia. }
          congruence. }
        replace (15 <=? c + 1) with false by lia. cbn [broke].
        apply IH; try lia.
        -- intros j Hj. destruct (Z.eq_dec j a) as [->|]; [exact P|].
           apply Run. lia.
        -- destruct Max as [M|M]; [left; lia|right].
           replace (a + 1 - (c + 1) - 1) with (a - c - 1) by lia. exact M.
    + rewrite (scanBlock_reset blocks a block e p c G P) by lia.
      assert (D : denseRunAt blocks s a = false).
      { apply not_true_is_false. intros D. unfold denseRunAt in D.
        apply andb_true_iff in D. destruct D as [_ D].
        rewrite (forallb_zrange _ _ _ D) in P by lia. discriminate. }
      rewrite D. cbn [broke].
      apply IH; try lia.
      right. replace (a + 1 - 0 - 1) with a by lia. exact P.
Qed.

Lemma scanOf_spec blocks region :
  0 <= start region -> end_ region <= len blocks - 1 ->
  start region <= end_ region + 1 ->
  exists st,
    scanOf blocks region = Some st /\
    match firstDenseRun blocks region with
    | Some i => adjustedEnd st = i - 14 /\ consecutivePairs st = 15
    | None => adjustedEnd st = end_ region /\ 0 <= consecutivePairs st < 15
    end.
Proof.
  intros Hs He Hse. unfold scanOf, firstDenseRun.
  destruct (scanRegion_spec blocks (start region) (end_ region) Hs He
              (Z.to_nat (end_ region - start region + 1)) (start region) 0 0)
    as [st [E R]]; try lia.
  exists st. split; [exact E|].
  destruct (find _ _); tauto.
Qed.

Lemma pruneAll_app blocks l1 l2 acc :
  pruneAll blocks (l1 ++ l2) acc =
  match pruneAll blocks l1 acc with
  | Some acc' => pruneAll blocks l2 acc'
  | None => None
  end.
Proof.
  revert acc. induction l1 as [|r l1 IH]; intros acc; cbn [app pruneAll].
  - reflexivity.
  - destruct (pruneRegion blocks r) as [[f|]|]; [apply IH|apply IH|reflexivity].
Qed.

Lemma checkLinkPatterns_pruneAll blocks rs :
  checkLinkPatterns blocks rs = pruneAll blocks rs [].
Proof. destruct rs; reflexivity. Qed.

(** The counter [contentLinkPairs] goes up by one on a link pair and is
    left as it is on any other block. *)
Lemma scanBlock_count blocks i block st :
  blockGet blocks i = Some block ->
  contentLinkPairs (scanBlock blocks i block st) =
  contentLinkPairs st + (if isPairAt blocks i then 1 else 0).
Proof.
  intros G. unfold isPairAt. rewrite G. unfold scanBlock.
  destruct (isValidContentForPattern block); cbn [andb].
  - destruct (foundAssociatedLink blocks i block);
      cbn [adjustedEnd contentLinkPairs consecutivePairs];
      destruct (requiredConsecutive <=? _); cbn [contentLinkPairs]; lia.
  - destruct (0 <? consecutivePairs st); cbn [contentLinkPairs]; lia.
Qed.

(** The loop is left only where the end is set to [i - 14]. *)
Lemma scanBlock_broke blocks i block st :
  broke st = false -> broke (scanBlock blocks i block st) = true ->
  adjustedEnd (scanBlock blocks i block st) = i - 14.
Proof.
  intros B. unfold scanBlock.
  destruct (isValidContentForPattern block).
  - destruct (foundAssociatedLink blocks i block);
      cbn [adjustedEnd contentLinkPairs consecutivePairs];
      destruct (requiredConsecutive <=? _); cbn [broke adjustedEnd];
      intros H; try discriminate H; unfold requiredConsecutive; lia.
  - destruct (0 <? consecutivePairs st); cbn [broke]; intros H;
      [discriminate H|congruence].
Qed.

Lemma pairsIn_empty blocks lo hi : hi < lo -> pairsIn blocks lo hi = 0.
Proof. intros H. unfold pairsIn. rewrite zrange_empty by exact H. reflexivity. Qed.

Lemma pairsIn_cons blocks lo hi :
  lo <= hi ->
  pairsIn blocks lo hi =
  (if isPairAt blocks lo then 1 else 0) + pairsIn blocks (lo + 1) hi.
Proof.
  intros H. unfold pairsIn. rewrite zrange_cons by exact H. cbn [filter].
  destruct (isPairAt blocks lo); cbn [List.length]; lia.
Qed.

(** The scan counts the link pairs of the indices it visits: up to the
    index where it breaks, or up to the last index of the loop. *)
Lemma scanRegion_count blocks n :
  forall a st st',
    broke st = false -> scanRegion blocks n a st = Some st' ->
    (broke st' = true -> a <= adjustedEnd st' + 14 <= a + Z.of_nat n - 1) /\
    contentLinkPairs st' =
    contentLinkPairs st +
    pairsIn blocks a (if broke st' then adjustedEnd st' + 14
                      else a + Z.of_nat n - 1).
Proof.
  induction n as [|n IH]; intros a st st' B E.
  - cbn [scanRegion] in E. injection E as <-. rewrite B.
    split; [discriminate|]. rewrite pairsIn_empty by lia. lia.
  - cbn [scanRegion] in E.
    destruct (blockGet blocks a) as [block|] eqn:G; [|discriminate].
    cbv zeta in E.
    pose proof (scanBlock_count blocks a block st G) as C.
    destruct (broke (scanBlock blocks a block st)) eqn:B1.
    + injection E as <-. rewrite B1.
      pose proof (scanBlock_broke blocks a block st B B1) as A.
      rewrite A. split; [intros _; lia|].
      replace (a - 14 + 14) with a by lia.
      rewrite pairsIn_cons, pairsIn_empty by lia. lia.
    + destruct (IH (a + 1) _ st' B1 E) as [R K]. split.
      * intros T. specialize (R T). lia.
      * rewrite K, C.
        rewrite (pairsIn_cons blocks a).
        -- replace (a + Z.of_nat (S n) - 1) with (a + 1 + Z.of_nat n - 1) by lia.
           lia.
        -- destruct (broke st') eqn:T; [specialize (R eq_refl)|]; lia.
Qed.

(** The scan of a region that reads no index outside the array. *)
Lemma scanOf_exact blocks region :
  insideArray blocks region ->
  exists st,
    scanOf blocks region = Some st /\
    match firstDenseRun blocks region with
    | Some i => adjustedEnd st = i - 14 /\ consecutivePairs st = 15 /\
                contentLinkPairs st = pairsIn blocks (start region) i
    | None => adjustedEnd st = end_ region /\ 0 <= consecutivePairs st < 15 /\
              contentLinkPairs st =
              pairsIn blocks (start region) (end_ region)
    end.
Proof.
  intros [Hs He]. unfold scanOf, firstDenseRun.
  destruct (Z_lt_le_dec (end_ region) (start region)) as [Lt|Le].
  - replace (Z.to_nat (end_ region - start region + 1)) with O by lia.
    rewrite zrange_empty by exact Lt. cbn [find scanRegion].
    eexists. split; [reflexivity|].
    cbn [adjustedEnd consecutivePairs contentLinkPairs].
    rewrite pairsIn_empty by exact Lt. lia.
  - destruct (scanRegion_spec blocks (start region) (end_ region) Hs He
                (Z.to_nat (end_ region - start region + 1)) (start region) 0 0)
      as [st [E R]]; try lia.
    destruct (scanRegion_count blocks _ _ (mkScan (end_ region) 0 0 false) st
                eq_refl E) as [_ K].
    cbn [contentLinkPairs] in K.
    exists st. split; [exact E|].
    destruct (find _ _) as [i|].
    + destruct R as [R1 [R2 R3]]. rewrite R3, R1 in K.
      replace (i - 14 + 14) with i in K by lia. split; [exact R1|].
      split; [exact R2|]. lia.
    + destruct R as [R1 [R2 R3]]. rewrite R3 in K.
      replace (start region +
               Z.of_nat (Z.to_nat (end_ region - start region + 1)) - 1)
        with (end_ region) in K by lia.
      split; [exact R1|]. split; [exact R2|]. lia.
Qed.

Lemma firstDenseRun_range blocks region i :
  firstDenseRun blocks region = Some i ->
  start region <= i - 14 /\ i <= end_ region /\
  forall j, i - 14 <= j <= i -> isPairAt blocks j = true.
Proof.
  intros F. unfold firstDenseRun in F. apply find_zrange_Some in F.
  destruct F as [Ri [D _]]. unfold denseRunAt in D.
  apply andb_true_iff in D. destruct D as [D1 D2].
  split; [lia|]. split; [lia|].
  intros j Hj. apply (forallb_zrange _ _ _ D2). lia.
Qed.

Lemma pruneRegion_exact blocks region :
  insideArray blocks region ->
  pruneRegion blocks region =
  Some (match spec_pruned blocks region with
        | f :: _ => Some f
        | [] => None
        end).
Proof.
  intros I. destruct (scanOf_exact blocks region I) as [st [E S]].
  unfold pruneRegion, spec_pruned. rewrite E.
  destruct (firstDenseRun blocks region) as [i|] eqn:F.
  - destruct (firstDenseRun_range blocks region i F) as [R _].
    destruct S as [S1 [S2 S3]]. rewrite S1, S2, S3.
    replace (start region <=? i - 14) with true by lia. reflexivity.
  - destruct S as [S1 [S2 S3]]. rewrite S1, S3.
    destruct (start region <=? end_ region); [|reflexivity].
    replace (requiredConsecutive <=? consecutivePairs st) with false
      by (unfold requiredConsecutive; lia).
    reflexivity.
Qed.

Lemma spec_pruned_short blocks region :
  spec_pruned blocks region =
  match spec_pruned blocks region with
  | f :: _ => [f]
  | [] => []
  end.
Proof.
  unfold spec_pruned. destruct (firstDenseRun blocks region); [reflexivity|].
  destruct (start region <=? end_ region); reflexivity.
Qed.

Lemma pruneAll_exact blocks regions finalRegions :
  Forall (insideArray blocks) regions ->
  pruneAll blocks regions finalRegions =
  Some (finalRegions ++ flat_map (spec_pruned blocks) regions).
Proof.
  revert finalRegions.
  induction regions as [|r rs IH]; intros acc F; cbn [pruneAll flat_map].
  - rewrite app_nil_r. reflexivity.
  - inversion F as [|r' rs' I F']; subst.
    rewrite (pruneRegion_exact blocks r I), (spec_pruned_short blocks r).
    destruct (spec_pruned blocks r) as [|f l].
    + apply IH. exact F'.
    + rewrite IH by exact F'. rewrite <- app_assoc. reflexivity.
Qed.

(** C4. Let the pruner run on regions whose scans stay inside the block
    array, and take one of them, [region], with the regions before and after
    it.  When the counter of consecutive link pairs reaches 15 at index [i]
    (the first index of the region where a run of 15 pairs ends), the output
    holds, between what the regions before and after give, the region with
    its end set to [i - 14], which is not below its start, and with
    [linkPatternDetected] set.  When no run of 15 ends inside the region
    (runs of 14 or fewer), the output holds the region with its end as it
    was.  The region is left out of the output exactly when the adjusted end
    is below its start, and that is exactly when its end was below its start
    before the scan. *)
Theorem link_pattern_truncation (blocks : list Block)
  (before after : list Region) (region : Region) :
  Forall (insideArray blocks) (before ++ region :: after) ->
  exists keptBefore keptAfter,
    checkLinkPatterns blocks before = Some keptBefore /\
    checkLinkPatterns blocks after = Some keptAfter /\
    (forall i, firstDenseRun blocks region = Some i ->
       start region <= i - 14 /\ i <= end_ region /\
       (forall j, i - 14 <= j <= i -> isPairAt blocks j = true) /\
       checkLinkPatterns blocks (before ++ region :: after) =
       Some (keptBefore ++
             mkFinal (start region) (i - 14) (reason region)
                     (isFirstRegion region) true
                     (pairsIn blocks (start region) i) :: keptAfter)) /\
    (firstDenseRun blocks region = None -> start region <= end_ region ->
       checkLinkPatterns blocks (before ++ region :: after) =
       Some (keptBefore ++
             mkFinal (start region) (end_ region) (reason region)
                     (isFirstRegion region) false
                     (pairsIn blocks (start region) (end_ region))
             :: keptAfter)) /\
    (exists st,
       scanOf blocks region = Some st /\
       (adjustedEnd st < start region <->
        checkLinkPatterns blocks (before ++ region :: after) =
        Some (keptBefore ++ keptAfter)) /\
       (adjustedEnd st < start region <-> end_ region < start region)).
Proof.
  intros F.
  pose proof F as F0. apply Forall_app in F0. destruct F0 as [Fb F1].
  inversion F1 as [|r' rs' I Fa]; subst.
  exists (flat_map (spec_pruned blocks) before),
         (flat_map (spec_pruned blocks) after).
  rewrite !checkLinkPatterns_pruneAll.
  rewrite (pruneAll_exact blocks before [] Fb),
          (pruneAll_exact blocks after [] Fa),
          (pruneAll_exact blocks _ [] F).
  rewrite !app_nil_l, flat_map_app. cbn [flat_map].
  split; [reflexivity|]. split; [reflexivity|].
  destruct (scanOf_exact blocks region I) as [st [E S]].
  split; [|split].
  - intros i Fi. destruct (firstDenseRun_range blocks region i Fi) as [A [B C]].
    split; [exact A|]. split; [exact B|]. split; [exact C|].
    unfold spec_pruned. rewrite Fi. reflexivity.
  - intros Fn Le. unfold spec_pruned. rewrite Fn.
    replace (start region <=? end_ region) with true by lia. reflexivity.
  - exists st. split; [exact E|].
    assert (L : forall f : FinalRegion,
              Some (flat_map (spec_pruned blocks) before ++
                    [f] ++ flat_map (spec_pruned blocks) after) <>
              Some (flat_map (spec_pruned blocks) before ++
                    flat_map (spec_pruned blocks) after)).
    { intros f H. injection H as H. apply (f_equal (@List.length _)) in H.
      rewrite !length_app in H. cbn [List.length] in H. lia. }
    unfold spec_pruned at 2.
    destruct (firstDenseRun blocks region) as [i|] eqn:Fi.
    + destruct (firstDenseRun_range blocks region i Fi) as [A [B _]].
      destruct S as [S1 _]. rewrite S1. split.
      * split; [lia|]. intros H. exfalso. exact (L _ H).
      * lia.
    + destruct S as [S1 _]. rewrite S1.
      destruct (start region <=? end_ region) eqn:C.
      * split; [|lia]. split; [lia|]. intros H. exfalso. exact (L _ H).
      * split; [|lia]. split; [reflexivity|lia].
Qed.

Lemma link_pattern_truncation_witness :
  checkLinkPatterns fifteenPairs
    ([] ++ mkRegion 0 14 content_start true 10 14
        :: [mkRegion 3 2 content_start false 10 3]) =
  Some [mkFinal 0 0 content_start true true 15] /\
  checkLinkPatterns fourteenPairs
    ([] ++ mkRegion 0 13 content_start true 10 13 :: []) =
  Some [mkFinal 0 13 content_start true false 14] /\
  checkLinkPatterns fifteenPairs
    ([mkRegion 0 1 content_start true 10 1] ++
     mkRegion 3 2 content_start false 10 3 :: []) =
  Some [mkFinal 0 1 content_start true false 2].
Proof.
  assert (P15 : pairsIn fifteenPairs 0 14 = 15) by (vm_compute; reflexivity).
  assert (P14 : pairsIn fourteenPairs 0 13 = 14) by (vm_compute; reflexivity).
  split; [|split].
  - destruct (link_pattern_truncation fifteenPairs []
                [mkRegion 3 2 content_start false 10 3]
                (mkRegion 0 14 content_start true 10 14))
      as [kb [ka [Eb [Ea [A _]]]]].
    { repeat constructor; cbn; lia. }
    vm_compute in Eb, Ea. injection Eb as <-. injection Ea as <-.
    destruct (A 14 ltac:(vm_compute; reflexivity)) as [_ [_ [_ O]]].
    cbn [start end_ reason isFirstRegion] in O. rewrite P15 in O. exact O.
  - destruct (link_pattern_truncation fourteenPairs [] []
                (mkRegion 0 13 content_start true 10 13))
      as [kb [ka [Eb [Ea [_ [B _]]]]]].
    { repeat constructor; cbn; lia. }
    vm_compute in Eb, Ea. injection Eb as <-. injection Ea as <-.
    specialize (B ltac:(vm_compute; reflexivity) ltac:(cbn; lia)).
    cbn [start end_ reason isFirstRegion] in B. rewrite P14 in B. exact B.
  - destruct (link_pattern_truncation fifteenPairs
                [mkRegion 0 1 content_start true 10 1] []
                (mkRegion 3 2 content_start false 10 3))
      as [kb [ka [Eb [Ea [_ [_ [st [_ [D1 D2]]]]]]]]].
    { repeat constructor; cbn; lia. }
    vm_compute in Eb, Ea. injection Eb as <-. injection Ea as <-.
    apply D1, D2. cbn. lia.
Defined.

(** A region inside the array with [start <= end] is never dropped: the run
    of 15 starts at or after [start], so the adjusted end [i - 14], the
    index of the first pair of the run, is not below [start]. *)
Remark pruneRegion_keeps blocks region :
  0 <= start region -> end_ region <= len blocks - 1 ->
  start region <= end_ region ->
  exists f, pruneRegion blocks region = Some (Some f) /\
            fstart f = start region /\ start region <= fend f <= end_ region.
Proof.
  intros Hs He Hse.
  destruct (scanOf_spec blocks region Hs He) as [st [E S]]; [lia|].
  assert (R : start region <= adjustedEnd st <= end_ region).
  { destruct (firstDenseRun blocks region) as [i|] eqn:F; [|lia].
    unfold firstDenseRun in F. apply find_zrange_Some in F.
    destruct F as [Ri [D _]]. unfold denseRunAt in D.
    apply andb_true_iff in D. lia. }
  unfold pruneRegion. rewrite E.
  replace (start region <=? adjustedEnd st) with true by lia.
  eexists. split; [reflexivity|]. cbn. lia.
Qed.

(** ** Block Filter without regions *)

(** On up to 150 counted blocks the binary64 test and the exact test agree. *)
Lemma ratioExceeds_binary64_agree :
  forallb (fun cb =>
             forallb (fun lp => Bool.eqb (ratioExceeds lp cb)
                                         (ratioExceedsBinary64 lp cb))
                     (zrange 0 cb))
          (zrange 1 150) = true.
Proof. vm_compute. reflexivity. Qed.

Lemma linkNearby_code_spec blocks i :
  0 <= i < len blocks ->
  (truthy (link (blockAt blocks i)) ||
   existsb (fun j => truthy (link (blockAt blocks j)))
           (zrange (i + 1) (Z.min (i + 3) (len blocks - 1))))
  = spec_linkNearby blocks i.
Proof.
  intros Hi. apply eq_true_iff_eq. unfold spec_linkNearby.
  rewrite orb_true_iff, existsb_zrange, existsb_exists. split.
  - intros [H|[j [R H]]].
    + exists i. split; [simpl; auto|]. apply andb_true_iff. split; [lia|exact H].
    + exists j. split.
      * assert (j = i + 1 \/ j = i + 2 \/ j = i + 3) as [->|[->| ->]] by lia;
          simpl; auto.
      * apply andb_true_iff. split; [lia|exact H].
  - intros [j [I H]]. apply andb_true_iff in H. destruct H as [B H].
    simpl in I. destruct I as [<-|[<-|[<-|[<-|[]]]]].
    + left. exact H.
    + right. exists (i + 1). split; [lia|exact H].
    + right. exists (i + 2). split; [lia|exact H].
    + right. exists (i + 3). split; [lia|exact H].
Qed.

(** One iteration of the counting loop, in the spec's terms. *)
Lemma countLinkPattern_spec blocks lp cb i :
  0 <= i < len blocks ->
  countLinkPattern blocks (lp, cb) i =
  if spec_hasTitleOrContent blocks i
  then ((if spec_linkNearby blocks i then lp + 1 else lp), cb + 1)
  else (lp, cb).
Proof.
  intros Hi. unfold countLinkPattern. cbv zeta.
  rewrite <- (linkNearby_code_spec blocks i Hi).
  unfold spec_hasTitleOrContent.
  rewrite (orb_comm (truthyTrim (content (blockAt blocks i)))).
  destruct (truthyTrim (title (blockAt blocks i)) ||
            truthyTrim (content (blockAt blocks i))); [|reflexivity].
  destruct (truthy (link (blockAt blocks i))); [reflexivity|].
  cbn [orb]. destruct (existsb _ _); reflexivity.
Qed.

Lemma linkPattern_fold blocks l lp cb :
  (forall i, In i l -> 0 <= i < len blocks) ->
  fold_left (countLinkPattern blocks) l (lp, cb) =
  (lp + Z.of_nat (List.length (filter (spec_linkNearby blocks)
                                 (filter (spec_hasTitleOrContent blocks) l))),
   cb + Z.of_nat (List.length (filter (spec_hasTitleOrContent blocks) l))).
Proof.
  revert lp cb. induction l as [|i l IH]; intros lp cb R; cbn [fold_left filter].
  - cbn. f_equal; lia.
  - rewrite countLinkPattern_spec by (apply R; left; reflexivity).
    assert (R' : forall j, In j l -> 0 <= j < len blocks)
      by (intros j Hj; apply R; right; exact Hj).
    destruct (spec_hasTitleOrContent blocks i).
    + cbn [filter]. destruct (spec_linkNearby blocks i); rewrite IH by exact R';
        cbn [List.length]; f_equal; lia.
    + apply IH. exact R'.
Qed.

Lemma linkPatternCounts_spec blocks :
  linkPatternCounts blocks =
  (Z.of_nat (List.length (filter (spec_linkNearby blocks) (spec_contentIndices blocks))),
   Z.of_nat (List.length (spec_contentIndices blocks))).
Proof.
  unfold linkPatternCounts. rewrite linkPattern_fold.
  - reflexivity.
  - intros i Hi. apply zrange_In in Hi. lia.
Qed.

(** [checkOnlyLinkPatterns] decides the condition of the spec. *)
Lemma checkOnlyLinkPatterns_spec blocks :
  checkOnlyLinkPatterns blocks = true <-> spec_suppressed blocks.
Proof.
  unfold checkOnlyLinkPatterns, spec_suppressed, spec_linkedFraction.
  rewrite linkPatternCounts_spec. cbv zeta.
  set (n := List.length (spec_contentIndices blocks)).
  set (k := List.length (filter _ _)).
  rewrite andb_true_iff. unfold ratioExceeds, Qlt. cbn [Qnum Qden].
  assert (E : (0 < n)%nat -> Z.pos (Pos.of_nat n) = Z.of_nat n).
  { intros H. rewrite <- positive_nat_Z. rewrite Nat2Pos.id by lia. reflexivity. }
  split.
  - intros [P R]. assert (H : (0 < n)%nat) by lia. split; [exact H|].
    rewrite (E H). lia.
  - intros [P R]. rewrite (E P) in R. split; lia.
Qed.

Lemma annotateFrom_blocks index kept :
  map block_of (annotateFrom index kept) = kept.
Proof.
  revert index. induction kept as [|b kept IH]; intros index; cbn; [reflexivity|].
  rewrite IH. reflexivity.
Qed.

Lemma filter_nil_iff {A} (p : A -> bool) l :
  filter p l = [] <-> forall x, In x l -> p x = false.
Proof.
  induction l as [|a l IH]; cbn.
  - split; [intros _ x []|reflexivity].
  - destruct (p a) eqn:P.
    + split; [discriminate|]. intros H. rewrite (H a) in P by auto. discriminate.
    + rewrite IH. split.
      * intros H x [<-|I]; auto.
      * intros H x I. apply H. auto.
Qed.

(** C6, amended.  Without regions, [extractMainContentBlocks] returns the
    empty list when there is a block with a non-empty title or content and
    more than 7/10 of such blocks have a link in the same block or in one of
    the next three; otherwise (a fraction of exactly 7/10 or below, or no
    such block) it returns the Block Filter applied to the whole sequence.
    So the result is empty exactly when the fraction exceeds 7/10 or no block
    passes the Block Filter. *)
Theorem no_region_suppression (blocks : list Block) :
  (spec_suppressed blocks -> extractMainContentBlocks blocks [] = Some []) /\
  (~ spec_suppressed blocks ->
   extractMainContentBlocks blocks [] = Some (filterWholeSequence blocks) /\
   map block_of (filterWholeSequence blocks) = filter shouldIncludeBlock blocks) /\
  (extractMainContentBlocks blocks [] = Some [] <->
   spec_suppressed blocks \/
   (forall block, In block blocks -> shouldIncludeBlock block = false)).
Proof.
  pose proof (checkOnlyLinkPatterns_spec blocks) as S.
  unfold extractMainContentBlocks. cbv zeta.
  destruct (checkOnlyLinkPatterns blocks) eqn:C.
  - assert (spec_suppressed blocks) by (apply S; reflexivity).
    split; [reflexivity|]. split; [tauto|]. split; [auto|reflexivity].
  - assert (N : ~ spec_suppressed blocks)
      by (intros H; apply S in H; discriminate).
    split; [tauto|]. split.
    + intros _. split; [reflexivity|]. apply annotateFrom_blocks.
    + rewrite <- filter_nil_iff. unfold filterWholeSequence. split.
      * intros E. right. injection E as E.
        rewrite <- (annotateFrom_blocks 0 (filter shouldIncludeBlock blocks)).
        rewrite E. reflexivity.
      * intros [H|H]; [tauto|]. rewrite H. reflexivity.
Qed.

Lemma no_region_suppression_witness :
  extractMainContentBlocks eightOfEleven [] = Some [] /\
  (extractMainContentBlocks sevenOfTen [] = Some (filterWholeSequence sevenOfTen) /\
   map block_of (filterWholeSequence sevenOfTen) =
   filter shouldIncludeBlock sevenOfTen).
Proof.
  split.
  - apply (proj1 (no_region_suppression eightOfEleven)).
    split.
    + vm_compute. repeat constructor.
    + vm_compute. reflexivity.
  - apply (proj1 (proj2 (no_region_suppression sevenOfTen))).
    intros [_ H]. vm_compute in H. discriminate.
Defined.

(** C6 as stated fails: for the single short block no region is detected
    and the linked fraction is 0, yet the result is the empty list, because
    the Block Filter drops the block. *)
Lemma no_region_suppression_counterexample :
  checkLinkPatterns [shortBlock] (detectContentRegions [shortBlock]) = Some [] /\
  ~ (extractMainContentBlocks [shortBlock] [] = Some [] <->
     spec_suppressed [shortBlock]).
Proof.
  split; [reflexivity|].
  intros [H _]. destruct (H eq_refl) as [_ Q].
  vm_compute in Q. discriminate.
Qed.

(** ** The pipeline never raises *)

Lemma pruneAll_total blocks rs acc :
  Forall (regionInBounds blocks) rs -> Forall (finalInBounds blocks) acc ->
  exists fs, pruneAll blocks rs acc = Some fs /\ Forall (finalInBounds blocks) fs.
Proof.
  revert acc. induction rs as [|r rs IH]; intros acc R A; cbn [pruneAll].
  - exists acc. auto.
  - inversion R as [|r' rs' [B1 [B2 B3]] R']; subst.
    destruct (pruneRegion_keeps blocks r B1 B3 B2) as [f [E [S F]]].
    rewrite E. apply IH; [exact R'|].
    apply Forall_app. split; [exact A|]. constructor; [|constructor].
    unfold finalInBounds. lia.
Qed.

Lemma extractRegion_total blocks region indices out :
  (forall i, In i indices -> 0 <= i) ->
  exists out', extractRegion blocks region indices out = Some out'.
Proof.
  revert out. induction indices as [|i l IH]; intros out H; cbn [extractRegion].
  - eexists. reflexivity.
  - assert (H' : forall j, In j l -> 0 <= j) by (intros j I; apply H; right; exact I).
    destruct (i <? len blocks) eqn:L; [|apply IH; exact H'].
    destruct (blockGet_in_range blocks i) as [b G].
    { specialize (H i (or_introl eq_refl)). lia. }
    rewrite G. destruct (shouldIncludeBlock b); apply IH; exact H'.
Qed.

Lemma extractRegions_total blocks fs out :
  Forall (finalInBounds blocks) fs ->
  exists out', extractRegions blocks fs out = Some out'.
Proof.
  revert out. induction fs as [|f fs IH]; intros out F; cbn [extractRegions].
  - eexists. reflexivity.
  - inversion F as [|f' fs' [B1 _] F']; subst.
    destruct (extractRegion_total blocks f (zrange (fstart f) (fend f)) out)
      as [out' E].
    { intros i I. apply zrange_In in I. lia. }
    rewrite E. apply IH. exact F'.
Qed.

(** The detector, the pruner and the filter, run one after the other, return
    a list for every sequence: no block outside the array is read. *)
Lemma detectAndFilterMainContent_total blocks :
  exists kept, detectAndFilterMainContent blocks = Some kept.
Proof.
  unfold detectAndFilterMainContent.
  destruct blocks as [|b blocks]; [eexists; reflexivity|].
  set (bs := b :: blocks).
  destruct (pruneAll_total bs (detectContentRegions bs) [])
    as [fs [E F]]; [apply detectContentRegions_in_bounds|constructor|].
  rewrite checkLinkPatterns_pruneAll, E.
  unfold extractMainContentBlocks.
  destruct fs as [|f fs].
  - destruct (checkOnlyLinkPatterns bs); eexists; reflexivity.
  - apply extractRegions_total. exact F.
Qed.

(** The end-to-end example of the spec: a title, a paragraph of twenty
    words and a short linked fragment; the first two are kept. *)
Example pipeline_keeps_title_and_paragraph :
  option_map (map block_of)
    (detectAndFilterMainContent [titleBlock; contentBlock 20; shortLinkBlock])
  = Some [titleBlock; contentBlock 20].
Proof. reflexivity. Qed.

(** ** Lightweight fetch *)

Module Fetch.
Import NonBrowserCrawler.
Local Open Scope string_scope.

Section Retry.

Variable extractStructuredContent : string -> string -> string + ExtractedData.
Variable url : string.
Variable net : nat -> AxiosOutcome.

Lemma attempts_S (m : Z) (fuel : nat) (attempt : Z) :
  attempts extractStructuredContent url m (S fuel) attempt =
  Get url requestConfig (fun outcome =>
    match tryBlock extractStructuredContent url outcome with
    | inr result => Ret (Some result)
    | inl message =>
        if (m <? attempt)%Z
        then Ret (Some (failure message))
        else if (attempt <=? m)%Z
             then Sleep (retryDelay * attempt)
                    (attempts extractStructuredContent url m fuel (attempt + 1))
             else attempts extractStructuredContent url m fuel (attempt + 1)
    end).
Proof. reflexivity. Qed.

Lemma run_Get {A} n u c (k : AxiosOutcome -> Prog A) :
  run net n (Get u c k) =
  let '(a, t) := run net (S n) (k (net n)) in (a, DidGet u c :: t).
Proof. reflexivity. Qed.

Lemma run_Sleep {A} n ms (k : Prog A) :
  run net n (Sleep ms k) = let '(a, t) := run net n k in (a, DidSleep ms :: t).
Proof. reflexivity. Qed.

(** All the attempts that are left fail: the last error is returned as a
    failure result, after a request per attempt and a timer between two
    requests. *)
Lemma attempts_all_fail (messages : nat -> string) (m : Z) :
  forall (fuel : nat) (attempt : Z) (n : nat),
    Z.of_nat (S fuel) = (m + 2 - attempt)%Z ->
    (forall j, (j <= fuel)%nat -> tryBlock extractStructuredContent url (net (n + j)%nat) = inl (messages (n + j)%nat)) ->
    run net n (attempts extractStructuredContent url m (S fuel) attempt) =
    (Some (failure (messages (n + fuel)%nat)), spec_schedule url (S fuel) attempt).
Proof.
  induction fuel as [|fuel IH]; intros attempt n E F.
  - pose proof (F O ltac:(lia)) as F0. rewrite !Nat.add_0_r in *.
    rewrite attempts_S, run_Get, F0.
    replace (m <? attempt)%Z with true by lia. reflexivity.
  - pose proof (F O ltac:(lia)) as F0. rewrite !Nat.add_0_r in F0.
    rewrite attempts_S, run_Get, F0.
    replace (m <? attempt)%Z with false by lia.
    replace (attempt <=? m)%Z with true by lia.
    rewrite run_Sleep.
    rewrite (IH (attempt + 1)%Z (S n)).
    + replace (S n + fuel)%nat with (n + S fuel)%nat by lia. reflexivity.
    + lia.
    + intros j Hj. replace (S n + j)%nat with (n + S j)%nat by lia.
      apply F. lia.
Qed.

(** The attempt after [k] failed ones succeeds: its result is returned. *)
Lemma attempts_first_success (m : Z) (result : CrawlResult) :
  forall (k fuel : nat) (attempt : Z) (n : nat),
    Z.of_nat fuel = (m + 2 - attempt)%Z -> (k < fuel)%nat ->
    (forall j, (j < k)%nat -> exists message, tryBlock extractStructuredContent url (net (n + j)%nat) = inl message) ->
    tryBlock extractStructuredContent url (net (n + k)%nat) = inr result ->
    run net n (attempts extractStructuredContent url m fuel attempt) =
    (Some result, spec_schedule url (S k) attempt).
Proof.
  induction k as [|k IH]; intros fuel attempt n E L F OK.
  - destruct fuel as [|fuel]; [lia|].
    rewrite Nat.add_0_r in OK. rewrite attempts_S, run_Get, OK. reflexivity.
  - destruct fuel as [|fuel]; [lia|].
    destruct (F O) as [message M]; [lia|]. rewrite Nat.add_0_r in M.
    rewrite attempts_S, run_Get, M.
    replace (m <? attempt)%Z with false by lia.
    replace (attempt <=? m)%Z with true by lia.
    rewrite run_Sleep.
    rewrite (IH fuel (attempt + 1)%Z (S n)).
    + reflexivity.
    + lia.
    + lia.
    + intros j Hj. replace (S n + j)%nat with (n + S j)%nat by lia.
      apply F. lia.
    + replace (S n + k)%nat with (n + S k)%nat by lia. exact OK.
Qed.

Lemma crawlUrl_all_fail (options : Options) (messages : nat -> string) :
  (0 <= chosenMaxRetries options)%Z ->
  (forall j, (Z.of_nat j <= chosenMaxRetries options)%Z ->
             tryBlock extractStructuredContent url (net j) = inl (messages j)) ->
  run net 0 (crawlUrl extractStructuredContent url options) =
  (Some (failure (messages (Z.to_nat (chosenMaxRetries options)))),
   spec_schedule url (S (Z.to_nat (chosenMaxRetries options))) 1).
Proof.
  intros M F. unfold crawlUrl. cbv zeta.
  replace (Z.to_nat (chosenMaxRetries options + 1))
    with (S (Z.to_nat (chosenMaxRetries options))) by lia.
  apply (attempts_all_fail messages (chosenMaxRetries options)
           (Z.to_nat (chosenMaxRetries options)) 1%Z O).
  - lia.
  - intros j Hj. apply F. lia.
Qed.

End Retry.

(** A response that is not HTML throws into the [catch] of the retry loop
    like every other error. *)
Lemma nonHtml_is_caught extract url response :
  includes "text/html"
    (match contentTypeHeader response with Some h => h | None => "" end) = false ->
  tryBlock extract url (Resolved response) =
  inl ("Non-HTML content type: " ++
       match contentTypeHeader response with Some h => h | None => "" end).
Proof.
  intros H. unfold tryBlock. cbv zeta. rewrite H. reflexivity.
Qed.

(** C7, amended.  Every failed attempt is retried, a response that is not
    HTML included (it is an error thrown into the same [catch]): with
    [maxRetries] retries (2 unless the options give another non-zero
    number) there are at most [maxRetries + 1] requests, each following up
    to 5 redirects, with a timer of [retryDelay * attempt] after the failed
    attempt number [attempt]; the first attempt that succeeds returns its
    result, and when all fail a failure result with the last error is
    returned. *)
Theorem fetch_retry_schedule
  (extract : string -> string -> string + ExtractedData)
  (url : string) (options : Options) (net : nat -> AxiosOutcome) :
  (forall response,
     includes "text/html"
       (match contentTypeHeader response with Some h => h | None => "" end)
     = false ->
     tryBlock extract url (Resolved response) =
     inl ("Non-HTML content type: " ++
          match contentTypeHeader response with Some h => h | None => "" end)) /\
  (forall messages,
     (0 <= chosenMaxRetries options)%Z ->
     (forall j, (Z.of_nat j <= chosenMaxRetries options)%Z ->
                tryBlock extract url (net j) = inl (messages j)) ->
     run net 0 (crawlUrl extract url options) =
     (Some (failure (messages (Z.to_nat (chosenMaxRetries options)))),
      spec_schedule url (S (Z.to_nat (chosenMaxRetries options))) 1)) /\
  (forall k result,
     (Z.of_nat k <= chosenMaxRetries options)%Z ->
     (forall j, (j < k)%nat ->
                exists message, tryBlock extract url (net j) = inl message) ->
     tryBlock extract url (net k) = inr result ->
     run net 0 (crawlUrl extract url options) =
     (Some result, spec_schedule url (S k) 1)) /\
  chosenMaxRetries (mkOptions None) = 2%Z /\
  cfgMaxRedirects requestConfig = 5%Z /\
  (forall n attempt,
     spec_schedule url (S (S n)) attempt =
     DidGet url requestConfig :: DidSleep (retryDelay * attempt)
       :: spec_schedule url (S n) (attempt + 1)).
Proof.
  split; [|split; [|split; [|split; [|split]]]].
  - intros response H. apply nonHtml_is_caught. exact H.
  - intros messages M F. apply crawlUrl_all_fail; assumption.
  - intros k result K F S. unfold crawlUrl. cbv zeta.
    apply (attempts_first_success extract url net (chosenMaxRetries options)
             result k _ 1%Z O); try assumption; lia.
  - reflexivity.
  - reflexivity.
  - reflexivity.
Qed.

Lemma fetch_retry_schedule_witness :
  tryBlock extractNothing "http://example.com/data" (Resolved jsonResponse) =
  inl "Non-HTML content type: application/json" /\
  run alwaysTimeout 0
    (crawlUrl extractNothing "http://example.com/" (mkOptions None)) =
  (Some (failure "timeout of 30000ms exceeded"),
   spec_schedule "http://example.com/" 3 1) /\
  run htmlOnThird 0
    (crawlUrl extractNothing "http://example.com/" (mkOptions None)) =
  (Some (mkCrawlResult true (Some "non_browser") (Some 200%Z) (Some 13%Z)
           (Some noItems) None None),
   spec_schedule "http://example.com/" 3 1).
Proof.
  split; [|split].
  - apply (proj1 (fetch_retry_schedule extractNothing "http://example.com/data"
                    (mkOptions None) alwaysJson)).
    reflexivity.
  - apply (proj1 (proj2 (fetch_retry_schedule extractNothing
                           "http://example.com/" (mkOptions None) alwaysTimeout))
             (fun _ => "timeout of 30000ms exceeded")).
    + vm_compute. discriminate.
    + intros j Hj. reflexivity.
  - apply (proj1 (proj2 (proj2 (fetch_retry_schedule extractNothing
                           "http://example.com/" (mkOptions None) htmlOnThird)))
             2%nat).
    + vm_compute. discriminate.
    + intros j Hj. exists "socket hang up".
      destruct j as [|[|j]]; [reflexivity|reflexivity|lia].
    + reflexivity.
Defined.

(** C7 as stated fails: when every response is JSON, the request is made
    three times, with timers of 1000 and 2000 ms in between, before the
    failure is returned. *)
Lemma nonHtml_retried_counterexample :
  run alwaysJson 0
    (crawlUrl extractNothing "http://example.com/data" (mkOptions None)) =
  (Some (failure "Non-HTML content type: application/json"),
   [DidGet "http://example.com/data" requestConfig; DidSleep 1000;
    DidGet "http://example.com/data" requestConfig; DidSleep 2000;
    DidGet "http://example.com/data" requestConfig]) /\
  countGets (snd (run alwaysJson 0
                    (crawlUrl extractNothing "http://example.com/data"
                       (mkOptions None)))) <> 1%nat.
Proof.
  split; [reflexivity|]. vm_compute. discriminate.
Qed.

(** The order in which [shouldFallbackToBrowser] decides: true when the
    lower-cased message holds "timeout", "empty", "no content" or
    "javascript"; otherwise false when it holds "enotfound", "econnrefused"
    or "certificate"; otherwise true, for "403", "503" and "cloudflare" as
    for every other message.  When all attempts have failed, [crawlUrl]
    returns the object [{ success: false, error, shouldFallbackToBrowser }]
    with the message of the last error; it does not throw. *)
Lemma fallback_classification (message : string) :
  (mentionsAny spec_escalating message = true ->
   shouldFallbackToBrowser message = true) /\
  (mentionsAny spec_escalating message = false ->
   mentionsAny spec_networkLayer message = true ->
   shouldFallbackToBrowser message = false) /\
  (mentionsAny spec_blocked message = true ->
   mentionsAny spec_networkLayer message = false ->
   shouldFallbackToBrowser message = true) /\
  (mentionsAny spec_networkLayer message = false ->
   shouldFallbackToBrowser message = true) /\
  (forall extract url options net messages,
     (0 <= chosenMaxRetries options)%Z ->
     (forall j, (Z.of_nat j <= chosenMaxRetries options)%Z ->
                tryBlock extract url (net j) = inl (messages j)) ->
     messages (Z.to_nat (chosenMaxRetries options)) = message ->
     fst (run net 0 (crawlUrl extract url options)) =
     Some (mkCrawlResult false (Some "non_browser") None None None
             (Some message) (Some (shouldFallbackToBrowser message)))).
Proof.
  assert (C :
    (mentionsAny spec_escalating message = true ->
     shouldFallbackToBrowser message = true) /\
    (mentionsAny spec_escalating message = false ->
     mentionsAny spec_networkLayer message = true ->
     shouldFallbackToBrowser message = false) /\
    (mentionsAny spec_networkLayer message = false ->
     shouldFallbackToBrowser message = true)).
  { unfold shouldFallbackToBrowser, mentionsAny, spec_escalating,
      spec_networkLayer. cbn [existsb]. cbv zeta.
    set (lm := toLowerCase message).
    destruct (includes "timeout" lm), (includes "empty" lm),
      (includes "no content" lm), (includes "javascript" lm),
      (includes "enotfound" lm), (includes "econnrefused" lm),
      (includes "certificate" lm);
      cbn [orb]; repeat split; intros; try reflexivity; try discriminate;
      destruct (_ || _); reflexivity. }
  destruct C as [C1 [C2 C3]].
  split; [exact C1|]. split; [exact C2|]. split; [intros _; exact C3|].
  split; [exact C3|].
  intros extract url options net messages M F L.
  rewrite (crawlUrl_all_fail extract url net options messages M F).
  cbn [fst]. rewrite L. reflexivity.
Qed.

Example fallback_classes :
  shouldFallbackToBrowser "timeout of 30000ms exceeded" = true /\
  shouldFallbackToBrowser "connect ECONNREFUSED 127.0.0.1:80" = false /\
  shouldFallbackToBrowser "getaddrinfo ENOTFOUND example.invalid" = false /\
  shouldFallbackToBrowser "unable to verify the first certificate" = false /\
  shouldFallbackToBrowser "Request failed with status code 403" = true /\
  shouldFallbackToBrowser "Request failed with status code 503" = true /\
  shouldFallbackToBrowser "socket hang up" = true.
Proof. repeat split; reflexivity. Qed.

(** C8, at the failing input.  When every attempt fails with the
    name-resolution error for the host [javascript.info], [crawlUrl]
    returns the structured failure result after three requests, and its
    hint [shouldFallbackToBrowser] is true although the message holds
    "enotfound": the test for "javascript" is made first. *)
Theorem enotfound_javascript_escalates :
  mentionsAny spec_networkLayer "getaddrinfo ENOTFOUND javascript.info" = true /\
  shouldFallbackToBrowser "getaddrinfo ENOTFOUND javascript.info" = true /\
  run alwaysEnotfound 0
    (crawlUrl extractNothing "https://javascript.info/" (mkOptions None)) =
  (Some (mkCrawlResult false (Some "non_browser") None None None
           (Some "getaddrinfo ENOTFOUND javascript.info") (Some true)),
   spec_schedule "https://javascript.info/" 3 1).
Proof. repeat split; reflexivity. Qed.

End Fetch.

(** ** Fetch Strategy Selector *)

Module Selector.
Import Coordinator.
Local Open Scope string_scope.

Lemma finish_method url domain crawlResult :
  outMethod (finish url domain crawlResult) = Some "non_browser" \/
  (outMethod (finish url domain crawlResult) = None /\
   outSuccess (finish url domain crawlResult) = false).
Proof.
  unfold finish. cbv zeta.
  destruct (success crawlResult); [|left; reflexivity].
  destruct (extractedData crawlResult) as [extracted|]; [|right; split; reflexivity].
  destruct (convertToSimpleBlocks (pageData extracted));
    [left; reflexivity|right; split; reflexivity].
Qed.

Lemma finish_ignores_hint url domain crawlResult hint :
  finish url domain (setHint crawlResult hint) = finish url domain crawlResult.
Proof. reflexivity. Qed.

(** [executeBrowserCrawl] does await the browser crawler. *)
Lemma executeBrowserCrawl_calls_browser url :
  ~ NoBrowserCall (executeBrowserCrawl url).
Proof. intros H. inversion H. Qed.

(** C10. [crawlUrl] of the coordinator never awaits the browser crawler:
    it performs exactly one fetch, with the non-browser crawler (none when
    the URL does not parse and the call throws); every object it returns
    has method ['non_browser'], or no method and [success: false] after an
    internal exception; and the result and the fetches are the same
    whatever hint [shouldFallbackToBrowser] the non-browser crawler returned
    and whatever the browser crawler would answer. *)
Theorem crawlUrl_never_browser (hostnameOf : string -> option string)
  (url : string) :
  NoBrowserCall (crawlUrl hostnameOf url) /\
  (forall nonBrowser browser,
     snd (runCall nonBrowser browser (crawlUrl hostnameOf url)) =
     match hostnameOf url with
     | Some _ => [NonBrowserFetch url]
     | None => []
     end) /\
  (forall nonBrowser browser out,
     fst (runCall nonBrowser browser (crawlUrl hostnameOf url)) = inr out ->
     outMethod out = Some "non_browser" \/
     (outMethod out = None /\ outSuccess out = false)) /\
  (forall nonBrowser browser browser' hint,
     runCall (fun u => withHint hint (nonBrowser u)) browser'
             (crawlUrl hostnameOf url) =
     runCall nonBrowser browser (crawlUrl hostnameOf url)).
Proof.
  unfold crawlUrl, extractDomainName.
  destruct (hostnameOf url) as [domain|].
  - split; [|split; [|split]].
    + cbn. constructor. intros [result|message]; constructor.
    + intros nonBrowser browser. cbn.
      destruct (nonBrowser url); reflexivity.
    + intros nonBrowser browser out. cbn.
      destruct (nonBrowser url) as [result|message]; cbn; intros E;
        injection E as <-; first [apply finish_method | left; reflexivity].
    + intros nonBrowser browser browser' hint. cbn.
      destruct (nonBrowser url) as [result|message]; cbn; [|reflexivity].
      rewrite finish_ignores_hint. reflexivity.
  - split; [|split; [|split]].
    + constructor.
    + reflexivity.
    + intros nonBrowser browser out. cbn. discriminate.
    + reflexivity.
Qed.

Lemma crawlUrl_never_browser_witness :
  outMethod (mkOutcome false "http://example.com/" "example.com"
               (Some "non_browser") None
               (Some "timeout of 30000ms exceeded")) = Some "non_browser" \/
  (outMethod (mkOutcome false "http://example.com/" "example.com"
                (Some "non_browser") None
                (Some "timeout of 30000ms exceeded")) = None /\
   outSuccess (mkOutcome false "http://example.com/" "example.com"
                 (Some "non_browser") None
                 (Some "timeout of 30000ms exceeded")) = false).
Proof.
  apply (proj1 (proj2 (proj2 (crawlUrl_never_browser anyHost
                                "http://example.com/")))
           failingNonBrowser someBrowser).
  reflexivity.
Defined.

End Selector.

(** * Further properties *)

(** ** The shape of the detected regions *)

Lemma blockAt_outside blocks k :
  k < 0 \/ len blocks <= k -> blockAt blocks k = emptyBlock.
Proof.
  intros H. unfold blockAt, blockGet.
  destruct (k <? 0) eqn:N; [reflexivity|].
  destruct (nth_error blocks (Z.to_nat k)) as [b|] eqn:E; [|reflexivity].
  assert (Z.to_nat k < List.length blocks)%nat
    by (apply nth_error_Some; congruence).
  unfold len in H. lia.
Qed.

Lemma validAt_in_range blocks k :
  validAt blocks k = true -> 0 <= k <= len blocks - 1.
Proof.
  intros V.
  destruct (Z_lt_le_dec k 0) as [L|L].
  - unfold validAt in V. rewrite blockAt_outside in V by (left; exact L).
    discriminate.
  - destruct (Z_lt_le_dec k (len blocks)) as [U|U]; [lia|].
    unfold validAt in V. rewrite blockAt_outside in V by (right; exact U).
    discriminate.
Qed.

Lemma covered_app_l rs rs' k : covered rs k -> covered (rs ++ rs') k.
Proof.
  intros [r [I R]]. exists r. split; [apply in_or_app; left; exact I|exact R].
Qed.

Lemma covered_last rs r k : start r <= k <= end_ r -> covered (rs ++ [r]) k.
Proof.
  intros R. exists r. split; [apply in_or_app; right; left; reflexivity|exact R].
Qed.

Lemma covered_grow rs r r' k :
  start r' = start r -> end_ r <= end_ r' ->
  covered (rs ++ [r]) k -> covered (rs ++ [r']) k.
Proof.
  intros S E [x [I R]]. apply in_app_or in I. destruct I as [I|[<-|[]]].
  - exists x. split; [apply in_or_app; left; exact I|exact R].
  - apply covered_last. lia.
Qed.

(** The second half of the loop body keeps the geometry. *)
Lemma checkEnd_geom blocks i rs r fl :
  0 <= i < len blocks ->
  Forall (closedShape blocks) rs ->
  validAt blocks (start r) = true ->
  validAt blocks (lastValidContentIndex r) = true ->
  start r <= lastValidContentIndex r ->
  end_ r = Z.min (lastValidContentIndex r + extendRange r - 1) (len blocks - 1) ->
  1 <= extendRange r -> i <= end_ r ->
  (forall k, lastValidContentIndex r < k <= i -> validAt blocks k = false) ->
  (forall k, i < k < lastValidContentIndex r -> validAt blocks k = false) ->
  (forall k, 0 <= k <= i -> validAt blocks k = true -> covered (rs ++ [r]) k) ->
  detectGeom blocks (i + 1) (checkEnd blocks i (mkDetect rs (Some r) fl)).
Proof.
  intros Hi F Vs Vl Sl E W Ie N1 N2 C.
  pose proof (validAt_in_range blocks _ Vl) as Rl.
  unfold checkEnd. cbn [currentRegion regions isFirstContentRegion].
  destruct (end_ r <=? i) eqn:Q.
  - assert (end_ r = i) by lia.
    destruct (lookAhead blocks (lastValidContentIndex r)) as [j|] eqn:LA.
    + apply lookAhead_Some in LA. destruct LA as [R [R10 [Vj Nj]]].
      assert (i < j).
      { destruct (Z_lt_le_dec i j) as [|Hle]; [assumption|].
        rewrite N1 in Vj by lia. discriminate. }
      unfold detectGeom, allRegions.
      cbn [currentRegion regions setEnd start end_ extendRange
           lastValidContentIndex].
      split; [exact F|]. split.
      * intros r' E'. injection E' as <-. unfold openShape.
        cbn [setEnd start end_ extendRange lastValidContentIndex].
        split; [exact Vs|]. split; [exact Vj|]. split; [lia|].
        split; [reflexivity|]. split; intros k Hk; [lia|apply Nj; lia].
      * intros k Hk V.
        apply (covered_grow rs r); cbn [setEnd start end_]; try lia.
        apply C; [lia|exact V].
    + unfold detectGeom, allRegions. cbn [currentRegion regions].
      split; [|split; [intros r' E'; discriminate|]].
      * apply Forall_app. split; [exact F|]. constructor; [|constructor].
        unfold closedShape. split; [exact Vs|]. split; [exact Vl|].
        split; [lia|]. split; [exact E|].
        split; [intros k Hk; apply N1; lia|].
        intros k Hk.
        destruct (Z_le_gt_dec k (len blocks - 1)) as [In|Out].
        -- apply (proj1 (lookAhead_None blocks _) LA). lia.
        -- apply not_true_is_false. intros Vk.
           apply validAt_in_range in Vk. lia.
      * intros k Hk V. rewrite app_nil_r. apply C; [lia|exact V].
  - unfold detectGeom, allRegions. cbn [currentRegion regions].
    split; [exact F|]. split.
    + intros r' E'. injection E' as <-. unfold openShape.
      split; [exact Vs|]. split; [exact Vl|]. split; [exact Sl|].
      split; [exact E|]. split; intros k Hk; [apply N1|apply N2]; lia.
    + intros k Hk V. apply C; [lia|exact V].
Qed.

Lemma detectGeom_init blocks : detectGeom blocks 0 detectInit.
Proof.
  unfold detectGeom, detectInit, allRegions. cbn.
  split; [constructor|]. split; [intros r E; discriminate|]. intros k Hk. lia.
Qed.

Lemma detectStep_geom blocks hf i st :
  0 <= i < len blocks ->
  detectInv blocks i st -> detectGeom blocks i st ->
  detectGeom blocks (i + 1) (detectStep blocks hf st i).
Proof.
  intros Hi [_ [_ I]] [F [O C]]. unfold detectStep, openOrExtend.
  fold (validAt blocks i). cbv zeta.
  destruct st as [rs cur fl].
  unfold allRegions in C.
  cbn [currentRegion regions isFirstContentRegion] in *.
  destruct (validAt blocks i) eqn:V.
  - destruct cur as [r|].
    + destruct I as [_ [S0 [Si [Ie [El [W _]]]]]].
      destruct (O r eq_refl) as [Vs [Vl [Sl [E [N1 N2]]]]].
      assert (lastValidContentIndex r <= i).
      { destruct (Z_lt_le_dec i (lastValidContentIndex r)) as [L|]; [|lia].
        rewrite N2 in V by lia. discriminate. }
      assert (CI : forall k, 0 <= k <= i -> validAt blocks k = true ->
                             covered (rs ++ [r]) k).
      { intros k Hk Vk. destruct (Z.eq_dec k i) as [->|];
          [apply covered_last; lia|apply C; [lia|exact Vk]]. }
      destruct (end_ r <? Z.min (i + extendRange r - 1) (len blocks - 1)) eqn:Q.
      * apply checkEnd_geom;
          cbn [setEnd start end_ extendRange lastValidContentIndex];
          try assumption; try lia.
        intros k Hk Vk. apply (covered_grow rs r);
          cbn [setEnd start end_]; try lia. apply CI; assumption.
      * apply checkEnd_geom;
          cbn [setEnd start end_ extendRange lastValidContentIndex];
          try assumption; try lia.
        intros k Hk Vk. apply (covered_grow rs r);
          cbn [setEnd start end_]; try lia. apply CI; assumption.
    + set (w := if fl && negb hf then 20 else 10).
      assert (10 <= w) by (subst w; destruct (fl && negb hf); lia).
      apply checkEnd_geom; cbn [start end_ extendRange lastValidContentIndex];
        try assumption; try lia.
      intros k Hk Vk. destruct (Z.eq_dec k i) as [->|].
      * apply covered_last. cbn [start end_]. lia.
      * apply covered_app_l. rewrite app_nil_r in C. apply C; [lia|exact Vk].
  - destruct cur as [r|].
    + destruct I as [_ [S0 [Si [Ie [El [W _]]]]]].
      destruct (O r eq_refl) as [Vs [Vl [Sl [E [N1 N2]]]]].
      apply checkEnd_geom; try assumption; try lia.
      * intros k Hk. destruct (Z.eq_dec k i) as [->|]; [exact V|]. apply N1. lia.
      * intros k Hk. apply N2. lia.
      * intros k Hk Vk. destruct (Z.eq_dec k i) as [->|]; [congruence|].
        apply C; [lia|exact Vk].
    + unfold checkEnd. cbn [currentRegion]. unfold detectGeom, allRegions.
      cbn [currentRegion regions]. split; [exact F|].
      split; [intros r E; discriminate|].
      intros k Hk Vk. destruct (Z.eq_dec k i) as [->|]; [congruence|].
      apply C; [lia|exact Vk].
Qed.

Lemma stateAt_geom blocks n :
  0 <= n <= len blocks -> detectGeom blocks n (stateAt blocks n).
Proof.
  intros H. rewrite <- (Z2Nat.id n) by lia.
  assert (B : (Z.to_nat n <= List.length blocks)%nat) by (unfold len in H; lia).
  induction (Z.to_nat n) as [|m IH].
  - rewrite stateAt_0. apply detectGeom_init.
  - rewrite Nat2Z.inj_succ, <- Z.add_1_r. rewrite stateAt_succ by lia.
    apply detectStep_geom.
    + unfold len. lia.
    + apply stateAt_inv. unfold len. lia.
    + apply IH. lia.
Qed.

Lemma checkEnd_openings blocks i st :
  map opening (allRegions (checkEnd blocks i st)) = map opening (allRegions st) /\
  isFirstContentRegion (checkEnd blocks i st) = isFirstContentRegion st.
Proof.
  unfold checkEnd. destruct st as [rs cur fl].
  cbn [currentRegion regions isFirstContentRegion].
  destruct cur as [r|]; [|split; reflexivity].
  destruct (end_ r <=? i); [destruct (lookAhead blocks _)|];
    unfold allRegions; cbn [currentRegion regions isFirstContentRegion];
    rewrite ?map_app, ?app_nil_r; split; reflexivity.
Qed.

Lemma openOrExtend_openings blocks hf st i :
  let opens := validAt blocks i &&
               match currentRegion st with None => true | Some _ => false end in
  map opening (allRegions (openOrExtend blocks hf i st)) =
  map opening (allRegions st) ++
  (if opens
   then [(i, isFirstContentRegion st,
          (if isFirstContentRegion st && negb hf then 20 else 10),
          reasonAt blocks i)]
   else []) /\
  isFirstContentRegion (openOrExtend blocks hf i st) =
  (if opens then false else isFirstContentRegion st).
Proof.
  cbv zeta. unfold openOrExtend, reasonAt. fold (validAt blocks i).
  cbv zeta. destruct st as [rs cur fl].
  cbn [currentRegion regions isFirstContentRegion].
  destruct (validAt blocks i); destruct cur as [r|]; cbn [andb].
  - destruct (end_ r <? _); unfold allRegions;
      cbn [currentRegion regions isFirstContentRegion];
      rewrite ?map_app, ?app_nil_r; split; reflexivity.
  - unfold allRegions. cbn [currentRegion regions isFirstContentRegion].
    rewrite ?map_app, ?app_nil_r. split; reflexivity.
  - rewrite app_nil_r. split; reflexivity.
  - rewrite app_nil_r. split; reflexivity.
Qed.

(** A step appends the opening of the region it opens, if it opens one, and
    changes no other opening. *)
Lemma detectStep_openings blocks hf st i :
  let opens := validAt blocks i &&
               match currentRegion st with None => true | Some _ => false end in
  map opening (allRegions (detectStep blocks hf st i)) =
  map opening (allRegions st) ++
  (if opens
   then [(i, isFirstContentRegion st,
          (if isFirstContentRegion st && negb hf then 20 else 10),
          reasonAt blocks i)]
   else []) /\
  isFirstContentRegion (detectStep blocks hf st i) =
  (if opens then false else isFirstContentRegion st).
Proof.
  cbv zeta. unfold detectStep.
  destruct (checkEnd_openings blocks i (openOrExtend blocks hf i st)) as [A B].
  destruct (openOrExtend_openings blocks hf st i) as [C D]. cbv zeta in C, D.
  rewrite A, B, C, D. split; reflexivity.
Qed.

Lemma openingsOk_snoc blocks hf l fl i :
  openingsOk blocks hf l -> (fl = true <-> l = []) ->
  validAt blocks i = true ->
  openingsOk blocks hf
    (l ++ [(i, fl, (if fl && negb hf then 20 else 10), reasonAt blocks i)]).
Proof.
  intros [F H] Fl V. split.
  - apply Forall_app. split; [exact F|]. constructor; [|constructor].
    cbv zeta. auto.
  - destruct l as [|[[[s f] w] why] rest]; cbn [app].
    + split; [apply Fl; reflexivity|constructor].
    + destruct H as [Hf Hr]. split; [exact Hf|].
      apply Forall_app. split; [exact Hr|]. constructor; [|constructor].
      destruct fl; [|reflexivity].
      assert (E : (s, f, w, why) :: rest = []) by (apply Fl; reflexivity).
      discriminate.
Qed.

Lemma stateAt_openings blocks n :
  0 <= n ->
  openingsOk blocks (hasFoundValidContentInFirst10Blocks blocks)
    (map opening (allRegions (stateAt blocks n))) /\
  (isFirstContentRegion (stateAt blocks n) = true <->
   map opening (allRegions (stateAt blocks n)) = []).
Proof.
  intros H. rewrite <- (Z2Nat.id n) by lia. clear H.
  induction (Z.to_nat n) as [|m [IH1 IH2]].
  - rewrite stateAt_0. cbn. split; [split; [constructor|exact I]|tauto].
  - rewrite Nat2Z.inj_succ, <- Z.add_1_r. rewrite stateAt_succ by lia.
    destruct (detectStep_openings blocks
                (hasFoundValidContentInFirst10Blocks blocks)
                (stateAt blocks (Z.of_nat m)) (Z.of_nat m)) as [A B].
    cbv zeta in A, B. rewrite A, B.
    destruct (validAt blocks (Z.of_nat m) &&
              match currentRegion (stateAt blocks (Z.of_nat m)) with
              | Some _ => false
              | None => true
              end) eqn:O.
    + apply andb_true_iff in O. destruct O as [V _]. split.
      * apply openingsOk_snoc; assumption.
      * split; [discriminate|]. intros E.
        destruct (map opening (allRegions (stateAt blocks (Z.of_nat m))));
          discriminate.
    + rewrite app_nil_r. split; assumption.
Qed.

Lemma detectContentRegions_allRegions blocks :
  detectContentRegions blocks = allRegions (stateAt blocks (len blocks)).
Proof.
  rewrite detectContentRegions_regions. unfold allRegions.
  rewrite detect_closed, app_nil_r. reflexivity.
Qed.

Lemma len_nonneg blocks : 0 <= len blocks <= len blocks.
Proof. unfold len. lia. Qed.

Lemma stateAt_ordered_regions blocks :
  regionsOrdered (detectContentRegions blocks).
Proof.
  rewrite detectContentRegions_regions.
  destruct (stateAt_inv blocks (len blocks) (len_nonneg blocks)) as [_ [O _]].
  exact O.
Qed.

(** X1. Every region returned by [detectContentRegions] starts at a
    content-bearing block; its [lastValidContentIndex] is the last
    content-bearing block inside it; it ends [extendRange - 1] blocks after
    that block, or at the last block of the array; and none of the ten
    blocks that follow that block is content-bearing. *)
Theorem detected_region_shape (blocks : list Block) (r : Region) :
  In r (detectContentRegions blocks) ->
  validAt blocks (start r) = true /\
  validAt blocks (lastValidContentIndex r) = true /\
  start r <= lastValidContentIndex r <= end_ r /\
  end_ r = Z.min (lastValidContentIndex r + extendRange r - 1) (len blocks - 1) /\
  (forall k, lastValidContentIndex r < k <= end_ r -> validAt blocks k = false) /\
  (forall k, lastValidContentIndex r < k <= lastValidContentIndex r + 10 ->
             validAt blocks k = false).
Proof.
  intros I. rewrite detectContentRegions_regions in I.
  destruct (stateAt_geom blocks (len blocks) (len_nonneg blocks)) as [F _].
  rewrite Forall_forall in F. exact (F r I).
Qed.

Lemma detected_region_shape_witness :
  validAt validAt5And14 5 = true /\
  validAt validAt5And14 14 = true /\
  5 <= 14 <= 23 /\
  23 = Z.min (14 + 10 - 1) (len validAt5And14 - 1) /\
  (forall k, 14 < k <= 23 -> validAt validAt5And14 k = false) /\
  (forall k, 14 < k <= 14 + 10 -> validAt validAt5And14 k = false).
Proof.
  apply (detected_region_shape validAt5And14
           (mkRegion 5 23 title_start true 10 14)).
  assert (E : detectContentRegions validAt5And14 =
              [mkRegion 5 23 title_start true 10 14])
    by (vm_compute; reflexivity).
  rewrite E. left. reflexivity.
Defined.

(** X2. Every content-bearing block lies inside one of the regions that
    [detectContentRegions] returns; so the result is empty exactly when no
    block is content-bearing. *)
Theorem content_bearing_covered (blocks : list Block) :
  (forall k, validAt blocks k = true ->
     exists r, In r (detectContentRegions blocks) /\ start r <= k <= end_ r) /\
  (detectContentRegions blocks = [] <->
   forall k, validAt blocks k = false).
Proof.
  assert (C : forall k, validAt blocks k = true ->
     exists r, In r (detectContentRegions blocks) /\ start r <= k <= end_ r).
  { intros k V. pose proof (validAt_in_range blocks k V) as R.
    destruct (stateAt_geom blocks (len blocks) (len_nonneg blocks))
      as [_ [_ C]].
    rewrite detectContentRegions_allRegions. apply C; [lia|exact V]. }
  split; [exact C|]. split.
  - intros E k. apply not_true_is_false. intros V.
    destruct (C k V) as [r [I _]]. rewrite E in I. destruct I.
  - intros N. destruct (detectContentRegions blocks) as [|r rs] eqn:E;
      [reflexivity|].
    destruct (stateAt_geom blocks (len blocks) (len_nonneg blocks)) as [F _].
    rewrite <- detectContentRegions_regions, E in F.
    inversion F as [|x l [V _] F']; subst. rewrite N in V. discriminate.
Qed.

Lemma content_bearing_covered_witness :
  exists r, In r (detectContentRegions validAt5And14) /\
            start r <= 14 <= end_ r.
Proof.
  apply (proj1 (content_bearing_covered validAt5And14) 14). reflexivity.
Defined.

(** X3. In the list that [detectContentRegions] returns, the first region
    and only the first has [isFirstRegion] set; its window is 20 when none of
    the first ten blocks is content-bearing and 10 otherwise; every later
    region has window 10; and the reason of every region is ['title_start']
    when the block it starts at has a title and ['content_start']
    otherwise. *)
Theorem region_flags_and_windows (blocks : list Block) :
  match detectContentRegions blocks with
  | [] => True
  | r :: rest =>
      isFirstRegion r = true /\
      extendRange r =
        (if hasFoundValidContentInFirst10Blocks blocks then 10 else 20) /\
      Forall (fun r' => isFirstRegion r' = false /\ extendRange r' = 10) rest
  end /\
  Forall (fun r => reason r = reasonAt blocks (start r))
         (detectContentRegions blocks).
Proof.
  destruct (stateAt_openings blocks (len blocks) (proj1 (len_nonneg blocks)))
    as [[F H] _].
  rewrite <- detectContentRegions_allRegions in F, H.
  set (hf := hasFoundValidContentInFirst10Blocks blocks) in *.
  assert (G : forall rs,
     Forall (fun o => let '(s, first, w, why) := o in
                      validAt blocks s = true /\ why = reasonAt blocks s /\
                      w = (if first && negb hf then 20 else 10))
            (map opening rs) ->
     Forall (fun r => reason r = reasonAt blocks (start r) /\
                      extendRange r =
                        (if isFirstRegion r && negb hf then 20 else 10)) rs).
  { induction rs as [|r rs IH]; intros A; [constructor|].
    cbn [map] in A. inversion A as [|x l Hx A']; subst.
    unfold opening in Hx. destruct Hx as [_ [B C]].
    constructor; [split; assumption|apply IH; exact A']. }
  apply G in F. split.
  - destruct (detectContentRegions blocks) as [|r rest]; [exact I|].
    cbn [map opening] in H. destruct H as [H1 H2].
    inversion F as [|x l [_ W] F']; subst.
    split; [exact H1|]. split.
    + rewrite W, H1. destruct hf; reflexivity.
    + clear - H2 F'. induction rest as [|r' rest IH]; [constructor|].
      cbn [map] in H2. inversion H2 as [|x l A B]; subst.
      inversion F' as [|y m [_ W] C]; subst.
      constructor; [|apply IH; assumption].
      unfold opening in A. split; [exact A|]. rewrite W, A. reflexivity.
  - revert F. apply Forall_impl. intros r [R _]. exact R.
Qed.

(** ** The pruner and the filter on the detector's regions *)

Lemma pruneRegion_result blocks region :
  regionInBounds blocks region ->
  exists f, pruneRegion blocks region = Some (Some f) /\ prunedFrom region f.
Proof.
  intros [Hs [Hse He]].
  destruct (scanOf_spec blocks region Hs He) as [st [E S]]; [lia|].
  assert (R : start region <= adjustedEnd st <= end_ region /\
              ((requiredConsecutive <=? consecutivePairs st) = true <->
               adjustedEnd st < end_ region)).
  { unfold requiredConsecutive.
    destruct (firstDenseRun blocks region) as [i|] eqn:F.
    - unfold firstDenseRun in F. apply find_zrange_Some in F.
      destruct F as [Ri [D _]]. unfold denseRunAt in D.
      apply andb_true_iff in D. destruct S as [S1 S2]. rewrite S2.
      split; [lia|]. split; [lia|reflexivity].
    - destruct S as [S1 S2]. split; [lia|]. split; lia. }
  unfold pruneRegion. rewrite E.
  replace (start region <=? adjustedEnd st) with true by lia.
  eexists. split; [reflexivity|].
  unfold prunedFrom.
  cbn [fstart fend freason fisFirstRegion linkPatternDetected].
  split; [reflexivity|]. split; [lia|]. split; [reflexivity|].
  split; [reflexivity|]. tauto.
Qed.

Lemma pruneAll_result blocks rs acc :
  Forall (regionInBounds blocks) rs ->
  exists fs, pruneAll blocks rs acc = Some (acc ++ fs) /\ Forall2 prunedFrom rs fs.
Proof.
  revert acc. induction rs as [|r rs IH]; intros acc R; cbn [pruneAll].
  - exists []. rewrite app_nil_r. split; [reflexivity|constructor].
  - inversion R as [|r' rs' B R']; subst.
    destruct (pruneRegion_result blocks r B) as [f [E P]]. rewrite E.
    destruct (IH (acc ++ [f]) R') as [fs [E' F]].
    exists (f :: fs). rewrite E', <- app_assoc. split; [reflexivity|].
    constructor; assumption.
Qed.

Lemma prunedFrom_bounds blocks rs fs :
  Forall (regionInBounds blocks) rs -> Forall2 prunedFrom rs fs ->
  Forall (finalInBounds blocks) fs.
Proof.
  intros R F. induction F as [|r f rs fs P F IH]; [constructor|].
  inversion R as [|r' rs' [B1 [B2 B3]] R']; subst.
  constructor; [|apply IH; exact R'].
  destruct P as [P1 [P2 _]]. unfold finalInBounds. lia.
Qed.

Lemma prunedFrom_ordered rs fs :
  regionsOrdered rs -> Forall2 prunedFrom rs fs -> finalsOrdered fs.
Proof.
  unfold regionsOrdered, finalsOrdered. intros O F. revert O.
  induction F as [|r f rs fs P F IH]; intros O; [constructor|].
  inversion O as [|a l Ha Hl]; subst. constructor; [|apply IH; exact Hl].
  clear - P Ha F. induction F as [|r' f' rs fs P' F IH]; [constructor|].
  inversion Ha as [|x l A B]; subst. constructor; [|apply IH; exact B].
  destruct P as [_ [P2 _]]. destruct P' as [P1' _]. lia.
Qed.

(** X4. On the regions that the detector returns, the pruner never raises
    and never drops or reorders a region: it returns one region for each,
    with the same start, reason and first-region flag and an end that is at
    most the old one and not below the start; [linkPatternDetected] is set
    exactly on the regions whose end it moved. *)
Theorem pruner_on_detected_regions (blocks : list Block) :
  exists fs,
    checkLinkPatterns blocks (detectContentRegions blocks) = Some fs /\
    Forall2 prunedFrom (detectContentRegions blocks) fs /\
    Forall (finalInBounds blocks) fs /\ finalsOrdered fs.
Proof.
  pose proof (detectContentRegions_in_bounds blocks) as B.
  destruct (pruneAll_result blocks (detectContentRegions blocks) [] B)
    as [fs [E F]].
  exists fs. rewrite checkLinkPatterns_pruneAll.
  split; [exact E|]. split; [exact F|].
  split; [apply (prunedFrom_bounds blocks _ _ B F)|].
  apply (prunedFrom_ordered _ _ (stateAt_ordered_regions blocks) F).
Qed.

Lemma blockGet_blockAt blocks i block :
  blockGet blocks i = Some block -> blockAt blocks i = block.
Proof. intros E. unfold blockAt. rewrite E. reflexivity. Qed.

Lemma extractRegion_exact blocks f indices out :
  (forall i, In i indices -> 0 <= i < len blocks) ->
  extractRegion blocks f indices out =
  Some (out ++ map (keptAt blocks f) (filter (passes blocks) indices)).
Proof.
  revert out. induction indices as [|i l IH]; intros out H; cbn [extractRegion filter map].
  - rewrite app_nil_r. reflexivity.
  - assert (H' : forall j, In j l -> 0 <= j < len blocks)
      by (intros j I; apply H; right; exact I).
    pose proof (H i (or_introl eq_refl)) as Hi.
    replace (i <? len blocks) with true by lia.
    destruct (blockGet_in_range blocks i) as [b G]; [lia|].
    rewrite G. unfold passes at 1. rewrite (blockGet_blockAt _ _ _ G).
    destruct (shouldIncludeBlock b) eqn:S.
    + rewrite IH by exact H'. cbn [map]. rewrite <- app_assoc. cbn [app].
      unfold keptAt at 2. rewrite (blockGet_blockAt _ _ _ G). reflexivity.
    + apply IH. exact H'.
Qed.

Lemma extractRegions_exact blocks fs out :
  Forall (finalInBounds blocks) fs ->
  extractRegions blocks fs out = Some (out ++ spec_keptInRegions blocks fs).
Proof.
  revert out. induction fs as [|f fs IH]; intros out F; cbn [extractRegions].
  - unfold spec_keptInRegions. cbn. rewrite app_nil_r. reflexivity.
  - inversion F as [|f' fs' [B1 [B2 B3]] F']; subst.
    rewrite extractRegion_exact
      by (intros i I; apply zrange_In in I; lia).
    rewrite IH by exact F'. rewrite <- app_assoc. reflexivity.
Qed.

Lemma detectAndFilter_form blocks :
  exists fs,
    checkLinkPatterns blocks (detectContentRegions blocks) = Some fs /\
    Forall2 prunedFrom (detectContentRegions blocks) fs /\
    detectAndFilterMainContent blocks =
    Some (match fs with
          | [] => if checkOnlyLinkPatterns blocks then []
                  else filterWholeSequence blocks
          | _ :: _ => spec_keptInRegions blocks fs
          end).
Proof.
  pose proof (detectContentRegions_in_bounds blocks) as B.
  destruct (pruneAll_result blocks (detectContentRegions blocks) [] B)
    as [fs [E F]].
  pose proof (prunedFrom_bounds blocks _ _ B F) as FB.
  exists fs. rewrite checkLinkPatterns_pruneAll. split; [exact E|].
  split; [exact F|].
  unfold detectAndFilterMainContent.
  destruct blocks as [|b blocks].
  - cbn in E. injection E as <-. reflexivity.
  - set (bs := b :: blocks) in *.
    rewrite checkLinkPatterns_pruneAll, E. cbn [app].
    unfold extractMainContentBlocks. destruct fs as [|f fs].
    + destruct (checkOnlyLinkPatterns bs); reflexivity.
    + rewrite extractRegions_exact by exact FB. reflexivity.
Qed.

(** X5. The three stages compose without raising: with [fs] the pruned
    regions of the detector, [detectAndFilterMainContent] returns the blocks
    inside the regions of [fs] that pass the Block Filter, region by region
    and in index order, each with its own index and the reason and flag of
    its region; when there is no region it returns nothing for a
    link-pattern-only page and the filtered whole sequence otherwise. *)
Theorem pipeline_closed_form (blocks : list Block) :
  exists fs,
    checkLinkPatterns blocks (detectContentRegions blocks) = Some fs /\
    detectAndFilterMainContent blocks =
    Some (match fs with
          | [] => if checkOnlyLinkPatterns blocks then []
                  else filterWholeSequence blocks
          | _ :: _ => spec_keptInRegions blocks fs
          end).
Proof.
  destruct (detectAndFilter_form blocks) as [fs [E [_ F]]].
  exists fs. split; assumption.
Qed.

Lemma StronglySorted_app_lt (l1 l2 : list Z) :
  StronglySorted Z.lt l1 -> StronglySorted Z.lt l2 ->
  (forall x y, In x l1 -> In y l2 -> x < y) ->
  StronglySorted Z.lt (l1 ++ l2).
Proof.
  intros S1 S2 H. induction S1 as [|a l S1 IH F]; cbn [app]; [exact S2|].
  constructor.
  - apply IH. intros x y Ix Iy. apply H; [right; exact Ix|exact Iy].
  - apply Forall_app. split; [exact F|].
    apply Forall_forall. intros y Iy. apply H; [left; reflexivity|exact Iy].
Qed.

Lemma StronglySorted_filter_lt (p : Z -> bool) l :
  StronglySorted Z.lt l -> StronglySorted Z.lt (filter p l).
Proof.
  induction 1 as [|a l S IH F]; cbn [filter]; [constructor|].
  destruct (p a); [|exact IH]. constructor; [exact IH|].
  apply Forall_forall. intros y Iy. apply filter_In in Iy.
  rewrite Forall_forall in F. apply F. tauto.
Qed.

Lemma zrange_sorted lo hi : StronglySorted Z.lt (zrange lo hi).
Proof.
  remember (Z.to_nat (hi - lo + 1)) as n eqn:En.
  revert lo En. induction n as [|n IH]; intros lo En.
  - rewrite zrange_empty by lia. constructor.
  - rewrite zrange_cons by lia. constructor; [apply IH; lia|].
    apply Forall_forall. intros y Iy. apply zrange_In in Iy. lia.
Qed.

Lemma keptInRegions_indices blocks fs :
  map blockIndex (spec_keptInRegions blocks fs) =
  flat_map (fun f => filter (passes blocks) (zrange (fstart f) (fend f))) fs.
Proof.
  unfold spec_keptInRegions. induction fs as [|f fs IH]; [reflexivity|].
  cbn [flat_map]. rewrite map_app, IH, map_map. f_equal.
  apply map_id.
Qed.

Lemma keptInRegions_In blocks fs kept :
  In kept (spec_keptInRegions blocks fs) ->
  exists f, In f fs /\ fstart f <= blockIndex kept <= fend f /\
            passes blocks (blockIndex kept) = true /\
            kept = keptAt blocks f (blockIndex kept).
Proof.
  unfold spec_keptInRegions. intros I. apply in_flat_map in I.
  destruct I as [f [If I]]. apply in_map_iff in I. destruct I as [i [<- I]].
  apply filter_In in I. destruct I as [I P]. apply zrange_In in I.
  exists f. cbn [keptAt blockIndex]. auto.
Qed.

Lemma keptInRegions_sorted blocks fs :
  finalsOrdered fs ->
  StronglySorted Z.lt (map blockIndex (spec_keptInRegions blocks fs)).
Proof.
  rewrite keptInRegions_indices. unfold finalsOrdered.
  induction 1 as [|f fs Hf Hfs IH]; cbn [flat_map]; [constructor|].
  apply StronglySorted_app_lt.
  - apply StronglySorted_filter_lt, zrange_sorted.
  - exact IH.
  - intros x y Ix Iy. apply filter_In in Ix. destruct Ix as [Ix _].
    apply zrange_In in Ix. apply in_flat_map in Iy.
    destruct Iy as [f' [If' Iy]]. apply filter_In in Iy. destruct Iy as [Iy _].
    apply zrange_In in Iy. rewrite Forall_forall in Hf.
    specialize (Hf f' If'). lia.
Qed.

Lemma annotateFrom_spec index kept :
  Forall (fun k => isMainContent k = true /\ index <= blockIndex k)
         (annotateFrom index kept) /\
  StronglySorted Z.lt (map blockIndex (annotateFrom index kept)).
Proof.
  revert index. induction kept as [|b kept IH]; intros index; cbn [annotateFrom map].
  - split; constructor.
  - destruct (IH (index + 1)) as [F S]. split.
    + constructor; [cbn; split; [reflexivity|lia]|].
      revert F. apply Forall_impl. intros k [A B]. split; [exact A|lia].
    + constructor; [exact S|].
      apply Forall_forall. intros y Iy. apply in_map_iff in Iy.
      destruct Iy as [k [<- Ik]]. rewrite Forall_forall in F.
      destruct (F k Ik) as [_ L]. cbn. lia.
Qed.

Lemma blockAt_In blocks i : 0 <= i < len blocks -> In (blockAt blocks i) blocks.
Proof.
  intros H. destruct (blockGet_in_range blocks i) as [b G]; [lia|].
  rewrite (blockGet_blockAt _ _ _ G). unfold blockGet in G.
  replace (i <? 0) with false in G by lia.
  apply (nth_error_In _ _ G).
Qed.

(** The kept blocks of a run of the pipeline: all pass the Block Filter,
    are blocks of the input and are marked as main content, and their
    indices increase strictly. *)
Lemma pipeline_kept_sound blocks kept :
  detectAndFilterMainContent blocks = Some kept ->
  Forall (fun k => shouldIncludeBlock (block_of k) = true /\
                   In (block_of k) blocks /\ isMainContent k = true) kept /\
  StronglySorted Z.lt (map blockIndex kept).
Proof.
  pose proof (detectContentRegions_in_bounds blocks) as B.
  destruct (pruneAll_result blocks (detectContentRegions blocks) [] B)
    as [fs [E F]].
  pose proof (prunedFrom_bounds blocks _ _ B F) as FB.
  pose proof (prunedFrom_ordered _ _ (stateAt_ordered_regions blocks) F) as FO.
  unfold detectAndFilterMainContent.
  destruct blocks as [|b blocks]; [intros H; injection H as <-; split; constructor|].
  set (bs := b :: blocks) in *.
  rewrite checkLinkPatterns_pruneAll, E. cbn [app].
  unfold extractMainContentBlocks. destruct fs as [|f fs].
  - destruct (checkOnlyLinkPatterns bs); intros H; injection H as <-;
      [split; constructor|].
    unfold filterWholeSequence.
    destruct (annotateFrom_spec 0 (filter shouldIncludeBlock bs)) as [A S].
    split; [|exact S].
    apply Forall_forall. intros k Ik.
    assert (Ib : In (block_of k) (filter shouldIncludeBlock bs)).
    { rewrite <- (annotateFrom_blocks 0 (filter shouldIncludeBlock bs)).
      apply in_map. exact Ik. }
    apply filter_In in Ib. rewrite Forall_forall in A.
    destruct (A k Ik) as [M _]. tauto.
  - rewrite extractRegions_exact by exact FB. rewrite app_nil_l.
    intros H. injection H as <-. split.
    + apply Forall_forall. intros k Ik.
      destruct (keptInRegions_In bs (f :: fs) k Ik) as [f' [If' [R [P K]]]].
      rewrite Forall_forall in FB. destruct (FB f' If') as [B1 [B2 B3]].
      rewrite K. cbn [keptAt block_of isMainContent].
      split; [exact P|]. split; [apply blockAt_In; lia|reflexivity].
    + apply (keptInRegions_sorted bs (f :: fs) FO).
Qed.

Lemma blockAt_app_here pre block rest :
  blockAt (pre ++ block :: rest) (len pre) = block.
Proof.
  unfold blockAt, blockGet, len.
  destruct (Z.ltb_spec (Z.of_nat (List.length pre)) 0) as [L|_]; [lia|].
  rewrite Nat2Z.id, nth_error_app2, Nat.sub_diag by lia. reflexivity.
Qed.

(** Reading the array at its indices, in order, gives the array back. *)
Lemma map_blockAt_from pre blocks :
  map (blockAt (pre ++ blocks))
      (zrange (len pre) (len pre + len blocks - 1)) = blocks.
Proof.
  revert pre. induction blocks as [|b blocks IH]; intros pre.
  - rewrite zrange_empty by (unfold len; cbn [List.length]; lia). reflexivity.
  - rewrite zrange_cons by (unfold len; cbn [List.length]; lia).
    cbn [map]. rewrite blockAt_app_here. f_equal.
    specialize (IH (pre ++ [b])). rewrite <- app_assoc in IH. cbn [app] in IH.
    replace (len (pre ++ [b])) with (len pre + 1) in IH
      by (unfold len; rewrite length_app; cbn [List.length]; lia).
    replace (len pre + len (b :: blocks) - 1)
      with (len pre + 1 + len blocks - 1)
      by (unfold len; cbn [List.length]; lia).
    exact IH.
Qed.

Lemma filter_map_comm {A B : Type} (p : B -> bool) (f : A -> B) l :
  filter p (map f l) = map f (filter (fun x => p (f x)) l).
Proof.
  induction l as [|x l IH]; cbn [map filter]; [reflexivity|].
  destruct (p (f x)); cbn [map]; rewrite IH; reflexivity.
Qed.

(** The blocks that pass the Block Filter are the blocks at the positions
    that pass it. *)
Lemma filter_by_position blocks :
  filter shouldIncludeBlock blocks =
  map (blockAt blocks) (filter (passes blocks) (zrange 0 (len blocks - 1))).
Proof.
  pose proof (map_blockAt_from [] blocks) as M. cbn [app] in M.
  change (len []) with 0 in M. rewrite Z.add_0_l in M.
  transitivity (filter shouldIncludeBlock
                  (map (blockAt blocks) (zrange 0 (len blocks - 1)))).
  - rewrite M. reflexivity.
  - unfold passes. apply filter_map_comm.
Qed.

Lemma annotateFrom_indices index kept :
  map blockIndex (annotateFrom index kept) =
  zrange index (index + Z.of_nat (List.length kept) - 1).
Proof.
  revert index. induction kept as [|b kept IH]; intros index;
    cbn [annotateFrom map List.length].
  - rewrite zrange_empty by lia. reflexivity.
  - rewrite zrange_cons by lia. cbn [blockIndex]. f_equal.
    rewrite IH. f_equal. lia.
Qed.

Lemma annotateFrom_reason index kept :
  Forall (fun k => regionReason k = no_region_filter) (annotateFrom index kept).
Proof.
  revert index. induction kept as [|b kept IH]; intros index;
    cbn [annotateFrom]; constructor; [reflexivity|apply IH].
Qed.

Lemma annotateFrom_length index kept :
  List.length (annotateFrom index kept) = List.length kept.
Proof.
  rewrite <- (annotateFrom_blocks index kept) at 2. rewrite length_map.
  reflexivity.
Qed.

Lemma keptInRegions_blocks blocks fs :
  map block_of (spec_keptInRegions blocks fs) =
  map (blockAt blocks)
      (flat_map (fun f => filter (passes blocks) (zrange (fstart f) (fend f)))
                fs).
Proof.
  unfold spec_keptInRegions. induction fs as [|f fs IH]; [reflexivity|].
  cbn [flat_map]. rewrite !map_app, IH, map_map. reflexivity.
Qed.

(** The input positions of the kept blocks: the output of the pipeline is
    the input read at strictly increasing positions. *)
Lemma pipeline_positions blocks kept :
  detectAndFilterMainContent blocks = Some kept ->
  exists positions,
    StronglySorted Z.lt positions /\
    Forall (fun i => 0 <= i < len blocks /\ passes blocks i = true) positions /\
    map block_of kept = map (blockAt blocks) positions /\
    ((Forall (fun k => regionReason k <> no_region_filter) kept /\
      map blockIndex kept = positions) \/
     (Forall (fun k => regionReason k = no_region_filter) kept /\
      map blockIndex kept = zrange 0 (Z.of_nat (List.length kept) - 1) /\
      positions = filter (passes blocks) (zrange 0 (len blocks - 1)))).
Proof.
  pose proof (detectContentRegions_in_bounds blocks) as B.
  destruct (detectAndFilter_form blocks) as [fs [E [F R]]].
  pose proof (prunedFrom_bounds blocks _ _ B F) as FB.
  pose proof (prunedFrom_ordered _ _ (stateAt_ordered_regions blocks) F) as FO.
  rewrite R. intros H. injection H as <-.
  destruct fs as [|f fs].
  - destruct (checkOnlyLinkPatterns blocks).
    + exists []. split; [constructor|]. split; [constructor|].
      split; [reflexivity|]. left. split; [constructor|reflexivity].
    + exists (filter (passes blocks) (zrange 0 (len blocks - 1))).
      split; [apply StronglySorted_filter_lt, zrange_sorted|].
      split.
      { apply Forall_forall. intros i Ii. apply filter_In in Ii.
        destruct Ii as [Ii P]. apply zrange_In in Ii. split; [lia|exact P]. }
      unfold filterWholeSequence. rewrite annotateFrom_blocks.
      split; [apply filter_by_position|]. right.
      split; [apply annotateFrom_reason|].
      split; [|reflexivity].
      rewrite annotateFrom_indices, annotateFrom_length. f_equal.
  - exists (flat_map (fun f => filter (passes blocks)
                                      (zrange (fstart f) (fend f)))
                     (f :: fs)).
    split.
    { rewrite <- keptInRegions_indices.
      apply (keptInRegions_sorted blocks (f :: fs) FO). }
    split.
    { apply Forall_forall. intros i Ii. apply in_flat_map in Ii.
      destruct Ii as [f' [If' Ii]]. apply filter_In in Ii.
      destruct Ii as [Ii P]. apply zrange_In in Ii.
      rewrite Forall_forall in FB. destruct (FB f' If') as [B1 [B2 B3]].
      split; [lia|exact P]. }
    split; [apply keptInRegions_blocks|]. left.
    split; [|apply keptInRegions_indices].
    apply Forall_forall. intros k Ik.
    destruct (keptInRegions_In blocks (f :: fs) k Ik) as [f' [_ [_ [_ K]]]].
    rewrite K. cbn [keptAt regionReason]. discriminate.
Qed.

(** X6. Whatever the input, the output of [detectAndFilterMainContent] is
    the input read at strictly increasing positions that lie inside the
    array and pass the Block Filter: no position of the input is returned
    twice and document order is kept.  Every returned block is marked
    [isMainContent].  Its [blockIndex] is its position in the input when the
    blocks come from regions; without regions the block has the reason
    ['no_region_filter'], its [blockIndex] is its rank in the output, and
    the positions are all those of the input that pass the Block Filter.
    In both cases [blockIndex] increases strictly along the output. *)
Theorem pipeline_output_sound (blocks : list Block) (kept : list FilteredBlock) :
  detectAndFilterMainContent blocks = Some kept ->
  (exists positions,
     StronglySorted Z.lt positions /\
     Forall (fun i => 0 <= i < len blocks /\
                      shouldIncludeBlock (blockAt blocks i) = true) positions /\
     map block_of kept = map (blockAt blocks) positions /\
     ((Forall (fun k => regionReason k <> no_region_filter) kept /\
       map blockIndex kept = positions) \/
      (Forall (fun k => regionReason k = no_region_filter) kept /\
       map blockIndex kept = zrange 0 (Z.of_nat (List.length kept) - 1) /\
       positions = filter (fun i => shouldIncludeBlock (blockAt blocks i))
                          (zrange 0 (len blocks - 1))))) /\
  Forall (fun k => shouldIncludeBlock (block_of k) = true /\
                   In (block_of k) blocks /\ isMainContent k = true) kept /\
  StronglySorted Z.lt (map blockIndex kept).
Proof.
  intros H. split; [exact (pipeline_positions blocks kept H)|].
  exact (pipeline_kept_sound blocks kept H).
Qed.

Lemma pipeline_output_sound_witness :
  (exists positions,
     StronglySorted Z.lt positions /\
     Forall (fun i => 0 <= i < len imagesAmongShort /\
                      shouldIncludeBlock (blockAt imagesAmongShort i) = true)
            positions /\
     map block_of twoImagesKept = map (blockAt imagesAmongShort) positions /\
     ((Forall (fun k => regionReason k <> no_region_filter) twoImagesKept /\
       map blockIndex twoImagesKept = positions) \/
      (Forall (fun k => regionReason k = no_region_filter) twoImagesKept /\
       map blockIndex twoImagesKept =
       zrange 0 (Z.of_nat (List.length twoImagesKept) - 1) /\
       positions =
       filter (fun i => shouldIncludeBlock (blockAt imagesAmongShort i))
              (zrange 0 (len imagesAmongShort - 1))))) /\
  (Forall (fun k => shouldIncludeBlock (block_of k) = true /\
                    In (block_of k) [titleBlock; contentBlock 20; shortLinkBlock] /\
                    isMainContent k = true)
     [mkFiltered titleBlock (of_region title_start) 0 true (Some true) 0;
      mkFiltered (contentBlock 20) (of_region title_start) 1 true (Some true) 20] /\
   StronglySorted Z.lt
     (map blockIndex
        [mkFiltered titleBlock (of_region title_start) 0 true (Some true) 0;
         mkFiltered (contentBlock 20) (of_region title_start) 1 true (Some true) 20])).
Proof.
  split.
  - apply (pipeline_output_sound imagesAmongShort twoImagesKept).
    vm_compute. reflexivity.
  - apply (pipeline_output_sound [titleBlock; contentBlock 20; shortLinkBlock]).
    vm_compute. reflexivity.
Defined.

(** ** Counting and cleaning text *)

Lemma wordStarts_nonblank s :
  forallb isWhiteSpace s = false -> (0 < wordStarts true s)%nat.
Proof.
  induction s as [|c s IH]; intros B; [discriminate|].
  cbn [forallb wordStarts] in *. destruct (isWhiteSpace c); [apply IH; exact B|lia].
Qed.

(** X7. [countWords] returns the number of white-space separated words of
    its argument: 0 for a missing, empty or blank text, and the same number
    before and after trimming. *)
Theorem countWords_counts_words (s : jsstring) :
  countWords None = 0 /\
  countWords (Some s) = spec_wordCount s /\
  (countWords (Some s) = 0 <-> forallb isWhiteSpace s = true) /\
  countWords (Some (trim s)) = countWords (Some s).
Proof.
  split; [reflexivity|]. split; [apply countWords_spec|]. split.
  - rewrite countWords_spec. unfold spec_wordCount. split.
    + intros Z0. destruct (forallb isWhiteSpace s) eqn:B; [reflexivity|].
      pose proof (wordStarts_nonblank s B). lia.
    + intros B. rewrite (wordStarts_blank _ _ B). reflexivity.
  - rewrite !countWords_spec. unfold spec_wordCount.
    rewrite wordStarts_trim. reflexivity.
Qed.

Lemma wordStarts_collapse g b s :
  (g = true -> b = true) ->
  wordStarts b (collapseWs g s) = wordStarts b s.
Proof.
  revert g b. induction s as [|c s IH]; intros g b H; [reflexivity|].
  cbn [collapseWs wordStarts]. destruct (isWhiteSpace c) eqn:W.
  - destruct g.
    + rewrite (H eq_refl). apply IH. auto.
    + cbn [wordStarts]. change (isWhiteSpace 32) with true. cbv iota.
      apply IH. auto.
  - cbn [wordStarts]. rewrite W. f_equal. apply IH. discriminate.
Qed.

Lemma collapseWs_idem g s : collapseWs g (collapseWs g s) = collapseWs g s.
Proof.
  revert g. induction s as [|c s IH]; intros g; [reflexivity|].
  cbn [collapseWs]. destruct (isWhiteSpace c) eqn:W.
  - destruct g; [apply IH|].
    cbn [collapseWs]. change (isWhiteSpace 32) with true. cbv iota.
    f_equal. apply IH.
  - cbn [collapseWs]. rewrite W. f_equal. apply IH.
Qed.

Lemma collapseWs_nil g s : collapseWs g s = [] -> forallb isWhiteSpace s = true.
Proof.
  revert g. induction s as [|c s IH]; intros g; [reflexivity|].
  cbn [collapseWs forallb]. destruct (isWhiteSpace c); [|discriminate].
  destruct g; [apply IH|discriminate].
Qed.

Lemma trimEnd_fixed_cons c s :
  trimEnd (c :: s) = c :: s ->
  (s = [] /\ isWhiteSpace c = false) \/ (s <> [] /\ trimEnd s = s).
Proof.
  cbn [trimEnd]. destruct (trimEnd s) as [|d t] eqn:E.
  - destruct (isWhiteSpace c); [discriminate|]. intros H. injection H as <-.
    left. auto.
  - intros H. injection H as <-. right. split; [discriminate|reflexivity].
Qed.

Lemma trimEnd_collapse g s :
  trimEnd s = s -> trimEnd (collapseWs g s) = collapseWs g s.
Proof.
  revert g. induction s as [|c s IH]; intros g H; [reflexivity|].
  destruct (trimEnd_fixed_cons c s H) as [[-> W]|[N F]].
  - cbn [collapseWs]. rewrite W. cbn. rewrite W. reflexivity.
  - assert (K : forall g', collapseWs g' s <> []).
    { intros g' E. apply collapseWs_nil in E. apply trimEnd_blank in E.
      congruence. }
    assert (T : forall x g', trimEnd (x :: collapseWs g' s) = x :: collapseWs g' s).
    { intros x g'. cbn [trimEnd]. rewrite (IH g' F).
      destruct (collapseWs g' s) eqn:E; [elim (K g'); exact E|reflexivity]. }
    cbn [collapseWs]. destruct (isWhiteSpace c).
    + destruct g; [apply IH; exact F|apply T].
    + apply T.
Qed.

Lemma trimEnd_idem s : trimEnd (trimEnd s) = trimEnd s.
Proof.
  induction s as [|c s IH]; [reflexivity|].
  cbn [trimEnd]. destruct (trimEnd s) as [|d t] eqn:E.
  - destruct (isWhiteSpace c) eqn:W; [reflexivity|]. cbn. rewrite W. reflexivity.
  - cbn [trimEnd]. cbn [trimEnd] in IH. rewrite IH. reflexivity.
Qed.

Lemma trimStart_head s :
  match trimEnd (trimStart s) with
  | [] => True
  | c :: _ => isWhiteSpace c = false
  end.
Proof.
  induction s as [|c s IH]; [exact I|].
  cbn [trimStart]. destruct (isWhiteSpace c) eqn:W; [exact IH|].
  cbn [trimEnd]. destruct (trimEnd s); [rewrite W|]; exact W.
Qed.

Lemma trim_collapse_trim s :
  trim (collapseWs false (trim s)) = collapseWs false (trim s).
Proof.
  unfold trim at 1.
  assert (H : trimStart (collapseWs false (trim s)) = collapseWs false (trim s)).
  { pose proof (trimStart_head s) as Hd. fold (trim s) in Hd.
    destruct (trim s) as [|c t]; [reflexivity|].
    cbn [collapseWs]. rewrite Hd. cbn [trimStart]. rewrite Hd. reflexivity. }
  rewrite H. apply trimEnd_collapse. unfold trim. apply trimEnd_idem.
Qed.

Lemma singleSpaced_collapse g s : singleSpaced g (collapseWs g s) = true.
Proof.
  revert g. induction s as [|c s IH]; intros g; [reflexivity|].
  cbn [collapseWs]. destruct (isWhiteSpace c) eqn:W.
  - destruct g; [apply IH|].
    cbn [singleSpaced]. change (isWhiteSpace 32) with true. cbv iota.
    rewrite IH. reflexivity.
  - cbn [singleSpaced]. rewrite W. apply IH.
Qed.

(** X8. [cleanText] returns a text in normal form (no white space at
    either end, and white space inside only as single spaces) with as
    many words as its argument, and cleaning a cleaned text changes
    nothing. *)
Theorem cleanText_normal_form (text : option jsstring) :
  trim (cleanText text) = cleanText text /\
  singleSpaced false (cleanText text) = true /\
  countWords (Some (cleanText text)) = countWords text /\
  cleanText (Some (cleanText text)) = cleanText text.
Proof.
  destruct text as [s|]; [|repeat split; reflexivity].
  unfold cleanText. destruct s as [|c s]; [repeat split; reflexivity|].
  cbn [isEmpty]. set (t := c :: s).
  assert (T : trim (collapseWs false (trim t)) = collapseWs false (trim t))
    by apply trim_collapse_trim.
  split; [exact T|]. split; [apply singleSpaced_collapse|]. split.
  - rewrite !countWords_spec. unfold spec_wordCount.
    rewrite wordStarts_collapse by discriminate.
    rewrite wordStarts_trim. reflexivity.
  - set (u := collapseWs false (trim t)) in *.
    assert (I : collapseWs false u = u) by (subst u; apply collapseWs_idem).
    clearbody u. destruct u as [|d u]; [reflexivity|].
    cbn [isEmpty]. rewrite T. exact I.
Qed.

Lemma safe_not_whiteSpace c : isSafeIdChar c = true -> isWhiteSpace c = false.
Proof.
  intros S. apply not_true_is_false. intros W.
  unfold isSafeIdChar, isWhiteSpace in *.
  repeat rewrite ?orb_true_iff, ?andb_true_iff, ?N.eqb_eq, ?N.leb_le in S.
  repeat rewrite ?orb_true_iff, ?andb_true_iff, ?N.eqb_eq, ?N.leb_le in W.
  lia.
Qed.

Lemma trimEnd_no_whiteSpace s :
  forallb (fun c => negb (isWhiteSpace c)) s = true -> trimEnd s = s.
Proof.
  induction s as [|c s IH]; [reflexivity|].
  cbn [forallb trimEnd]. intros H. apply andb_true_iff in H.
  destruct H as [W H]. apply negb_true_iff in W. rewrite (IH H), W.
  destruct s; reflexivity.
Qed.

Lemma trim_safe s : forallb isSafeIdChar s = true -> trim s = s.
Proof.
  intros H.
  assert (N : forallb (fun c => negb (isWhiteSpace c)) s = true).
  { apply forallb_forall. intros c I. rewrite forallb_forall in H.
    rewrite (safe_not_whiteSpace c (H c I)). reflexivity. }
  unfold trim.
  assert (T : trimStart s = s).
  { destruct s as [|c s]; [reflexivity|]. cbn [forallb] in N.
    apply andb_true_iff in N. destruct N as [W _]. apply negb_true_iff in W.
    cbn [trimStart]. rewrite W. reflexivity. }
  rewrite T. apply trimEnd_no_whiteSpace. exact N.
Qed.

Lemma sanitize_map_safe s :
  forallb isSafeIdChar (map (fun c => if isSafeIdChar c then c else 95%N) s) = true.
Proof.
  induction s as [|c s IH]; [reflexivity|].
  cbn [map forallb]. rewrite IH, andb_true_r.
  destruct (isSafeIdChar c) eqn:S; [exact S|reflexivity].
Qed.

Lemma sanitize_map_id s :
  forallb isSafeIdChar s = true ->
  map (fun c => if isSafeIdChar c then c else 95%N) s = s.
Proof.
  induction s as [|c s IH]; [reflexivity|].
  cbn [map forallb]. intros H. apply andb_true_iff in H. destruct H as [S H].
  rewrite S, (IH H). reflexivity.
Qed.

(** X9. When [sanitizeRequestId] returns, the id is not empty, holds only
    letters, digits, [_] and [-] (so no path separator and no dot), has the
    length of the trimmed input, and is left as it is by a second
    sanitization; it throws exactly when the input is missing, empty or
    blank. *)
Theorem sanitizeRequestId_safe (requestId : option jsstring) :
  (forall s, sanitizeRequestId requestId = inr s ->
     s <> [] /\ forallb isSafeIdChar s = true /\
     (exists r, requestId = Some r /\
                List.length s = List.length (trim r)) /\
     sanitizeRequestId (Some s) = inr s) /\
  ((exists message, sanitizeRequestId requestId = inl message) <->
   requestId = None \/
   exists r, requestId = Some r /\ forallb isWhiteSpace r = true).
Proof.
  assert (K : forall s, s <> [] -> forallb isSafeIdChar s = true ->
                        sanitizeRequestId (Some s) = inr s).
  { intros s N S. unfold sanitizeRequestId.
    destruct s as [|c s]; [congruence|]. cbn [isEmpty]. cbv zeta.
    rewrite (trim_safe _ S), (sanitize_map_id _ S). reflexivity. }
  split.
  - intros s H. unfold sanitizeRequestId in H.
    destruct requestId as [r|]; [|discriminate].
    destruct (isEmpty r); [discriminate|]. cbv zeta in H.
    destruct (Z.of_nat _ =? 0) eqn:L; [discriminate|].
    injection H as <-.
    assert (N : map (fun c => if isSafeIdChar c then c else 95%N) (trim r) <> []).
    { intros E. rewrite E in L. discriminate. }
    split; [exact N|]. split; [apply sanitize_map_safe|].
    split; [exists r; split; [reflexivity|apply length_map]|].
    apply K; [exact N|apply sanitize_map_safe].
  - unfold sanitizeRequestId. destruct requestId as [r|].
    + destruct r as [|c r].
      * cbn. split; [intros _; right; exists []; auto|intros _; eexists; reflexivity].
      * cbn [isEmpty]. cbv zeta. rewrite length_map.
        destruct (trim (c :: r)) as [|d t] eqn:T.
        -- cbn. apply trim_blank in T.
           split; [intros _; right; eexists; split; [reflexivity|exact T]
                  |intros _; eexists; reflexivity].
        -- cbn [List.length].
           destruct (Z.eqb_spec (Z.of_nat (S (List.length t))) 0) as [Hz|Hz];
             [lia|].
           split; [intros [m E]; discriminate|].
           intros [E|[r' [E B]]]; [discriminate|]. injection E as <-.
           apply trim_blank in B. congruence.
    + split; [intros _; left; reflexivity|intros _; eexists; reflexivity].
Qed.

Lemma sanitizeRequestId_safe_witness :
  lit "___a_b" <> [] /\ forallb isSafeIdChar (lit "___a_b") = true /\
  sanitizeRequestId (Some (lit "___a_b")) = inr (lit "___a_b").
Proof.
  destruct (proj1 (sanitizeRequestId_safe (Some (lit " ../a b ")))
              (lit "___a_b") eq_refl) as [N [S [_ I]]].
  split; [exact N|]. split; [exact S|exact I].
Defined.

(** ** The coordinator's conversion and result *)

Module Results.
Import Coordinator.
Local Open Scope string_scope.
Local Open Scope Z_scope.

Lemma keepTruthy_ok x : absentOrNonEmpty (keepTruthy x).
Proof.
  unfold keepTruthy, absentOrNonEmpty.
  destruct (truthy x) eqn:T; [right; exact T|left; reflexivity].
Qed.

Lemma simpleBlock_wellFormed item block :
  simpleBlock item = Some block -> wellFormedBlock block.
Proof.
  unfold simpleBlock. cbv zeta.
  set (t := keepTruthy (itemTitle item)).
  set (c := keepTruthy (itemContent item)).
  set (l := keepTruthy (itemLink item)).
  pose proof (keepTruthy_ok (itemTitle item)) as Ht. fold t in Ht.
  pose proof (keepTruthy_ok (itemContent item)) as Hc. fold c in Hc.
  pose proof (keepTruthy_ok (itemLink item)) as Hl. fold l in Hl.
  pose proof (keepTruthy_ok (itemAlt item)) as Ha.
  cbn [title content image alt link].
  destruct (truthy (itemImg item) || truthy (itemImage item)) eqn:I.
  - assert (Hi : exists s, orElse (itemImg item) (itemImage item) = Some s /\
                           truthy (Some s) = true).
    { unfold orElse. destruct (truthy (itemImg item)) eqn:T1.
      - destruct (itemImg item) as [s|]; [exists s; auto|discriminate].
      - cbn [orb] in I. destruct (itemImage item) as [s|]; [exists s; auto|discriminate]. }
    destruct Hi as [s [E Ts]]. rewrite E.
    intros H.
    assert (B : block = mkBlock t c (Some s) (keepTruthy (itemAlt item)) l).
    { destruct t, c, (keepTruthy (itemAlt item)), l; congruence. }
    subst block. unfold wellFormedBlock. cbn [title content image alt link].
    split; [right; right; left; discriminate|].
    repeat split; try assumption; [right; exact Ts|intros _; discriminate].
  - intros H.
    assert (B : block = mkBlock t c None None l /\
                (t <> None \/ c <> None \/ l <> None)).
    { destruct t, c, l; try discriminate; injection H as <-;
        (split; [reflexivity|]);
        first [left; discriminate | right; left; discriminate
              | right; right; discriminate]. }
    destruct B as [-> N]. unfold wellFormedBlock.
    cbn [title content image alt link].
    split; [tauto|].
    repeat split; try assumption; try (left; reflexivity). intros A. congruence.
Qed.

(** X10. Every block that [convertToSimpleBlocks] hands to the content
    detection has at least one of title, content, image and link, holds no
    empty string, and has an [alt] only beside an image; there are at most
    as many blocks as items. *)
Theorem simpleBlocks_wellFormed (items : list Item) :
  Forall wellFormedBlock (simpleBlocks items) /\
  (List.length (simpleBlocks items) <= List.length items)%nat.
Proof.
  induction items as [|item items [IH1 IH2]]; [split; [constructor|cbn; lia]|].
  cbn [simpleBlocks]. destruct (simpleBlock item) as [b|] eqn:E.
  - split; [constructor; [apply (simpleBlock_wellFormed item b E)|exact IH1]|].
    cbn [List.length]. lia.
  - split; [exact IH1|]. cbn [List.length]. lia.
Qed.

Lemma convertToSimpleBlocks_total data :
  exists kept, convertToSimpleBlocks data = Some kept.
Proof.
  unfold convertToSimpleBlocks. destruct data as [[items|]|];
    try (eexists; reflexivity).
  apply detectAndFilterMainContent_total.
Qed.

Lemma convertToSimpleBlocks_sound data kept :
  convertToSimpleBlocks data = Some kept ->
  Forall (fun k => shouldIncludeBlock (block_of k) = true /\
                   isMainContent k = true) kept.
Proof.
  unfold convertToSimpleBlocks. destruct data as [[items|]|];
    try (intros H; injection H as <-; constructor).
  intros H. destruct (pipeline_kept_sound _ _ H) as [F _].
  revert F. apply Forall_impl. tauto.
Qed.

Lemma filter_all {A} (p : A -> bool) l :
  Forall (fun x => p x = true) l -> filter p l = l.
Proof.
  induction 1 as [|x l P F IH]; [reflexivity|].
  cbn [filter]. rewrite P, IH. reflexivity.
Qed.

(** X11. For a URL that parses, [crawlUrl] of the coordinator returns an
    object, and it reports what the non-browser crawler reported: on a
    failed result the same error with method ['non_browser']; on a
    successful result with [extractedData] a success whose
    [mainContentBlocks] is the number of returned blocks, all of which pass
    the Block Filter, and whose title, [totalItems] and [totalWords] are the
    crawler's own, counted before filtering. *)
Theorem crawlUrl_reports (hostnameOf : string -> option string)
  (nonBrowser : string -> CallOutcome) (browser : string -> BrowserOutcome)
  (url domain : string) (result : CrawlResult) :
  hostnameOf url = Some domain ->
  nonBrowser url = Returned result ->
  exists out,
    fst (runCall nonBrowser browser (crawlUrl hostnameOf url)) = inr out /\
    outUrl out = url /\ outDomain out = domain /\
    (success result = false ->
     out = mkOutcome false url domain (Some "non_browser") None (error result)) /\
    (forall extracted,
       success result = true -> extractedData result = Some extracted ->
       exists ex,
         out = mkOutcome true url domain (Some "non_browser") (Some ex) None /\
         exTitle ex = pageTitle extracted /\
         exTotalItems ex = totalItems extracted /\
         exTotalWords ex = totalWords extracted /\
         exMainContentBlocks ex = Z.of_nat (List.length (exBlocks ex)) /\
         Forall (fun b => shouldIncludeBlock b = true) (exBlocks ex)).
Proof.
  intros H N. unfold crawlUrl, extractDomainName. rewrite H.
  cbn [executeNonBrowserCrawl andThen runCall]. rewrite N.
  cbn [runCall fst]. eexists. split; [reflexivity|].
  unfold finish. cbv zeta.
  destruct (success result) eqn:S.
  - destruct (extractedData result) as [e|] eqn:E.
    + destruct (convertToSimpleBlocks_total (pageData e)) as [kept K].
      rewrite K. pose proof (convertToSimpleBlocks_sound _ _ K) as F.
      cbn [outUrl outDomain].
      split; [reflexivity|]. split; [reflexivity|].
      split; [discriminate|].
      intros extracted _ X. injection X as <-.
      eexists. split; [reflexivity|].
      cbn [exTitle exTotalItems exTotalWords exMainContentBlocks exBlocks].
      split; [reflexivity|]. split; [reflexivity|]. split; [reflexivity|].
      split.
      * rewrite filter_all, length_map; [reflexivity|].
        revert F. apply Forall_impl. tauto.
      * apply Forall_forall. intros b Ib. apply in_map_iff in Ib.
        destruct Ib as [k [<- Ik]]. rewrite Forall_forall in F.
        apply (F k Ik).
    + cbn [outUrl outDomain]. split; [reflexivity|]. split; [reflexivity|].
      split; [discriminate|]. intros extracted _ X. discriminate.
  - cbn [outUrl outDomain]. split; [reflexivity|]. split; [reflexivity|].
    split; [reflexivity|]. intros extracted X. discriminate.
Qed.

Lemma crawlUrl_reports_witness :
  exists out,
    fst (runCall failingNonBrowser someBrowser
           (crawlUrl anyHost "http://example.com/")) = inr out /\
    outUrl out = "http://example.com/" /\ outDomain out = "example.com" /\
    (success (failedWithHint (Some true)) = false ->
     out = mkOutcome false "http://example.com/" "example.com"
             (Some "non_browser") None (error (failedWithHint (Some true)))) /\
    (forall extracted,
       success (failedWithHint (Some true)) = true ->
       extractedData (failedWithHint (Some true)) = Some extracted ->
       exists ex,
         out = mkOutcome true "http://example.com/" "example.com"
                 (Some "non_browser") (Some ex) None /\
         exTitle ex = pageTitle extracted /\
         exTotalItems ex = totalItems extracted /\
         exTotalWords ex = totalWords extracted /\
         exMainContentBlocks ex = Z.of_nat (List.length (exBlocks ex)) /\
         Forall (fun b => shouldIncludeBlock b = true) (exBlocks ex)).
Proof.
  apply (crawlUrl_reports anyHost failingNonBrowser someBrowser
           "http://example.com/" "example.com" (failedWithHint (Some true)));
    reflexivity.
Defined.

End Results.

(** ** Bounds of the lightweight fetch *)

Module FetchBounds.
Import NonBrowserCrawler NonBrowserBatch.
Local Open Scope string_scope.
Local Open Scope Z_scope.

Lemma tryBlock_success extract url outcome result :
  tryBlock extract url outcome = inr result -> success result = true.
Proof.
  unfold tryBlock. destruct outcome as [response|message]; [|discriminate].
  cbv zeta. destruct (negb _); [discriminate|].
  destruct (extract _ _); [discriminate|].
  intros H. injection H as <-. reflexivity.
Qed.

Lemma countGets_schedule url n attempt :
  countGets (spec_schedule url n attempt) = n.
Proof.
  revert attempt. induction n as [|n IH]; intros attempt; [reflexivity|].
  destruct n as [|n]; [reflexivity|].
  change (spec_schedule url (S (S n)) attempt)
    with (DidGet url requestConfig :: DidSleep (retryDelay * attempt)
            :: spec_schedule url (S n) (attempt + 1)).
  unfold countGets in *. cbn [filter List.length]. rewrite IH. reflexivity.
Qed.

Lemma totalSleep_schedule url n attempt :
  2 * totalSleep (spec_schedule url (S n) attempt) =
  retryDelay * Z.of_nat n * (2 * attempt + Z.of_nat n - 1).
Proof.
  revert attempt. induction n as [|n IH]; intros attempt.
  - cbn. lia.
  - change (spec_schedule url (S (S n)) attempt)
      with (DidGet url requestConfig :: DidSleep (retryDelay * attempt)
              :: spec_schedule url (S n) (attempt + 1)).
    unfold totalSleep in *. cbn [fold_right].
    rewrite Z.mul_add_distr_l, IH. unfold retryDelay. lia.
Qed.

(** What a run of the retry loop does, whatever the network answers: the
    attempts up to the first one that succeeds are made, or all of them. *)
Lemma attempts_outcome extract url net m :
  forall (fuel : nat) (attempt : Z) (n0 : nat),
    Z.of_nat (S fuel) = m + 2 - attempt ->
    exists k result,
      (k <= fuel)%nat /\
      run net n0 (attempts extract url m (S fuel) attempt) =
      (Some result, spec_schedule url (S k) attempt) /\
      (forall j, (j < k)%nat ->
                 exists message, tryBlock extract url (net (n0 + j)%nat) = inl message) /\
      (tryBlock extract url (net (n0 + k)%nat) = inr result \/
       (k = fuel /\ exists message,
          tryBlock extract url (net (n0 + k)%nat) = inl message /\
          result = failure message)).
Proof.
  induction fuel as [|fuel IH]; intros attempt n0 E.
  - exists O. rewrite Fetch.attempts_S, Fetch.run_Get. rewrite Nat.add_0_r.
    destruct (tryBlock extract url (net n0)) as [message|result] eqn:T.
    + replace (m <? attempt) with true by lia.
      exists (failure message). split; [lia|]. split; [reflexivity|].
      split; [intros j Hj; lia|]. right. split; [reflexivity|].
      exists message. auto.
    + exists result. split; [lia|]. split; [reflexivity|].
      split; [intros j Hj; lia|]. left. reflexivity.
  - rewrite Fetch.attempts_S, Fetch.run_Get.
    destruct (tryBlock extract url (net n0)) as [message|result] eqn:T.
    + replace (m <? attempt) with false by lia.
      replace (attempt <=? m) with true by lia.
      rewrite Fetch.run_Sleep.
      destruct (IH (attempt + 1) (S n0)) as [k [result [K [R [F L]]]]]; [lia|].
      exists (S k), result. split; [lia|]. split; [rewrite R; reflexivity|].
      split.
      * intros j Hj. destruct j as [|j].
        -- rewrite Nat.add_0_r. exists message. exact T.
        -- replace (n0 + S j)%nat with (S n0 + j)%nat by lia. apply F. lia.
      * replace (n0 + S k)%nat with (S n0 + k)%nat by lia.
        destruct L as [L|[Kf L]]; [left; exact L|right].
        split; [lia|exact L].
    + exists O, result. split; [lia|]. split; [reflexivity|].
      split; [intros j Hj; lia|]. left. rewrite Nat.add_0_r. exact T.
Qed.

(** X12. Whatever the network answers, [crawlUrl] with [maxRetries >= 0]
    returns an object, after at least one and at most [maxRetries + 1]
    requests made one after the other with the timers of the retry
    schedule, which add up to at most
    [retryDelay * maxRetries * (maxRetries + 1) / 2] ms.  The object is the
    result of the first attempt that succeeded, or the failure built from
    the error of the last attempt when every attempt failed. *)
Theorem crawlUrl_bounded (extract : string -> string -> string + ExtractedData)
  (url : string) (options : Options) (net : nat -> AxiosOutcome) :
  0 <= chosenMaxRetries options ->
  exists n result,
    (1 <= n)%nat /\ Z.of_nat n <= chosenMaxRetries options + 1 /\
    run net 0 (crawlUrl extract url options) =
      (Some result, spec_schedule url n 1) /\
    countGets (spec_schedule url n 1) = n /\
    2 * totalSleep (spec_schedule url n 1) <=
      retryDelay * chosenMaxRetries options * (chosenMaxRetries options + 1) /\
    (forall j, (S j < n)%nat ->
               exists message, tryBlock extract url (net j) = inl message) /\
    ((success result = true /\ tryBlock extract url (net (n - 1)%nat) = inr result) \/
     (Z.of_nat n = chosenMaxRetries options + 1 /\
      exists message, tryBlock extract url (net (n - 1)%nat) = inl message /\
                      result = failure message)).
Proof.
  intros M. unfold crawlUrl. cbv zeta.
  set (m := chosenMaxRetries options) in *.
  replace (Z.to_nat (m + 1)) with (S (Z.to_nat m)) by lia.
  destruct (attempts_outcome extract url net m (Z.to_nat m) 1 O)
    as [k [result [K [R [F L]]]]]; [lia|].
  exists (S k), result.
  split; [lia|]. split; [lia|]. split; [exact R|].
  split; [apply countGets_schedule|]. split.
  - rewrite totalSleep_schedule. unfold retryDelay. nia.
  - split.
    + intros j Hj. apply (F j). lia.
    + replace (S k - 1)%nat with k by lia. cbn [Nat.add] in L.
      destruct L as [L|[Kf L]].
      * left. split; [apply (tryBlock_success _ _ _ _ L)|exact L].
      * right. split; [lia|exact L].
Qed.

Lemma crawlUrl_bounded_witness :
  exists n result,
    (1 <= n)%nat /\ Z.of_nat n <= chosenMaxRetries (mkOptions None) + 1 /\
    run htmlOnThird 0
      (crawlUrl extractNothing "http://example.com/" (mkOptions None)) =
      (Some result, spec_schedule "http://example.com/" n 1) /\
    countGets (spec_schedule "http://example.com/" n 1) = n /\
    2 * totalSleep (spec_schedule "http://example.com/" n 1) <=
      retryDelay * chosenMaxRetries (mkOptions None) *
      (chosenMaxRetries (mkOptions None) + 1) /\
    (forall j, (S j < n)%nat ->
               exists message,
                 tryBlock extractNothing "http://example.com/" (htmlOnThird j)
                 = inl message) /\
    ((success result = true /\
      tryBlock extractNothing "http://example.com/" (htmlOnThird (n - 1)%nat)
      = inr result) \/
     (Z.of_nat n = chosenMaxRetries (mkOptions None) + 1 /\
      exists message,
        tryBlock extractNothing "http://example.com/" (htmlOnThird (n - 1)%nat)
        = inl message /\ result = failure message)).
Proof.
  apply (crawlUrl_bounded extractNothing "http://example.com/"
           (mkOptions None) htmlOnThird).
  vm_compute. discriminate.
Defined.

(** X13. The option [maxRetries] at its edges: the number 0 is replaced by
    the default, so a call with [maxRetries: 0] is the call without
    options and retries twice; a negative number makes the loop body never
    run, so no request is made and [undefined] is returned. *)
Theorem maxRetries_edges (extract : string -> string -> string + ExtractedData)
  (url : string) (net : nat -> AxiosOutcome) :
  crawlUrl extract url (mkOptions (Some 0)) = crawlUrl extract url (mkOptions None) /\
  (forall messages,
     (forall j, tryBlock extract url (net j) = inl (messages j)) ->
     countGets (snd (run net 0 (crawlUrl extract url (mkOptions (Some 0))))) = 3%nat) /\
  (forall n, n < 0 ->
     run net 0 (crawlUrl extract url (mkOptions (Some n))) = (None, [])).
Proof.
  split; [reflexivity|]. split.
  - intros messages F.
    rewrite (Fetch.crawlUrl_all_fail extract url net (mkOptions (Some 0)) messages).
    + reflexivity.
    + vm_compute. discriminate.
    + intros j _. apply F.
  - intros n N. unfold crawlUrl, chosenMaxRetries. cbn [optMaxRetries].
    replace (n =? 0) with false by lia. cbv zeta.
    replace (Z.to_nat (n + 1)) with O by lia. reflexivity.
Qed.

Lemma maxRetries_edges_witness :
  countGets (snd (run alwaysTimeout 0
                    (crawlUrl extractNothing "http://example.com/"
                       (mkOptions (Some 0))))) = 3%nat /\
  run alwaysTimeout 0
    (crawlUrl extractNothing "http://example.com/" (mkOptions (Some (-1)))) =
  (None, []).
Proof.
  destruct (maxRetries_edges extractNothing "http://example.com/" alwaysTimeout)
    as [_ [A B]].
  split.
  - apply (A (fun _ => "timeout of 30000ms exceeded")). intros j. reflexivity.
  - apply B. reflexivity.
Defined.

End FetchBounds.

(** ** Batches *)

Module BatchFacts.
Import NonBrowserCrawler NonBrowserBatch.

Lemma countGets_cons_get u c t : countGets (DidGet u c :: t) = S (countGets t).
Proof. reflexivity. Qed.

Lemma countGets_cons_sleep ms t : countGets (DidSleep ms :: t) = countGets t.
Proof. reflexivity. Qed.

Lemma countGets_app t1 t2 : countGets (t1 ++ t2) = (countGets t1 + countGets t2)%nat.
Proof. unfold countGets. rewrite filter_app, length_app. reflexivity. Qed.

(** Running [p] and then [k]: the requests of [k] are numbered after those
    of [p], and the effects follow each other. *)
Lemma run_bind {A B} net (p : Prog A) (k : A -> Prog B) :
  forall n,
    run net n (bind p k) =
    (fst (run net (n + countGets (snd (run net n p))) (k (fst (run net n p)))),
     snd (run net n p) ++
     snd (run net (n + countGets (snd (run net n p))) (k (fst (run net n p))))).
Proof.
  induction p as [a|u c k' IH|ms k' IH]; intros n.
  - cbn [bind run fst snd countGets filter List.length app].
    rewrite Nat.add_0_r. destruct (run net n (k a)); reflexivity.
  - cbn [bind]. rewrite !Fetch.run_Get. rewrite (IH (net n) (S n)).
    destruct (run net (S n) (k' (net n))) as [a t]. cbn [fst snd].
    rewrite countGets_cons_get.
    replace (n + S (countGets t))%nat with (S n + countGets t)%nat by lia.
    reflexivity.
  - cbn [bind]. rewrite !Fetch.run_Sleep. rewrite (IH n).
    destruct (run net n k') as [a t]. cbn [fst snd].
    rewrite countGets_cons_sleep. reflexivity.
Qed.

Lemma crawlUrl_run_any extract url options net n0 :
  0 <= chosenMaxRetries options ->
  exists k result,
    Z.of_nat k <= chosenMaxRetries options /\
    run net n0 (crawlUrl extract url options) =
    (Some result, spec_schedule url (S k) 1).
Proof.
  intros M. unfold crawlUrl. cbv zeta.
  replace (Z.to_nat (chosenMaxRetries options + 1))
    with (S (Z.to_nat (chosenMaxRetries options))) by lia.
  destruct (FetchBounds.attempts_outcome extract url net
              (chosenMaxRetries options)
              (Z.to_nat (chosenMaxRetries options)) 1 n0)
    as [k [result [K [R _]]]]; [lia|].
  exists k, result. split; [lia|exact R].
Qed.

Lemma crawlUrlsLoop_run extract options net urls :
  0 <= chosenMaxRetries (mkOptions (batchMaxRetries options)) ->
  forall acc n0,
  exists crawls,
    map fst crawls = urls /\
    Forall (fun c => (1 <= snd c)%nat /\
                     Z.of_nat (snd c) <=
                     chosenMaxRetries (mkOptions (batchMaxRetries options)) + 1)
           crawls /\
    snd (run net n0 (crawlUrlsLoop extract options urls acc)) =
      spec_batchTrace (chosenDelay options) crawls /\
    exists results,
      fst (run net n0 (crawlUrlsLoop extract options urls acc)) = acc ++ results /\
      map fst results = urls /\
      Forall (fun e => snd e <> None) results.
Proof.
  intros M. induction urls as [|url rest IH]; intros acc n0.
  - exists []. split; [reflexivity|]. split; [constructor|].
    split; [reflexivity|]. exists []. rewrite app_nil_r.
    split; [reflexivity|]. split; [reflexivity|constructor].
  - cbn [crawlUrlsLoop]. rewrite run_bind.
    destruct (crawlUrl_run_any extract url (mkOptions (batchMaxRetries options))
                net n0 M) as [k [result [K R]]].
    rewrite R. cbn [fst snd].
    set (n1 := (n0 + countGets (spec_schedule url (S k) 1))%nat).
    destruct rest as [|url' rest'].
    + cbn [crawlUrlsLoop run fst snd].
      exists [(url, S k)]. split; [reflexivity|].
      split; [constructor; [cbn [snd]; lia|constructor]|].
      split; [cbn [spec_batchTrace]; reflexivity|].
      exists [(url, Some result)]. split; [reflexivity|].
      split; [reflexivity|]. constructor; [discriminate|constructor].
    + rewrite Fetch.run_Sleep.
      destruct (IH (acc ++ [(url, Some result)]) n1)
        as [crawls [C1 [C2 [C3 [results [R1 [R2 R3]]]]]]].
      destruct (run net n1 (crawlUrlsLoop extract options (url' :: rest')
                              (acc ++ [(url, Some result)]))) as [a t].
      cbn [fst snd] in *.
      exists ((url, S k) :: crawls). split; [cbn [map fst]; rewrite C1; reflexivity|].
      split; [constructor; [cbn [snd]; lia|exact C2]|].
      split.
      * cbn [spec_batchTrace]. rewrite C3.
        destruct crawls as [|c crawls]; [discriminate|reflexivity].
      * exists ((url, Some result) :: results).
        rewrite R1, <- app_assoc. split; [reflexivity|].
        split; [cbn [map fst]; rewrite R2; reflexivity|].
        constructor; [discriminate|exact R3].
Qed.

(** X14. [crawlUrls] of the non-browser crawler works through the URLs one
    after the other: it returns one entry per URL, in order and each with a
    result object (given [maxRetries >= 0]); the requests for a URL, between
    1 and [maxRetries + 1] of them on its own retry schedule, all come
    before those for the next URL, and a timer of [delay] ms separates two
    URLs, with none after the last. *)
Theorem crawlUrls_sequential
  (extract : string -> string -> string + ExtractedData)
  (options : BatchOptions) (net : nat -> AxiosOutcome) (urls : list string) :
  0 <= chosenMaxRetries (mkOptions (batchMaxRetries options)) ->
  exists crawls,
    map fst crawls = urls /\
    Forall (fun c => (1 <= snd c)%nat /\
                     Z.of_nat (snd c) <=
                     chosenMaxRetries (mkOptions (batchMaxRetries options)) + 1)
           crawls /\
    snd (run net 0 (crawlUrls extract urls options)) =
      spec_batchTrace (chosenDelay options) crawls /\
    map fst (fst (run net 0 (crawlUrls extract urls options))) = urls /\
    Forall (fun e => snd e <> None)
           (fst (run net 0 (crawlUrls extract urls options))).
Proof.
  intros M. unfold crawlUrls.
  destruct (crawlUrlsLoop_run extract options net urls M [] O)
    as [crawls [C1 [C2 [C3 [results [R1 [R2 R3]]]]]]].
  exists crawls. split; [exact C1|]. split; [exact C2|]. split; [exact C3|].
  rewrite R1. cbn [app]. split; assumption.
Qed.

Lemma crawlUrls_sequential_witness :
  exists crawls,
    map fst crawls = threeUrls /\
    Forall (fun c => (1 <= snd c)%nat /\
                     Z.of_nat (snd c) <=
                     chosenMaxRetries
                       (mkOptions (batchMaxRetries (mkBatchOptions None None))) + 1)
           crawls /\
    snd (run htmlOnThird 0
           (crawlUrls extractNothing threeUrls (mkBatchOptions None None))) =
      spec_batchTrace (chosenDelay (mkBatchOptions None None)) crawls /\
    map fst (fst (run htmlOnThird 0
                    (crawlUrls extractNothing threeUrls
                       (mkBatchOptions None None)))) = threeUrls /\
    Forall (fun e => snd e <> None)
           (fst (run htmlOnThird 0
                   (crawlUrls extractNothing threeUrls
                      (mkBatchOptions None None)))).
Proof.
  apply (crawlUrls_sequential extractNothing (mkBatchOptions None None)
           htmlOnThird threeUrls).
  vm_compute. discriminate.
Defined.

End BatchFacts.

Module CoordinatorBatchFacts.
Import Coordinator CoordinatorBatch.

Lemma coordinatorLoop_run crawl delay all urls :
  forall acc,
    runBatch crawl (crawlUrlsLoop delay all urls acc) =
    (summarize all (acc ++ map (entryOf crawl) urls),
     if 0 <? delay then spec_batchEffects delay urls else map DidCrawl urls).
Proof.
  induction urls as [|url rest IH]; intros acc.
  - cbn. rewrite app_nil_r. destruct (0 <? delay); reflexivity.
  - cbn [crawlUrlsLoop runBatch map].
    fold (entryOf crawl url).
    destruct rest as [|url' rest'].
    + cbn [crawlUrlsLoop runBatch map spec_batchEffects].
      destruct (0 <? delay); reflexivity.
    + destruct (0 <? delay) eqn:D.
      * cbn [runBatch]. rewrite IH, <- app_assoc. reflexivity.
      * rewrite IH, <- app_assoc. reflexivity.
Qed.

Lemma crawlWith_url hostnameOf nonBrowser browser url out :
  crawlWith hostnameOf nonBrowser browser url = inr out -> outUrl out = url.
Proof.
  unfold crawlWith, crawlUrl, extractDomainName.
  destruct (hostnameOf url) as [domain|]; [|discriminate].
  cbn [executeNonBrowserCrawl andThen runCall].
  destruct (nonBrowser url) as [result|message]; cbn [runCall fst];
    intros H; injection H as <-; unfold finish; cbv zeta.
  - destruct (success result); [|reflexivity].
    destruct (extractedData result) as [e|]; [|reflexivity].
    destruct (convertToSimpleBlocks (pageData e)); reflexivity.
  - reflexivity.
Qed.

Lemma crawlWith_invalid hostnameOf nonBrowser browser url :
  hostnameOf url = None ->
  crawlWith hostnameOf nonBrowser browser url = inl ("Invalid URL: " ++ url)%string.
Proof.
  intros H. unfold crawlWith, crawlUrl, extractDomainName. rewrite H. reflexivity.
Qed.

Lemma count_filter_le {A} (p : A -> bool) l :
  (List.length (filter p l) <= List.length l)%nat.
Proof.
  induction l as [|a l IH]; [cbn; lia|].
  cbn [filter]. destruct (p a); cbn [List.length]; lia.
Qed.

(** X15. [crawlUrls] of the coordinator crawls the URLs one after the
    other and returns one entry per URL, in order and carrying that URL; a
    URL that does not parse makes [crawlUrl] throw, which gives the entry
    [{ success: false, url, error: 'Invalid URL: ...' }], and the batch goes
    on with the next URL.  The batch object has [success: true],
    [totalUrls] the number of URLs and
    [successfulUrls + failedUrls = totalUrls]; between two crawls there is
    one wait of [delay] ms (2000 unless the options give another non-zero
    number), none after the last, and none at all for a negative delay. *)
Theorem coordinator_batch (hostnameOf : string -> option string)
  (nonBrowser : string -> CallOutcome) (browser : string -> BrowserOutcome)
  (urls : list string) (optDelay : option Z) (batch : BatchResult)
  (effects : list BatchEffect) :
  runBatch (crawlWith hostnameOf nonBrowser browser) (crawlUrls urls optDelay)
  = (batch, effects) ->
  batchResults batch =
    map (entryOf (crawlWith hostnameOf nonBrowser browser)) urls /\
  map entryUrl (batchResults batch) = urls /\
  (forall url, In url urls -> hostnameOf url = None ->
               In (Caught url ("Invalid URL: " ++ url)%string) (batchResults batch)) /\
  batchSuccess batch = true /\
  totalUrls batch = Z.of_nat (List.length urls) /\
  successfulUrls batch + failedUrls batch = totalUrls batch /\
  0 <= successfulUrls batch <= totalUrls batch /\
  effects =
    (if 0 <? chosenDelay optDelay
     then spec_batchEffects (chosenDelay optDelay) urls
     else map DidCrawl urls).
Proof.
  unfold crawlUrls. rewrite coordinatorLoop_run. cbn [app].
  intros R. injection R as <- <-.
  set (crawl := crawlWith hostnameOf nonBrowser browser).
  unfold summarize.
  cbn [batchResults batchSuccess totalUrls successfulUrls failedUrls].
  split; [reflexivity|]. split.
  - rewrite map_map. rewrite <- (map_id urls) at 2. apply map_ext.
    intros url. unfold entryOf.
    destruct (crawl url) as [message|out] eqn:E; [reflexivity|].
    apply (crawlWith_url _ _ _ _ _ E).
  - split.
    + intros url I H. apply in_map_iff. exists url. split; [|exact I].
      unfold entryOf, crawl. rewrite (crawlWith_invalid _ _ _ _ H). reflexivity.
    + split; [reflexivity|]. split; [reflexivity|]. split; [lia|].
      split; [|reflexivity].
      pose proof (count_filter_le entrySuccess (map (entryOf crawl) urls)) as L.
      rewrite length_map in L. lia.
Qed.

Lemma coordinator_batch_witness :
  In (Caught "not a url"%string "Invalid URL: not a url"%string)
     (batchResults
        (fst (runBatch (crawlWith colonHost failingNonBrowser someBrowser)
                (crawlUrls ["http://a.example/"; "not a url"; "http://b.example/"]%string
                   None)))).
Proof.
  destruct (coordinator_batch colonHost failingNonBrowser someBrowser
              ["http://a.example/"; "not a url"; "http://b.example/"]%string None
              _ _ (surjective_pairing _))
    as [_ [_ [I _]]].
  apply I; [right; left; reflexivity|reflexivity].
Defined.

Lemma count_filter_ext (p q : Entry -> bool) l :
  Forall (fun e => p e = q e) l -> countZ p l = countZ q l.
Proof.
  unfold countZ. intros F. f_equal. f_equal.
  induction F as [|e l H F IH]; [reflexivity|].
  cbn [filter]. rewrite H, IH. reflexivity.
Qed.

(** X16. In the summary that the route [/api/smart-crawl] computes from a
    batch of the coordinator, [browserSuccesses] counts the same results as
    [nonBrowserSuccesses]: the method ['non_browser'] contains the text
    ['browser'].  Both equal [successful], since every successful result of
    the coordinator has method ['non_browser']. *)
Theorem summary_browser_count (hostnameOf : string -> option string)
  (nonBrowser : string -> CallOutcome) (browser : string -> BrowserOutcome)
  (urls : list string) (optDelay : option Z) (batch : BatchResult)
  (effects : list BatchEffect) :
  runBatch (crawlWith hostnameOf nonBrowser browser) (crawlUrls urls optDelay)
  = (batch, effects) ->
  browserSuccesses (smartCrawlSummary (batchResults batch)) =
    nonBrowserSuccesses (smartCrawlSummary (batchResults batch)) /\
  nonBrowserSuccesses (smartCrawlSummary (batchResults batch)) =
    successful (smartCrawlSummary (batchResults batch)) /\
  total (smartCrawlSummary (batchResults batch)) = Z.of_nat (List.length urls).
Proof.
  unfold crawlUrls. rewrite coordinatorLoop_run. cbn [app].
  intros R. injection R as <- _.
  unfold summarize. cbn [batchResults].
  set (crawl := crawlWith hostnameOf nonBrowser browser).
  assert (M : Forall (fun e => entrySuccess e = true ->
                               entryMethod e = Some "non_browser"%string)
                     (map (entryOf crawl) urls)).
  { apply Forall_forall. intros e I. apply in_map_iff in I.
    destruct I as [url [<- _]]. unfold entryOf.
    destruct (crawl url) as [message|out] eqn:E; [discriminate|].
    cbn [entrySuccess entryMethod]. intros S.
    unfold crawl, crawlWith, crawlUrl, extractDomainName in E.
    destruct (hostnameOf url) as [domain|]; [|discriminate].
    cbn [executeNonBrowserCrawl andThen runCall] in E.
    destruct (nonBrowser url) as [result|message]; cbn [runCall fst] in E;
      injection E as <-.
    - destruct (Selector.finish_method url domain result) as [F|[_ F]];
        [exact F|congruence].
    - reflexivity. }
  unfold smartCrawlSummary.
  cbn [browserSuccesses nonBrowserSuccesses successful total].
  split; [|split].
  - apply count_filter_ext. revert M. apply Forall_impl. intros e H.
    destruct (entrySuccess e); [|reflexivity].
    rewrite (H eq_refl). reflexivity.
  - apply count_filter_ext. revert M. apply Forall_impl. intros e H.
    destruct (entrySuccess e); [|reflexivity].
    rewrite (H eq_refl). reflexivity.
  - rewrite length_map. reflexivity.
Qed.

Lemma summary_browser_count_witness :
  browserSuccesses
    (smartCrawlSummary
       (batchResults
          (fst (runBatch (crawlWith colonHost succeedingNonBrowser someBrowser)
                  (crawlUrls ["http://a.example/"; "not a url"]%string None))))) = 1 /\
  nonBrowserSuccesses
    (smartCrawlSummary
       (batchResults
          (fst (runBatch (crawlWith colonHost succeedingNonBrowser someBrowser)
                  (crawlUrls ["http://a.example/"; "not a url"]%string None))))) = 1.
Proof.
  destruct (summary_browser_count colonHost succeedingNonBrowser someBrowser
              ["http://a.example/"; "not a url"]%string None _ _
              (surjective_pairing _)) as [A [B _]].
  split; [rewrite A, B; reflexivity|rewrite B; reflexivity].
Defined.

End CoordinatorBatchFacts.

(** ** Pages without regions *)

Lemma blockAt_link_absent blocks :
  (forall block, In block blocks -> truthy (link block) = false) ->
  forall j, truthy (link (blockAt blocks j)) = false.
Proof.
  intros H j.
  destruct (Z_lt_le_dec j 0) as [L|L];
    [rewrite blockAt_outside by (left; exact L); reflexivity|].
  destruct (Z_lt_le_dec j (len blocks)) as [U|U];
    [|rewrite blockAt_outside by (right; exact U); reflexivity].
  apply H. apply blockAt_In. lia.
Qed.

(** X17. Links decide the link-pattern test at its two ends: a sequence in
    which no block carries a link is never taken for a link-pattern-only
    page, and a sequence that has a block with a title or content, and in
    which every such block carries a link itself, always is. *)
Theorem checkOnlyLinkPatterns_ends (blocks : list Block) :
  ((forall block, In block blocks -> truthy (link block) = false) ->
   checkOnlyLinkPatterns blocks = false) /\
  (spec_contentIndices blocks <> [] ->
   (forall i, In i (spec_contentIndices blocks) ->
              truthy (link (blockAt blocks i)) = true) ->
   checkOnlyLinkPatterns blocks = true).
Proof.
  unfold checkOnlyLinkPatterns. rewrite linkPatternCounts_spec. split.
  - intros H.
    assert (E : filter (spec_linkNearby blocks) (spec_contentIndices blocks) = []).
    { apply filter_nil_iff. intros i _. unfold spec_linkNearby. cbn [existsb].
      rewrite !(blockAt_link_absent blocks H), !andb_false_r. reflexivity. }
    rewrite E. cbn [List.length]. unfold ratioExceeds.
    apply andb_false_iff. right. apply Z.ltb_ge. lia.
  - intros N H.
    assert (E : filter (spec_linkNearby blocks) (spec_contentIndices blocks)
                = spec_contentIndices blocks).
    { apply Results.filter_all. apply Forall_forall. intros i I.
      unfold spec_linkNearby. cbn [existsb]. rewrite (H i I).
      unfold spec_contentIndices in I. apply filter_In in I.
      destruct I as [I _]. apply zrange_In in I.
      replace (i <? len blocks) with true by lia. reflexivity. }
    rewrite E. unfold ratioExceeds.
    destruct (spec_contentIndices blocks) as [|i l]; [congruence|].
    cbn [List.length]. apply andb_true_iff.
    split; [apply Z.ltb_lt|apply Z.ltb_lt]; lia.
Qed.

Lemma checkOnlyLinkPatterns_ends_witness :
  checkOnlyLinkPatterns noLinks = false /\
  checkOnlyLinkPatterns (repeat shortLinkBlock 3) = true.
Proof.
  split.
  - apply (proj1 (checkOnlyLinkPatterns_ends noLinks)).
    intros block I. apply repeat_spec in I. rewrite I. reflexivity.
  - apply (proj2 (checkOnlyLinkPatterns_ends (repeat shortLinkBlock 3))).
    + vm_compute. discriminate.
    + intros i I.
      assert (R : 0 <= i <= 2).
      { unfold spec_contentIndices in I. apply filter_In in I.
        destruct I as [I _]. apply zrange_In in I.
        change (len (repeat shortLinkBlock 3)) with 3 in I. lia. }
      assert (i = 0 \/ i = 1 \/ i = 2) as [->|[->| ->]] by lia; reflexivity.
Defined.

Lemma In_blockAt blocks block :
  In block blocks -> exists i, 0 <= i < len blocks /\ blockAt blocks i = block.
Proof.
  intros I. apply In_nth_error in I. destruct I as [n E].
  exists (Z.of_nat n).
  assert (n < List.length blocks)%nat by (apply nth_error_Some; congruence).
  split; [unfold len; lia|].
  unfold blockAt, blockGet. replace (Z.of_nat n <? 0) with false by lia.
  rewrite Nat2Z.id, E. reflexivity.
Qed.

Lemma kept_without_content_bearing block :
  shouldIncludeBlock block = true -> isValidContentStart block = false ->
  truthyTrim (image block) = true.
Proof.
  unfold shouldIncludeBlock, isValidContentStart. cbv zeta.
  destruct (truthyTrim (title block)); [discriminate 2|].
  destruct (truthyTrim (image block)); [reflexivity|].
  destruct (truthyTrim (content block)).
  - cbn [orb andb]. destruct (20 <=? countWords (content block)) eqn:A;
      [|discriminate]. intros _ B. lia.
  - destruct (_ && _); discriminate.
Qed.

(** X18. Which branch the pipeline takes is decided by the content-bearing
    blocks.  When there is one, regions exist, and the output is made of the
    blocks inside the pruned regions that pass the Block Filter: the
    link-pattern test is not consulted.  When there is none, the output is
    empty or the filtered whole sequence, and every block it holds has an
    image: nothing else passes the Block Filter without being
    content-bearing. *)
Theorem pipeline_branches (blocks : list Block) :
  ((exists k, validAt blocks k = true) ->
   exists f fs,
     checkLinkPatterns blocks (detectContentRegions blocks) = Some (f :: fs) /\
     detectAndFilterMainContent blocks =
     Some (spec_keptInRegions blocks (f :: fs))) /\
  ((forall k, validAt blocks k = false) ->
   detectAndFilterMainContent blocks =
     Some (if checkOnlyLinkPatterns blocks then []
           else filterWholeSequence blocks) /\
   forall kept, detectAndFilterMainContent blocks = Some kept ->
     Forall (fun k => truthyTrim (image (block_of k)) = true) kept).
Proof.
  destruct (detectAndFilter_form blocks) as [fs [E [F R]]].
  destruct (stateAt_geom blocks (len blocks) (len_nonneg blocks))
    as [G [_ C]].
  rewrite <- detectContentRegions_regions in G.
  rewrite <- detectContentRegions_allRegions in C.
  split.
  - intros [k V]. pose proof (validAt_in_range blocks k V) as Rk.
    destruct (C k ltac:(lia) V) as [r [I _]].
    destruct fs as [|f fs].
    + inversion F as [N|]. rewrite <- N in I. destruct I.
    + exists f, fs. split; [exact E|exact R].
  - intros N.
    assert (D : detectContentRegions blocks = []).
    { destruct (detectContentRegions blocks) as [|r rs]; [reflexivity|].
      inversion G as [|x l [V _] G']; subst. rewrite N in V. discriminate. }
    rewrite D in F. inversion F; subst.
    split; [exact R|].
    intros kept K. destruct (pipeline_kept_sound blocks kept K) as [S _].
    revert S. apply Forall_impl. intros k [P [I _]].
    apply kept_without_content_bearing; [exact P|].
    destruct (In_blockAt blocks _ I) as [i [_ B]].
    rewrite <- B. apply N.
Qed.

Lemma pipeline_branches_witness :
  (exists f fs,
     checkLinkPatterns validAt5And14 (detectContentRegions validAt5And14)
     = Some (f :: fs) /\
     detectAndFilterMainContent validAt5And14 =
     Some (spec_keptInRegions validAt5And14 (f :: fs))) /\
  Forall (fun k => truthyTrim (image (block_of k)) = true)
    [mkFiltered imageBlock no_region_filter 0 true None 0].
Proof.
  split.
  - apply (proj1 (pipeline_branches validAt5And14)). exists 5. reflexivity.
  - apply (proj2 (proj2 (pipeline_branches imageAmongShort)
                    ltac:(intros k;
                          destruct (Z_lt_le_dec k 0) as [L|L];
                          [unfold validAt;
                           rewrite blockAt_outside by (left; exact L);
                           reflexivity|];
                          destruct (Z_lt_le_dec k 3) as [U|U];
                          [|unfold validAt;
                            rewrite blockAt_outside by (right; exact U);
                            reflexivity];
                          assert (k = 0 \/ k = 1 \/ k = 2) as [->|[->| ->]]
                            by lia; reflexivity))).
    vm_compute. reflexivity.
Defined.
